(** * English number, duration and date-time extraction (mycroft/util/lang/parse_en.py)

    A shallow embedding of [parse_en.py] and the properties of its
    extractors.  Python values are modelled as the code has them:

    - [str] is [string]; the text is read as ASCII, so a character is a
      digit when it is one of 0-9 and white space when [str.isspace] holds
      of it in the ASCII range;
    - [int] is [Z], [float] is the primitive binary64 [float];
    - a raised exception is an outcome of its own ([Raise]), so that a fault
      is never confused with the value [None];
    - lists that the code updates in place ([words]) are threaded through
      the loops as explicit state. *)

From Stdlib Require Import ZArith List String Ascii Bool Lia.
From Stdlib Require Import PrimFloat FloatOps Uint63.
Import ListNotations.

Open Scope string_scope.
Open Scope Z_scope.

(** ** Outcomes of a Python call *)

Inductive exn : Set :=
| ValueError
| IndexError
| TypeError
| ZeroDivisionError
| OverflowError
| FuelExhausted (* not a Python exception: the recursion budget of the model ran out;
                    no extractor ends with it, see [budget_is_enough] *).

Inductive outcome (A : Type) : Type :=
| Ret (a : A)
| Raise (e : exn).

Arguments Ret {A} a.
Arguments Raise {A} e.

Definition bind {A B : Type} (m : outcome A) (k : A -> outcome B) : outcome B :=
  match m with
  | Ret a => k a
  | Raise e => Raise e
  end.

Notation "x <- m ;; k" := (bind m (fun x => k))
  (at level 61, m at next level, right associativity).
Notation "' p <- m ;; k" := (bind m (fun x => match x with p => k end))
  (at level 61, p pattern, m at next level, right associativity).

Definition returned {A : Type} (m : outcome A) : bool :=
  match m with Ret _ => true | Raise _ => false end.

(** ** Characters and strings *)

Definition isdigit_c (c : ascii) : bool :=
  let n := nat_of_ascii c in (48 <=? n)%nat && (n <=? 57)%nat.

(** [str.isspace] on ASCII: tab, line feed, vertical tab, form feed,
    carriage return, the four separators 0x1c-0x1f and the space. *)
Definition isspace_c (c : ascii) : bool :=
  let n := nat_of_ascii c in
  ((9 <=? n)%nat && (n <=? 13)%nat) || ((28 <=? n)%nat && (n <=? 32)%nat).

Definition lower_c (c : ascii) : ascii :=
  let n := nat_of_ascii c in
  if (65 <=? n)%nat && (n <=? 90)%nat then ascii_of_nat (n + 32) else c.

Fixpoint str_map (f : ascii -> ascii) (s : string) : string :=
  match s with
  | EmptyString => EmptyString
  | String c s' => String (f c) (str_map f s')
  end.

Definition lower (s : string) : string := str_map lower_c s.

Fixpoint str_forallb (f : ascii -> bool) (s : string) : bool :=
  match s with
  | EmptyString => true
  | String c s' => f c && str_forallb f s'
  end.

(** [s.isdigit()]: non-empty and all digits. *)
Definition isdigit (s : string) : bool :=
  match s with
  | EmptyString => false
  | _ => str_forallb isdigit_c s
  end.

Definition nonempty (s : string) : bool :=
  match s with EmptyString => false | _ => true end.

(** [s[0]], which raises [IndexError] on the empty string. *)
Definition first_char (s : string) : outcome ascii :=
  match s with
  | EmptyString => Raise IndexError
  | String c _ => Ret c
  end.

Definition first_isdigit (s : string) : outcome bool :=
  c <- first_char s ;; Ret (isdigit_c c).

Fixpoint str_rev_app (s acc : string) : string :=
  match s with
  | EmptyString => acc
  | String c s' => str_rev_app s' (String c acc)
  end.

Definition str_rev (s : string) : string := str_rev_app s EmptyString.

(** [sub in s] on strings *)
Fixpoint contains (sub s : string) : bool :=
  prefix sub s ||
  match s with
  | EmptyString => false
  | String _ s' => contains sub s'
  end.

Fixpoint drop (n : nat) (s : string) : string :=
  match n, s with
  | O, _ => s
  | S n', String _ s' => drop n' s'
  | S _, EmptyString => EmptyString
  end.

(** [s.replace(old, new)] for a non-empty [old]: occurrences are found from
    the left and do not overlap.  [skip] counts the characters of a match
    that are still to be passed over. *)
Fixpoint replace_from (old new : string) (skip : nat) (s : string) : string :=
  match s with
  | EmptyString => EmptyString
  | String c s' =>
      match skip with
      | S k => replace_from old new k s'
      | O =>
          if prefix old s
          then new ++ replace_from old new (String.length old - 1) s'
          else String c (replace_from old new O s')
      end
  end.

Definition replace (old new s : string) : string := replace_from old new O s.

Fixpoint lstrip_pred (f : ascii -> bool) (s : string) : string :=
  match s with
  | EmptyString => EmptyString
  | String c s' => if f c then lstrip_pred f s' else s
  end.

Definition rstrip_pred (f : ascii -> bool) (s : string) : string :=
  str_rev (lstrip_pred f (str_rev s)).

Definition lstrip (s : string) : string := lstrip_pred isspace_c s.
Definition rstrip (s : string) : string := rstrip_pred isspace_c s.
Definition strip (s : string) : string := lstrip (rstrip s).

(** [s.rstrip('s')] *)
Definition rstrip_s (s : string) : string := rstrip_pred (Ascii.eqb "s") s.

(** [s.endswith('s')] *)
Definition endswith_s (s : string) : bool :=
  match str_rev s with
  | String c _ => Ascii.eqb c "s"
  | EmptyString => false
  end.

(** [s[:len(s) - 1]] *)
Definition drop_last (s : string) : string :=
  match str_rev s with
  | String _ r => str_rev r
  | EmptyString => EmptyString
  end.

(** [s.split()]: the maximal runs of characters that are not white space.
    [cur] is the word being read. *)
Fixpoint split_from (cur s : string) : list string :=
  match s with
  | EmptyString => if nonempty cur then [cur] else []
  | String c s' =>
      if isspace_c c
      then (if nonempty cur then cur :: split_from EmptyString s'
            else split_from EmptyString s')
      else split_from (cur ++ String c EmptyString) s'
  end.

Definition split (s : string) : list string := split_from EmptyString s.

(** [sep.join(l)] *)
Definition join (sep : string) (l : list string) : string := String.concat sep l.

(** [s.split(c)] for a one-character separator: always at least one piece *)
Fixpoint split_on_from (sep : ascii) (cur s : string) : list string :=
  match s with
  | EmptyString => [cur]
  | String c s' =>
      if Ascii.eqb c sep then cur :: split_on_from sep EmptyString s'
      else split_on_from sep (cur ++ String c EmptyString) s'
  end.

Definition split_on (sep : ascii) (s : string) : list string :=
  split_on_from sep EmptyString s.

Definition mem (s : string) (l : list string) : bool :=
  existsb (String.eqb s) l.

(** [l.index(s)] *)
Fixpoint index_of (s : string) (l : list string) : option nat :=
  match l with
  | [] => None
  | x :: l' => if String.eqb x s then Some O
               else option_map S (index_of s l')
  end.

(** ** Decimal integers *)

Definition digit_val (c : ascii) : Z := Z.of_nat (nat_of_ascii c) - 48.

Fixpoint digits_val (acc : Z) (s : string) : Z :=
  match s with
  | EmptyString => acc
  | String c s' => digits_val (10 * acc + digit_val c) s'
  end.

(** [int(s)] on what the code passes to it: an optional sign and ASCII
    digits; anything else raises [ValueError]. *)
Definition signed_digits (s : string) : option Z :=
  match s with
  | String c d =>
      if Ascii.eqb c "-" then (if isdigit d then Some (- digits_val 0 d) else None)
      else if Ascii.eqb c "+" then (if isdigit d then Some (digits_val 0 d) else None)
      else if isdigit s then Some (digits_val 0 s) else None
  | EmptyString => None
  end.

Definition int_of_string (s : string) : outcome Z :=
  match signed_digits s with
  | Some n => Ret n
  | None => Raise ValueError
  end.

Definition digit_char (d : Z) : ascii := ascii_of_nat (Z.to_nat (d + 48)).

Fixpoint pos_digits (fuel : nat) (n : Z) (acc : string) : string :=
  match fuel with
  | O => acc
  | S fuel' =>
      let acc' := String (digit_char (n mod 10)) acc in
      if n <? 10 then acc' else pos_digits fuel' (n / 10) acc'
  end.

(** [str(n)] for an [int] *)
Definition str_of_Z (n : Z) : string :=
  let a := Z.abs n in
  let d := pos_digits (S (Z.to_nat (Z.log2 a))) a EmptyString in
  if n <? 0 then String "-" d else d.

(** ** Floats

    Python's [float] is IEEE binary64, as is the primitive [float].  What
    the primitives lack is the conversion from and to decimal text; both
    are done here in exact integer arithmetic. *)

(** The binary64 nearest to [p / q] for positive [p] and [q], ties to even;
    infinity when the quotient is out of range. *)
Definition round_pos_rational (p q : Z) : float :=
  let l := Z.log2 p - Z.log2 q in
  let ge k := if 0 <=? k then q * 2 ^ k <=? p else q <=? p * 2 ^ (- k) in
  let e := if ge l then l else l - 1 in
  let u := Z.max (e - 52) (-1074) in
  let N := if 0 <=? u then p else p * 2 ^ (- u) in
  let D := if 0 <=? u then q * 2 ^ u else q in
  let m0 := N / D in
  let r := N mod D in
  let m := if D <? 2 * r then m0 + 1
           else if 2 * r =? D then (if Z.odd m0 then m0 + 1 else m0)
           else m0 in
  if m =? 0 then PrimFloat.zero
  else if 1024 <=? u + Z.log2 m then PrimFloat.infinity
  else Z.ldexp (PrimFloat.of_uint63 (Uint63.of_Z m)) u.

Definition round_rational (neg : bool) (p q : Z) : float :=
  let f := if p =? 0 then PrimFloat.zero else round_pos_rational p q in
  if neg then PrimFloat.opp f else f.

(** [float(n)] for an [int]; Python raises [OverflowError] when the
    integer is too large for a float. *)
Definition float_of_Z (n : Z) : outcome float :=
  let f := round_rational (n <? 0) (Z.abs n) 1 in
  if PrimFloat.is_infinity f then Raise OverflowError else Ret f.

(** Small integers convert exactly. *)
Definition float_of_small (n : Z) : float := round_rational (n <? 0) (Z.abs n) 1.

Fixpoint span_digits (s : string) : string * string :=
  match s with
  | String c s' =>
      if isdigit_c c then let (d, r) := span_digits s' in (String c d, r)
      else (EmptyString, s)
  | EmptyString => (EmptyString, EmptyString)
  end.

(** The exponent part of a float literal: nothing, or [e] with an optional
    sign and at least one digit. *)
Definition parse_exponent (s : string) : option Z :=
  match s with
  | EmptyString => Some 0
  | String c s' =>
      if Ascii.eqb (lower_c c) "e" then signed_digits s' else None
  end.

Definition parse_unsigned_float (neg : bool) (s : string) : option float :=
  let ls := lower s in
  if String.eqb ls "inf" || String.eqb ls "infinity" then
    Some (if neg then PrimFloat.neg_infinity else PrimFloat.infinity)
  else if String.eqb ls "nan" then Some PrimFloat.nan
  else
    let (ip, r1) := span_digits s in
    let '(fp, r2) :=
      match r1 with
      | String c r => if Ascii.eqb c "." then span_digits r else (EmptyString, r1)
      | EmptyString => (EmptyString, r1)
      end in
    if nonempty ip || nonempty fp then
      match parse_exponent r2 with
      | Some ex =>
          let n := digits_val 0 (ip ++ fp) in
          let e10 := ex - Z.of_nat (String.length fp) in
          Some (if 0 <=? e10 then round_rational neg (n * 10 ^ e10) 1
                else round_rational neg n (10 ^ (- e10)))
      | None => None
      end
    else None.

(** [float(s)] on a word: a sign, then [inf], [infinity], [nan] or a decimal
    literal with an optional fraction and exponent.  (Digit-group
    underscores, which recent Python versions also accept, are not
    modelled.)  [None] stands for the [ValueError]. *)
Definition parse_float (s : string) : option float :=
  match s with
  | String c s' =>
      if Ascii.eqb c "-" then parse_unsigned_float true s'
      else if Ascii.eqb c "+" then parse_unsigned_float false s'
      else parse_unsigned_float false s
  | EmptyString => parse_unsigned_float false s
  end.

Definition float_of_string (s : string) : outcome float :=
  match parse_float s with
  | Some f => Ret f
  | None => Raise ValueError
  end.

(** The exact value [m * 2 ^ e] of a finite non-zero float, as a fraction. *)
Definition float_fraction (f : float) : Z * Z :=
  match Prim2SF f with
  | SpecFloat.S754_finite _ m e =>
      if 0 <=? e then (Z.pos m * 2 ^ e, 1) else (Z.pos m, 2 ^ (- e))
  | _ => (0, 1)
  end.

(** [t] with [10 ^ t <= p / q < 10 ^ (t + 1)], searched around an estimate
    taken from the binary logarithms. *)
Definition pow10_le (t p q : Z) : bool :=
  if 0 <=? t then q * 10 ^ t <=? p else q <=? p * 10 ^ (- t).

Fixpoint adjust_log10 (fuel : nat) (t p q : Z) : Z :=
  match fuel with
  | O => t
  | S fuel' =>
      if negb (pow10_le t p q) then adjust_log10 fuel' (t - 1) p q
      else if pow10_le (t + 1) p q then adjust_log10 fuel' (t + 1) p q
      else t
  end.

Definition floor_log10 (p q : Z) : Z :=
  adjust_log10 8 (((Z.log2 p - Z.log2 q) * 30103) / 100000) p q.

(** The decimal [d * 10 ^ s] with [n] significant digits that lies nearest
    to the float and reads back as the same float, if there is one. *)
Definition digits_at (f : float) (p q t : Z) (n : Z) : option (Z * Z) :=
  let s := t - n + 1 in
  let N := if 0 <=? s then p else p * 10 ^ (- s) in
  let D := if 0 <=? s then q * 10 ^ s else q in
  let lo := N / D in
  let r := N mod D in
  let hi := lo + 1 in
  let back d := if 0 <=? s then round_rational false (d * 10 ^ s) 1
                else round_rational false d (10 ^ (- s)) in
  let oklo := (0 <? lo) && PrimFloat.eqb (back lo) f in
  let okhi := PrimFloat.eqb (back hi) f in
  if oklo && okhi then
    (if D <? 2 * r then Some (hi, s)
     else if 2 * r =? D then Some (if Z.odd lo then hi else lo, s)
     else Some (lo, s))
  else if oklo then Some (lo, s)
  else if okhi then Some (hi, s)
  else None.

Fixpoint shortest_digits (fuel : nat) (f : float) (p q t : Z) (n : Z) : Z * Z :=
  match fuel with
  | O => (0, 0)
  | S fuel' =>
      match digits_at f p q t n with
      | Some ds => ds
      | None => shortest_digits fuel' f p q t (n + 1)
      end
  end.

Fixpoint strip_zeros (fuel : nat) (d s : Z) : Z * Z :=
  match fuel with
  | O => (d, s)
  | S fuel' => if (d mod 10 =? 0) && (0 <? d) then strip_zeros fuel' (d / 10) (s + 1)
               else (d, s)
  end.

Fixpoint zeros (n : nat) : string :=
  match n with
  | O => EmptyString
  | S n' => String "0" (zeros n')
  end.

(** [repr] of a positive finite float: the shortest digits that read back,
    in positional notation when the decimal point falls within
    [-4 < decpt <= 16] and in exponent notation otherwise. *)
Definition repr_pos_float (f : float) : string :=
  let (p, q) := float_fraction f in
  let t := floor_log10 p q in
  let (d0, s0) := shortest_digits 17 f p q t 1 in
  let (d, s) := strip_zeros 20 d0 s0 in
  let ds := str_of_Z d in
  let nd := Z.of_nat (String.length ds) in
  let decpt := nd + s in
  if (-4 <? decpt) && (decpt <=? 16) then
    if decpt <=? 0 then "0." ++ zeros (Z.to_nat (- decpt)) ++ ds
    else if nd <=? decpt then ds ++ zeros (Z.to_nat (decpt - nd)) ++ ".0"
    else substring 0 (Z.to_nat decpt) ds ++ "." ++ drop (Z.to_nat decpt) ds
  else
    let ex := decpt - 1 in
    let mant := match ds with
                | String c EmptyString => ds
                | String c r => String c ("." ++ r)
                | EmptyString => ds
                end in
    let exs := str_of_Z (Z.abs ex) in
    mant ++ "e" ++ (if ex <? 0 then "-" else "+")
         ++ (if Z.abs ex <? 10 then "0" ++ exs else exs).

(** [str(f)] for a [float] *)
Definition str_of_float (f : float) : string :=
  if PrimFloat.is_nan f then "nan"
  else if PrimFloat.is_infinity f then (if PrimFloat.get_sign f then "-inf" else "inf")
  else if PrimFloat.is_zero f then (if PrimFloat.get_sign f then "-0.0" else "0.0")
  else if PrimFloat.get_sign f then "-" ++ repr_pos_float (PrimFloat.abs f)
  else repr_pos_float f.

(** ** Numbers as the extractor holds them

    The variable [val] of the number extractor is [False], [None], an [int]
    or a [float] at different moments; the distinction matters because the
    code tests [val is False], [not val] and [val is not None]. *)

Inductive pyval : Set :=
| PFalse
| PNone
| PInt (z : Z)
| PFloat (f : float).

(** Truth value: [False], [None], [0] and [0.0] are false. *)
Definition truthy (v : pyval) : bool :=
  match v with
  | PFalse | PNone => false
  | PInt z => negb (z =? 0)
  | PFloat f => negb (PrimFloat.eqb f PrimFloat.zero)
  end.

Definition is_PFalse (v : pyval) : bool :=
  match v with PFalse => true | _ => false end.

Definition is_PNone (v : pyval) : bool :=
  match v with PNone => true | _ => false end.

(** [False] counts as the integer 0 in arithmetic; [None] raises. *)
Definition as_number (v : pyval) : outcome (Z + float) :=
  match v with
  | PFalse => Ret (inl 0)
  | PInt z => Ret (inl z)
  | PFloat f => Ret (inr f)
  | PNone => Raise TypeError
  end.

Definition py_arith (fz : Z -> Z -> Z) (ff : float -> float -> float)
    (a b : pyval) : outcome pyval :=
  x <- as_number a ;;
  y <- as_number b ;;
  match x, y with
  | inl m, inl n => Ret (PInt (fz m n))
  | inl m, inr g => f <- float_of_Z m ;; Ret (PFloat (ff f g))
  | inr f, inl n => g <- float_of_Z n ;; Ret (PFloat (ff f g))
  | inr f, inr g => Ret (PFloat (ff f g))
  end.

Definition py_add := py_arith Z.add PrimFloat.add.
Definition py_sub := py_arith Z.sub PrimFloat.sub.
Definition py_mul := py_arith Z.mul PrimFloat.mul.

(** [float / float] *)
Definition float_div (a b : float) : outcome float :=
  if PrimFloat.eqb b PrimFloat.zero then Raise ZeroDivisionError
  else Ret (PrimFloat.div a b).

(** [v < c], [c < v] and [v >= c] for a small integer constant [c], which
    converts to a float exactly. *)
Definition py_lt_const (v : pyval) (c : Z) : outcome bool :=
  x <- as_number v ;;
  Ret match x with
      | inl z => z <? c
      | inr f => PrimFloat.ltb f (float_of_small c)
      end.

Definition py_gt_const (v : pyval) (c : Z) : outcome bool :=
  x <- as_number v ;;
  Ret match x with
      | inl z => c <? z
      | inr f => PrimFloat.ltb (float_of_small c) f
      end.

Definition py_ge_const (v : pyval) (c : Z) : outcome bool :=
  x <- as_number v ;;
  Ret match x with
      | inl z => c <=? z
      | inr f => PrimFloat.leb (float_of_small c) f
      end.

(** [str(v)] *)
Definition str_of_pyval (v : pyval) : string :=
  match v with
  | PFalse => "False"
  | PNone => "None"
  | PInt z => str_of_Z z
  | PFloat f => str_of_float f
  end.

(** [sum(l)]: a left fold of [+] from the integer 0 *)
Fixpoint py_sum_from (acc : pyval) (l : list pyval) : outcome pyval :=
  match l with
  | [] => Ret acc
  | x :: l' => acc' <- py_add acc x ;; py_sum_from acc' l'
  end.

Definition py_sum (l : list pyval) : outcome pyval := py_sum_from (PInt 0) l.

(** ** Dictionaries with string keys, as association lists

    The first binding of a key is the one in force, so an update puts the
    new bindings in front. *)

Definition dict (A : Type) : Type := list (string * A).

Fixpoint dict_get {A : Type} (k : string) (d : dict A) : option A :=
  match d with
  | [] => None
  | (k', v) :: d' => if String.eqb k k' then Some v else dict_get k d'
  end.

Definition dict_has {A : Type} (k : string) (d : dict A) : bool :=
  match dict_get k d with Some _ => true | None => false end.

Definition dict_update {A : Type} (d new : dict A) : dict A := (new ++ d)%list.

(** [_invert_dict]: when two keys carry the same value the later one wins *)
Definition _invert_dict {A : Type} (original : list (A * string)) : dict A :=
  rev (map (fun kv => (snd kv, fst kv)) original).

(** [_generate_plurals] on a dictionary and on a set *)
Definition _generate_plurals_dict {A : Type} (originals : dict A) : dict A :=
  map (fun kv => (fst kv ++ "s", snd kv)) originals.

Definition _generate_plurals (originals : list string) : list string :=
  map (fun w => w ++ "s") originals.

(** ** The lexicon *)

(** Modelled from the spec: the tables of [common_data_en], which is not
    among the sources.  The spec names them in its Lexicon Resource (word to
    integer, the tens 20 to 90 as sum words, scale words with the short and
    the long scale of its glossary, ordinal words) and lists the articles
    in its pre-processing step. *)
Definition ARTICLES : list string := ["a"; "an"; "the"].

Definition NUM_STRING_EN : list (pyval * string) :=
  map (fun kv => (PInt (fst kv), snd kv))
  [ (0, "zero"); (1, "one"); (2, "two"); (3, "three"); (4, "four");
    (5, "five"); (6, "six"); (7, "seven"); (8, "eight"); (9, "nine");
    (10, "ten"); (11, "eleven"); (12, "twelve"); (13, "thirteen");
    (14, "fourteen"); (15, "fifteen"); (16, "sixteen"); (17, "seventeen");
    (18, "eighteen"); (19, "nineteen"); (20, "twenty"); (30, "thirty");
    (40, "forty"); (50, "fifty"); (60, "sixty"); (70, "seventy");
    (80, "eighty"); (90, "ninety") ].

Definition SHORT_SCALE_EN : list (pyval * string) :=
  [ (PInt 100, "hundred"); (PInt 1000, "thousand"); (PInt 1000000, "million");
    (PInt (10 ^ 9), "billion"); (PInt (10 ^ 12), "trillion") ].

Definition LONG_SCALE_EN : list (pyval * string) :=
  [ (PInt 100, "hundred"); (PInt 1000, "thousand"); (PInt 1000000, "million");
    (PInt (10 ^ 12), "billion"); (PInt (10 ^ 18), "trillion") ].

Definition SHORT_ORDINAL_STRING_EN : list (Z * string) :=
  [ (1, "first"); (2, "second"); (3, "third"); (4, "fourth"); (5, "fifth");
    (6, "sixth"); (7, "seventh"); (8, "eighth"); (9, "ninth"); (10, "tenth");
    (11, "eleventh"); (12, "twelfth"); (13, "thirteenth"); (14, "fourteenth");
    (15, "fifteenth"); (16, "sixteenth"); (17, "seventeenth");
    (18, "eighteenth"); (19, "nineteenth"); (20, "twentieth") ].

Definition LONG_ORDINAL_STRING_EN : list (Z * string) := SHORT_ORDINAL_STRING_EN.

(** Modelled from the spec: [is_numeric] of [parse_common], which is not
    among the sources; the spec calls it the literal digit or float parse. *)
Definition is_numeric (input_str : string) : bool :=
  match parse_float input_str with Some _ => true | None => false end.

(** Modelled from the spec: [look_for_fractions] of [parse_common], the
    test for a slash-fraction such as 3/4: two pieces, both numeric. *)
Definition look_for_fractions (split_list : list string) : bool :=
  match split_list with
  | [a; b] => is_numeric a && is_numeric b
  | _ => false
  end.

(** The tables the module derives when it is loaded *)

Definition _NEGATIVES : list string := ["negative"; "minus"].

Definition _SUMS : list string :=
  ["twenty"; "20"; "thirty"; "30"; "forty"; "40"; "fifty"; "50";
   "sixty"; "60"; "seventy"; "70"; "eighty"; "80"; "ninety"; "90"].

Definition _MULTIPLIES_LONG_SCALE_EN : list string :=
  (map snd LONG_SCALE_EN ++ _generate_plurals (map snd LONG_SCALE_EN))%list.

Definition _MULTIPLIES_SHORT_SCALE_EN : list string :=
  (map snd SHORT_SCALE_EN ++ _generate_plurals (map snd SHORT_SCALE_EN))%list.

Definition _FRACTION_MARKER : list string := ["and"].

(** A Python set of two strings; its iteration order is not fixed by the
    language, the order written in the source is taken. *)
Definition _DECIMAL_MARKER : list string := ["point"; "dot"].

Definition _STRING_NUM_EN : dict pyval :=
  let d0 := _invert_dict NUM_STRING_EN in
  let d1 := dict_update d0 (_generate_plurals_dict d0) in
  dict_update d1
    [ ("half", PFloat (PrimFloat.div (float_of_small 1) (float_of_small 2)));
      ("halves", PFloat (PrimFloat.div (float_of_small 1) (float_of_small 2)));
      ("couple", PInt 2) ].

Definition _STRING_SHORT_ORDINAL_EN : dict Z := _invert_dict SHORT_ORDINAL_STRING_EN.
Definition _STRING_LONG_ORDINAL_EN : dict Z := _invert_dict LONG_ORDINAL_STRING_EN.

(** ** Tokens *)

Record _Token : Set := mk_Token { word : string; index : Z }.

Fixpoint enumerate_from {A : Type} (i : Z) (l : list A) : list (Z * A) :=
  match l with
  | [] => []
  | x :: l' => (i, x) :: enumerate_from (i + 1) l'
  end.

Definition enumerate {A : Type} (l : list A) : list (Z * A) := enumerate_from 0 l.

Definition _tokenize (text : string) : list _Token :=
  map (fun iw => mk_Token (snd iw) (fst iw)) (enumerate (split text)).

Record _ReplaceableNumber : Set := mk_ReplaceableNumber
  { value : pyval; rn_word : string; start_index : Z; end_index : Z }.

(** [_partition_list]: cut [items] at every item on which [split_on] holds,
    keep the separators as pieces of their own and drop the empty pieces. *)
Fixpoint partition_from {A : Type} (split_on : A -> bool)
    (current_split : list A) (items : list A) : list (list A) :=
  match items with
  | [] => [current_split]
  | item :: items' =>
      if split_on item
      then current_split :: [item] :: partition_from split_on [] items'
      else partition_from split_on (current_split ++ [item])%list items'
  end.

Definition _partition_list {A : Type} (items : list A) (split_on : A -> bool)
    : list (list A) :=
  filter (fun x => negb (Nat.eqb (List.length x) 0))
         (partition_from split_on [] items).

(** [_initialize_number_data] *)
Definition _initialize_number_data (short_scale : bool)
    : list string * dict Z * dict pyval :=
  let multiplies := if short_scale then _MULTIPLIES_SHORT_SCALE_EN
                    else _MULTIPLIES_LONG_SCALE_EN in
  let string_num_ordinal_en := if short_scale then _STRING_SHORT_ORDINAL_EN
                               else _STRING_LONG_ORDINAL_EN in
  let string_num_scale_en0 :=
    _invert_dict (if short_scale then SHORT_SCALE_EN else LONG_SCALE_EN) in
  let string_num_scale_en :=
    dict_update string_num_scale_en0 (_generate_plurals_dict string_num_scale_en0) in
  (multiplies, string_num_ordinal_en, string_num_scale_en).

(** [isFractional_en]: [False], or the fraction a word such as "half",
    "quarter" or "fifths" stands for. *)
Definition isFractional_en (input_str : string) (short_scale : bool) : pyval :=
  let input_str := if endswith_s input_str then drop_last input_str else input_str in
  let ordinal := if short_scale then SHORT_ORDINAL_STRING_EN
                 else LONG_ORDINAL_STRING_EN in
  let fracts : dict Z :=
    dict_update [("whole", 1); ("half", 2); ("halve", 2); ("quarter", 4)]
      (_invert_dict (filter (fun kv => 2 <? fst kv) ordinal)) in
  match dict_get (lower input_str) fracts with
  | Some n => PFloat (PrimFloat.div (float_of_small 1) (float_of_small n))
  | None => PFalse
  end.

(** ** The single-number extractor *)

(** The variables of the scan of [_extract_number_with_text_en] *)
Record scan_state : Set := mk_scan
  { number_words : list _Token;
    val : pyval;
    prev_val : pyval;
    to_sum : list pyval }.

Inductive flow : Set := Continue | Break | Go.

Definition word_at (tokens : list _Token) (i : nat) : string :=
  match nth_error tokens i with
  | Some t => word t
  | None => EmptyString
  end.

Definition is_int_one (v : pyval) : bool :=
  match v with PInt 1 => true | _ => false end.

(** The test that ends a run of number words: the word is no scale word,
    no number name, no tens word, no multiplier, no ordinal (when ordinals
    are read), no numeral, no fraction word and no slash-fraction. *)
Definition unknown_word (w : string) (short_scale ordinals : bool) : bool :=
  let '(multiplies, string_num_ordinal, string_num_scale) :=
    _initialize_number_data short_scale in
  negb (dict_has w string_num_scale)
  && negb (dict_has w _STRING_NUM_EN)
  && negb (mem w _SUMS)
  && negb (mem w multiplies)
  && negb (ordinals && dict_has w string_num_ordinal)
  && negb (is_numeric w)
  && negb (truthy (isFractional_en w short_scale))
  && negb (look_for_fractions (split_on "/" w)).

(** The value rules applied to a number-bearing word, in the order of the
    source: the new [val], [prev_val] and [to_sum]. *)
Definition token_value (short_scale ordinals : bool)
    (w prev_word next_word : string) (st : scan_state)
    : outcome (pyval * pyval * list pyval) :=
  let '(multiplies, string_num_ordinal, string_num_scale) :=
    _initialize_number_data short_scale in
  (* is this word already a number ? *)
  v1 <- (if is_numeric w then
           if isdigit w then n <- int_of_string w ;; Ret (PInt n)
           else f <- float_of_string w ;; Ret (PFloat f)
         else Ret (val st)) ;;
  (* is this word the name of a number ? *)
  let v2 :=
    match dict_get w _STRING_NUM_EN with
    | Some v => v
    | None =>
        match dict_get w string_num_scale with
        | Some v => v
        | None =>
            if ordinals then
              match dict_get w string_num_ordinal with
              | Some n => PInt n
              | None => v1
              end
            else v1
        end
    end in
  (* is the prev word an ordinal number and current word is one? *)
  let v3 := if ordinals && dict_has prev_word string_num_ordinal && is_int_one v2
            then prev_val st else v2 in
  (* is the prev word a number and should we sum it? *)
  v4 <- (if mem prev_word _SUMS
            && (dict_has w _STRING_NUM_EN || dict_has w string_num_scale
                || (ordinals && dict_has w string_num_ordinal))
         then
           if truthy v3 then
             small <- py_lt_const v3 10 ;;
             if small then py_add (prev_val st) v3 else Ret v3
           else Ret v3
         else Ret v3) ;;
  (* is the prev word a number and should we multiply it? *)
  '(pv5, v5) <- (if mem w multiplies then
                   let pv := if truthy (prev_val st) then prev_val st else PInt 1 in
                   v <- py_mul pv v4 ;; Ret (pv, v)
                 else Ret (prev_val st, v4)) ;;
  (* is this a spoken fraction? *)
  let v6 := if is_PFalse v5 then isFractional_en w short_scale else v5 in
  (* 2 fifths *)
  v7 <- (if negb ordinals then
           let next_value := isFractional_en next_word short_scale in
           if truthy next_value
           then py_mul (if truthy v6 then v6 else PInt 1) next_value
           else Ret v6
         else Ret v6) ;;
  (* is this a negative number? *)
  v8 <- (if truthy v7 && nonempty prev_word && mem prev_word _NEGATIVES
         then py_sub (PInt 0) v7 else Ret v7) ;;
  (* let's make sure it isn't a fraction *)
  if negb (truthy v8) then
    let aPieces := split_on "/" w in
    if look_for_fractions aPieces then
      a <- float_of_string (nth 0 aPieces EmptyString) ;;
      b <- float_of_string (nth 1 aPieces EmptyString) ;;
      q <- float_div a b ;;
      Ret (PFloat q, pv5, to_sum st)
    else Ret (v8, pv5, to_sum st)
  else
    (* handle long numbers *)
    if mem w multiplies && negb (mem next_word multiplies)
    then Ret (PInt 0, PInt 0, (to_sum st ++ [v8])%list)
    else Ret (v8, v8, to_sum st).

(** One turn of the [for idx, token in enumerate(tokens)] loop *)
Definition scan_token (short_scale ordinals : bool) (tokens : list _Token)
    (idx : nat) (token : _Token) (st : scan_state) : outcome (flow * scan_state) :=
  let '(multiplies, string_num_ordinal, string_num_scale) :=
    _initialize_number_data short_scale in
  let w := word token in
  if mem w ARTICLES || mem w _NEGATIVES then
    Ret (Continue, mk_scan (number_words st ++ [token])%list
                           (val st) (prev_val st) (to_sum st))
  else
  let prev_word := if (0 <? idx)%nat then word_at tokens (idx - 1) else EmptyString in
  let next_word := word_at tokens (idx + 1) in
  if unknown_word w short_scale ordinals then
    let words_only := map word (number_words st) in
    if negb (Nat.eqb (List.length (number_words st)) 0)
       && negb (forallb (fun x => mem x (ARTICLES ++ _NEGATIVES)%list) words_only)
    then Ret (Break, st)
    else Ret (Continue, mk_scan [] (val st) (prev_val st) (to_sum st))
  else
  let number_words' :=
    if negb (mem w multiplies)
       && negb (mem prev_word multiplies)
       && negb (mem prev_word _SUMS)
       && negb (ordinals && dict_has prev_word string_num_ordinal)
       && negb (mem prev_word _NEGATIVES)
       && negb (mem prev_word ARTICLES)
    then [token]
    else if mem prev_word _SUMS && mem w _SUMS then [token]
    else (number_words st ++ [token])%list in
  '(v, pv, ts) <- token_value short_scale ordinals w prev_word next_word st ;;
  Ret (Go, mk_scan number_words' v pv ts).

Fixpoint scan_loop (short_scale ordinals : bool) (tokens : list _Token)
    (idx : nat) (rest : list _Token) (st : scan_state) : outcome scan_state :=
  match rest with
  | [] => Ret st
  | token :: rest' =>
      '(fl, st') <- scan_token short_scale ordinals tokens idx token st ;;
      match fl with
      | Break => Ret st'
      | _ => scan_loop short_scale ordinals tokens (S idx) rest' st'
      end
  end.

(** The scan and the final [val += sum(to_sum)] *)
Definition scan_tokens (short_scale ordinals : bool) (tokens : list _Token)
    : outcome (pyval * list _Token) :=
  st <- scan_loop short_scale ordinals tokens O tokens
          (mk_scan [] PFalse PNone []) ;;
  if negb (is_PNone (val st)) && negb (Nat.eqb (List.length (to_sum st)) 0) then
    s <- py_sum (to_sum st) ;;
    v <- py_add (val st) s ;;
    Ret (v, number_words st)
  else Ret (val st, number_words st).

Definition placeholder : string := "<placeholder>".

(** The extractors call one another: the fraction and decimal helpers call
    both the single-number scan and the multi-number loop on a part of the
    token list.  The functions of this section take the inner call
    [_extract_number_with_text_en] as [inner]; the knot is tied below. *)
Section Recursion.

Variable inner : list _Token -> bool -> bool -> outcome (pyval * list _Token).

Fixpoint pop_articles (tokens : list _Token) : list _Token :=
  match tokens with
  | t :: tokens' => if mem (word t) ARTICLES then pop_articles tokens' else tokens
  | [] => []
  end.

Definition extract_number_with_text_en_in (text : string)
    (short_scale ordinals : bool)
    : outcome (pyval * string * option Z * option Z) :=
  let tokens := _tokenize text in
  '(number, tokens) <- inner tokens short_scale ordinals ;;
  let tokens := pop_articles tokens in
  let start_index := option_map index (hd_error tokens) in
  let end_index := option_map index (hd_error (rev tokens)) in
  let text := join " " (map word tokens) in
  Ret (number, text, start_index, end_index).

(** The [while True] loop of [extract_numbers_with_text]; every turn
    masks at least one more token, [turns] bounds their number. *)
Fixpoint extract_numbers_loop (turns : nat) (text : string)
    (short_scale ordinals : bool) (results : list _ReplaceableNumber)
    : outcome (list _ReplaceableNumber) :=
  match turns with
  | O => Raise FuelExhausted
  | S turns' =>
      '(number, string, start_index, end_index) <-
        extract_number_with_text_en_in text short_scale ordinals ;;
      if negb (truthy number) then Ret results
      else
        match start_index, end_index with
        | Some s, Some e =>
            let tokens := _tokenize text in
            let words :=
              map (fun t => if negb ((s <=? index t) && (index t <=? e))
                            then word t else placeholder) tokens in
            extract_numbers_loop turns' (join " " words) short_scale ordinals
              (results ++ [mk_ReplaceableNumber number string s e])%list
        | _, _ =>
            (* [None <= t.index]: a number was found, so there are tokens *)
            Raise TypeError
        end
  end.

Definition extract_numbers_with_text_in (text : string)
    (short_scale ordinals : bool) : outcome (list _ReplaceableNumber) :=
  extract_numbers_loop (S (List.length (_tokenize text))) text
    short_scale ordinals [].

Fixpoint _extract_fraction_markers (markers : list string)
    (tokens : list _Token) : outcome (option (pyval * list _Token)) :=
  match markers with
  | [] => Ret None
  | c :: markers' =>
      match _partition_list tokens (fun t => String.eqb (word t) c) with
      | [p0; p1; p2] =>
          let text := join " " (map word p0) in
          numbers <- extract_numbers_with_text_in text true false ;;
          if (1 <? List.length numbers)%nat then Ret None
          else
            (* ensure first is not a fraction and second is a fraction *)
            '(num1, tokens1) <- inner p0 true false ;;
            '(num2, tokens2) <- inner p2 true false ;;
            ok <- (if negb (is_PNone num1) && negb (is_PNone num2) then
                     c1 <- py_ge_const num1 1 ;;
                     if c1 then
                       c2 <- py_gt_const num2 0 ;;
                       if c2 then py_lt_const num2 1 else Ret false
                     else Ret false
                   else Ret false) ;;
            if ok then
              s <- py_add num1 num2 ;;
              Ret (Some (s, (tokens1 ++ p1 ++ tokens2)%list))
            else _extract_fraction_markers markers' tokens
      | _ => _extract_fraction_markers markers' tokens
      end
  end.

Definition _extract_fraction (tokens : list _Token) :=
  _extract_fraction_markers _FRACTION_MARKER tokens.

Fixpoint _extract_decimal_markers (markers : list string)
    (tokens : list _Token) : outcome (option (pyval * list _Token)) :=
  match markers with
  | [] => Ret None
  | c :: markers' =>
      match _partition_list tokens (fun t => String.eqb (word t) c) with
      | [p0; p1; p2] =>
          let text := join " " (map word p0) in
          numbers <- extract_numbers_with_text_in text true false ;;
          if (1 <? List.length numbers)%nat then Ret None
          else
            '(number, tokens1) <- inner p0 true false ;;
            '(decimal, tokens2) <- inner p2 true false ;;
            if negb (is_PNone number) && negb (is_PNone decimal) then
              (* TODO handle number dot number number number *)
              if negb (contains "." (str_of_pyval decimal)) then
                f <- float_of_string ("0." ++ str_of_pyval decimal) ;;
                s <- py_add number (PFloat f) ;;
                Ret (Some (s, (tokens1 ++ p1 ++ tokens2)%list))
              else _extract_decimal_markers markers' tokens
            else _extract_decimal_markers markers' tokens
      | _ => _extract_decimal_markers markers' tokens
      end
  end.

Definition _extract_decimal (tokens : list _Token) :=
  _extract_decimal_markers _DECIMAL_MARKER tokens.

(** [if fraction: return fraction, fraction_text] *)
Definition truthy_result (r : option (pyval * list _Token))
    : option (pyval * list _Token) :=
  match r with
  | Some (v, t) => if truthy v then Some (v, t) else None
  | None => None
  end.

(** The body of [_extract_number_with_text_en] *)
Definition extract_number_body (tokens : list _Token)
    (short_scale ordinals : bool) : outcome (pyval * list _Token) :=
  fraction <- _extract_fraction tokens ;;
  match truthy_result fraction with
  | Some r => Ret r
  | None =>
      decimal <- _extract_decimal tokens ;;
      match truthy_result decimal with
      | Some r => Ret r
      | None => scan_tokens short_scale ordinals tokens
      end
  end.

End Recursion.

(** [_extract_number_with_text_en].  Each nested call is on a shorter token
    list, so a budget of one more than the number of tokens is enough
    (theorem [budget_is_enough] below). *)
Fixpoint _extract_number_with_text_en (budget : nat) (tokens : list _Token)
    (short_scale ordinals : bool) : outcome (pyval * list _Token) :=
  match budget with
  | O => Raise FuelExhausted
  | S budget' =>
      extract_number_body (_extract_number_with_text_en budget')
        tokens short_scale ordinals
  end.

Definition extract_number_tokens (tokens : list _Token)
    (short_scale ordinals : bool) : outcome (pyval * list _Token) :=
  _extract_number_with_text_en (S (List.length tokens)) tokens short_scale ordinals.

Definition extract_number_with_text_en :=
  extract_number_with_text_en_in extract_number_tokens.

Definition extractnumber_en (text : string) (short_scale ordinals : bool)
    : outcome pyval :=
  '(number, _, _, _) <- extract_number_with_text_en text short_scale ordinals ;;
  Ret number.

Definition extract_numbers_with_text :=
  extract_numbers_with_text_in extract_number_tokens.

(** ** The word-to-digit rewriter *)

(** [list.sort(key=...)] is stable; so is this insertion sort. *)
Fixpoint insert_by_start (x : _ReplaceableNumber) (l : list _ReplaceableNumber)
    : list _ReplaceableNumber :=
  match l with
  | [] => [x]
  | y :: l' => if start_index x <=? start_index y then x :: l
               else y :: insert_by_start x l'
  end.

Definition sort_by_start (l : list _ReplaceableNumber) : list _ReplaceableNumber :=
  fold_right insert_by_start [] l.

Fixpoint rewrite_tokens (tokens : list _Token)
    (numbers_to_replace : list _ReplaceableNumber) (results : list string)
    : list string :=
  match tokens with
  | [] => results
  | token :: tokens' =>
      match numbers_to_replace with
      | [] => rewrite_tokens tokens' numbers_to_replace (results ++ [word token])%list
      | n :: others =>
          if index token <? start_index n
          then rewrite_tokens tokens' numbers_to_replace (results ++ [word token])%list
          else
            let results' := if index token =? start_index n
                            then (results ++ [str_of_pyval (value n)])%list
                            else results in
            let numbers' := if index token =? end_index n
                            then others else numbers_to_replace in
            rewrite_tokens tokens' numbers' results'
      end
  end.

Definition convert_words_to_numbers (text : string) (short_scale ordinals : bool)
    : outcome string :=
  let tokens := _tokenize text in
  numbers_to_replace <- extract_numbers_with_text text short_scale ordinals ;;
  let numbers_to_replace := sort_by_start numbers_to_replace in
  Ret (join " " (rewrite_tokens tokens numbers_to_replace [])).

(** ** The duration extractor *)

(** The units and their seconds, in the order the dictionary is written
    in: the loop over [.items()] follows the order of insertion. *)
Definition time_unit_to_seconds_map : list (string * Z) :=
  [ ("second", 1); ("minute", 60); ("hour", 3600); ("day", 86400);
    ("week", 604800) ].

(** A match of the pattern [(?P<value>\d+(?:\.?\d+)?)\s+{unit}s?] that
    starts at the head of [s]: the value matched and the text after the
    match.  The pattern can match in one way only from a given start: the
    number must be followed by white space, so it runs to the end of the
    digits (and of a fraction part, if a dot and digits follow), the white
    space before the unit is taken whole, and the plural s is taken when
    it is there. *)
Definition match_unit_at (unit : string) (s : string) : option (string * string) :=
  let (d1, r1) := span_digits s in
  if nonempty d1 then
    let '(num, r2) :=
      match r1 with
      | String c r =>
          if Ascii.eqb c "." then
            let (d2, r') := span_digits r in
            if nonempty d2 then (d1 ++ "." ++ d2, r') else (d1, r1)
          else (d1, r1)
      | EmptyString => (d1, r1)
      end in
    let r3 := lstrip r2 in
    if (String.length r3 <? String.length r2)%nat && prefix unit r3 then
      let r4 := drop (String.length unit) r3 in
      Some (num, match r4 with
                 | String c r => if Ascii.eqb c "s" then r else r4
                 | EmptyString => r4
                 end)
    else None
  else None.

(** One pass of the regular-expression engine over the text, from the
    left, matches not overlapping: the values matched, which is what
    [re.findall] returns, and the text without the matches, which is what
    [re.sub] with an empty replacement returns. *)
Fixpoint scan_matches (unit : string) (skip : nat) (s : string)
    : list string * string :=
  match s with
  | EmptyString => ([], EmptyString)
  | String c s' =>
      match skip with
      | S k => scan_matches unit k s'
      | O =>
          match match_unit_at unit s with
          | Some (v, rest) =>
              let (vs, out) :=
                scan_matches unit (String.length s - String.length rest - 1) s' in
              (v :: vs, out)
          | None =>
              let (vs, out) := scan_matches unit O s' in
              (vs, String c out)
          end
      end
  end.

Definition re_findall (unit text : string) : list string :=
  fst (scan_matches unit O text).

Definition re_sub (unit text : string) : string :=
  snd (scan_matches unit O text).

Fixpoint map_outcome {A B : Type} (f : A -> outcome B) (l : list A)
    : outcome (list B) :=
  match l with
  | [] => Ret []
  | x :: l' => y <- f x ;; ys <- map_outcome f l' ;; Ret (y :: ys)
  end.

(** The [for unit, value in ...items()] loop: the pieces found so far and
    the text with the matches taken out *)
Fixpoint duration_units (units : list (string * Z)) (text : string)
    (pieces : list pyval) : outcome (list pyval * string) :=
  match units with
  | [] => Ret (pieces, text)
  | (unit, value) :: units' =>
      let matches := re_findall unit text in
      matches <- map_outcome
                   (fun s => f <- float_of_string s ;; py_mul (PFloat f) (PInt value))
                   matches ;;
      duration_units units' (re_sub unit text) (pieces ++ matches)%list
  end.

(** [extract_duration_en]: [None], or the pair of the duration (or [None])
    and the remaining text *)
Definition extract_duration_en (text : string)
    : outcome (option (option pyval * string)) :=
  if negb (nonempty text) then Ret None
  else
    text <- convert_words_to_numbers text true false ;;
    '(pieces, text) <- duration_units time_unit_to_seconds_map text [] ;;
    let text := strip text in
    duration <- py_sum pieces ;;
    Ret (Some (if negb (Nat.eqb (List.length pieces) 0)
               then (Some duration, text) else (None, text))).

(** ** Dates and times

    [datetime.datetime] without a time zone: the fields, the proleptic
    Gregorian calendar, and the additions of [dateutil.relativedelta] that
    the extractor uses. *)

Record datetime : Set := mk_datetime
  { year : Z; month : Z; day : Z;
    hour : Z; minute : Z; second : Z; microsecond : Z }.

(** [datetime.time], of which only the hour and the minute are read *)
Record time : Set := mk_time { t_hour : Z; t_minute : Z }.

Definition isleap (y : Z) : bool :=
  (y mod 4 =? 0) && (negb (y mod 100 =? 0) || (y mod 400 =? 0)).

Definition days_in_month (y m : Z) : Z :=
  if m =? 2 then (if isleap y then 29 else 28)
  else if (m =? 4) || (m =? 6) || (m =? 9) || (m =? 11) then 30
  else 31.

Definition days_before_year (y : Z) : Z :=
  let p := y - 1 in p * 365 + p / 4 - p / 100 + p / 400.

Fixpoint days_before_month_from (y : Z) (m : nat) : Z :=
  match m with
  | O => 0
  | S m' => days_before_month_from y m' + days_in_month y (Z.of_nat m)
  end.

Definition days_before_month (y m : Z) : Z :=
  days_before_month_from y (Z.to_nat (m - 1)).

(** [date.toordinal()]: 1 January of year 1 is day 1 *)
Definition toordinal (y m d : Z) : Z :=
  days_before_year y + days_before_month y m + d.

Fixpoint month_of_day (fuel : nat) (y m n : Z) : Z * Z :=
  match fuel with
  | O => (m, n + 1)
  | S fuel' =>
      let dim := days_in_month y m in
      if n <? dim then (m, n + 1) else month_of_day fuel' y (m + 1) (n - dim)
  end.

(** [date.fromordinal] *)
Definition fromordinal (ord : Z) : Z * Z * Z :=
  let n := ord - 1 in
  let n400 := n / 146097 in
  let n := n mod 146097 in
  let n100 := n / 36524 in
  let n := n mod 36524 in
  let n4 := n / 1461 in
  let n := n mod 1461 in
  let n1 := n / 365 in
  let n := n mod 365 in
  let y := n400 * 400 + 1 + n100 * 100 + n4 * 4 + n1 in
  if (n1 =? 4) || (n100 =? 4) then (y - 1, 12, 31)
  else let (m, d) := month_of_day 12 y 1 n in (y, m, d).

(** [int(d.strftime("%w"))]: the day of the week, Sunday being 0 *)
Definition weekday_w (d : datetime) : Z :=
  toordinal (year d) (month d) (day d) mod 7.

Definition valid_date (y m d : Z) : bool :=
  (1 <=? y) && (y <=? 9999) && (1 <=? m) && (m <=? 12)
  && (1 <=? d) && (d <=? days_in_month y m).

(** [d.replace(year=y, month=m, day=dd)] *)
Definition replace_date (d : datetime) (y m dd : Z) : outcome datetime :=
  if valid_date y m dd
  then Ret (mk_datetime y m dd (hour d) (minute d) (second d) (microsecond d))
  else Raise ValueError.

(** [d.replace(hour=0, minute=0, second=0)] *)
Definition zero_time (d : datetime) : datetime :=
  mk_datetime (year d) (month d) (day d) 0 0 0 (microsecond d).

(** [d.replace(microsecond=0)] *)
Definition zero_microsecond (d : datetime) : datetime :=
  mk_datetime (year d) (month d) (day d) (hour d) (minute d) (second d) 0.

Definition seconds_of (d : datetime) : Z :=
  ((toordinal (year d) (month d) (day d) * 24 + hour d) * 60 + minute d) * 60
  + second d.

(** [d + timedelta(seconds=n)]; out of the years 1 to 9999 it is an
    [OverflowError]. *)
Definition add_seconds (d : datetime) (n : Z) : outcome datetime :=
  let t := seconds_of d + n in
  let ord := t / 86400 in
  let r := t mod 86400 in
  if (1 <=? ord) && (ord <=? 3652059) then
    let '(y, m, dd) := fromordinal ord in
    Ret (mk_datetime y m dd (r / 3600) ((r mod 3600) / 60) (r mod 60)
           (microsecond d))
  else Raise OverflowError.

(** [d + relativedelta(years=ys, months=ms)]: the months are first brought
    within -11 .. 11, the surplus going to the years; the day is cut down
    to the length of the month reached. *)
Definition add_years_months (d : datetime) (ys ms : Z) : outcome datetime :=
  let s := Z.sgn ms in
  let ys := ys + s * (Z.abs ms / 12) in
  let ms := s * (Z.abs ms mod 12) in
  let y := year d + ys in
  let m := month d + ms in
  let '(y, m) := if 12 <? m then (y + 1, m - 12)
                 else if m <? 1 then (y - 1, m + 12) else (y, m) in
  replace_date d y m (Z.min (days_in_month y m) (day d)).

(** [a < b] on datetimes *)
Definition datetime_key (d : datetime) : Z :=
  seconds_of d * 1000000 + microsecond d.

Definition datetime_ltb (a b : datetime) : bool := datetime_key a <? datetime_key b.

(** *** [datetime.strptime] for the two formats used *)

Definition months : list string :=
  ["january"; "february"; "march"; "april"; "may"; "june";
   "july"; "august"; "september"; "october"; "november"; "december"].

Definition monthsShort : list string :=
  ["jan"; "feb"; "mar"; "apr"; "may"; "june"; "july"; "aug";
   "sept"; "oct"; "nov"; "dec"].

Fixpoint parse_month_from (i : Z) (names : list string) (s : string)
    : option (Z * string) :=
  match names with
  | [] => None
  | n :: names' =>
      if prefix n s then Some (i, drop (String.length n) s)
      else parse_month_from (i + 1) names' s
  end.

(** The directive [%d]: [3[0-1]|[1-2]\d|0[1-9]|[1-9]| [1-9]], the first
    alternative that matches *)
Definition parse_day (s : string) : option (Z * string) :=
  let dig c := isdigit_c c in
  let v c := digit_val c in
  match s with
  | String a (String b r) =>
      if Ascii.eqb a "3" && (Ascii.eqb b "0" || Ascii.eqb b "1")
      then Some (30 + v b, r)
      else if (Ascii.eqb a "1" || Ascii.eqb a "2") && dig b
      then Some (10 * v a + v b, r)
      else if Ascii.eqb a "0" && dig b && negb (Ascii.eqb b "0")
      then Some (v b, r)
      else if dig a && negb (Ascii.eqb a "0") then Some (v a, String b r)
      else if Ascii.eqb a " " && dig b && negb (Ascii.eqb b "0")
      then Some (v b, r)
      else None
  | String a EmptyString =>
      if dig a && negb (Ascii.eqb a "0") then Some (v a, EmptyString) else None
  | EmptyString => None
  end.

(** White space in a format stands for [\s+]. *)
Definition skip_spaces1 (s : string) : option string :=
  match s with
  | String c _ => if isspace_c c then Some (lstrip s) else None
  | EmptyString => None
  end.

Definition make_date (y m d : Z) : outcome datetime :=
  if valid_date y m d then Ret (mk_datetime y m d 0 0 0 0) else Raise ValueError.

(** [datetime.strptime(s, "%B %d")]; the year is 1900 *)
Definition strptime_Bd (s : string) : outcome datetime :=
  match parse_month_from 1 months s with
  | Some (m, r) =>
      match skip_spaces1 r with
      | Some r =>
          match parse_day r with
          | Some (d, EmptyString) => make_date 1900 m d
          | _ => Raise ValueError
          end
      | None => Raise ValueError
      end
  | None => Raise ValueError
  end.

(** [datetime.strptime(s, "%B %d %Y")] *)
Definition strptime_BdY (s : string) : outcome datetime :=
  match parse_month_from 1 months s with
  | Some (m, r) =>
      match skip_spaces1 r with
      | Some r =>
          match parse_day r with
          | Some (d, r) =>
              match skip_spaces1 r with
              | Some r =>
                  if (String.length r =? 4)%nat && isdigit r
                  then make_date (digits_val 0 r) m d
                  else Raise ValueError
              | None => Raise ValueError
              end
          | None => Raise ValueError
          end
      | None => Raise ValueError
      end
  | None => Raise ValueError
  end.

(** [try: strptime(s, "%B %d") except ValueError: strptime(s, "%B %d %Y")] *)
Definition parse_datestr (s : string) : outcome datetime :=
  match strptime_Bd s with
  | Ret t => Ret t
  | Raise ValueError => strptime_BdY s
  | Raise e => Raise e
  end.

(** ** Python lists of words *)

(** [l[i]] with Python's indexing: a negative index counts from the end *)
Definition get_py (l : list string) (i : Z) : outcome string :=
  let n := Z.of_nat (List.length l) in
  let j := if i <? 0 then i + n else i in
  if (0 <=? j) && (j <? n) then Ret (nth (Z.to_nat j) l EmptyString)
  else Raise IndexError.

Fixpoint set_nth (l : list string) (n : nat) (v : string) : list string :=
  match l, n with
  | [], _ => []
  | _ :: l', O => v :: l'
  | x :: l', S n' => x :: set_nth l' n' v
  end.

(** [l[i] = v] *)
Definition set_py (l : list string) (i : Z) (v : string) : outcome (list string) :=
  let n := Z.of_nat (List.length l) in
  let j := if i <? 0 then i + n else i in
  if (0 <=? j) && (j <? n) then Ret (set_nth l (Z.to_nat j) v)
  else Raise IndexError.

(** [l[i] if 0 <= i < len(l) else ""], the guarded look-behind and
    look-ahead of the sweeps *)
Definition word_or_empty (l : list string) (i : Z) : string :=
  if (0 <=? i) && (i <? Z.of_nat (List.length l))
  then nth (Z.to_nat i) l EmptyString else EmptyString.

(** [for i in range(0, used): words[i + start] = ""] *)
Fixpoint blank_range (l : list string) (start : Z) (i : Z) (count : nat)
    : outcome (list string) :=
  match count with
  | O => Ret l
  | S count' =>
      l' <- set_py l (i + start) EmptyString ;;
      blank_range l' start (i + 1) count'
  end.

(** [int(v)]: a float is cut towards zero *)
Definition py_int (v : pyval) : outcome Z :=
  match v with
  | PFalse => Ret 0
  | PNone => Raise TypeError
  | PInt z => Ret z
  | PFloat f =>
      if PrimFloat.is_nan f then Raise ValueError
      else if PrimFloat.is_infinity f then Raise OverflowError
      else
        let (p, q) := float_fraction f in
        Ret (if PrimFloat.get_sign f then - (p / q) else p / q)
  end.

(** ** The date-time extractor *)

(** The variables of [extract_datetime_en] that the two sweeps share.
    [dayOffset] starts as [False] in the source; it is used there only in
    arithmetic and in comparisons, where [False] is 0, and is set to 0 when
    it is still [False] after the sweeps, so it is an integer here.
    [hrAbs] and [minAbs] are [None], -1 or a clock value. *)
Record ctx : Set := mk_ctx
  { found : bool;
    daySpecified : bool;
    dayOffset : Z;
    monthOffset : Z;
    yearOffset : Z;
    fromFlag : bool;
    datestr : string;
    hasYear : bool;
    timeQualifier : string;
    words : list string;
    hrOffset : Z;
    minOffset : Z;
    secOffset : Z;
    hrAbs : option Z;
    minAbs : option Z;
    military : bool }.

Definition set_found v c := mk_ctx v (daySpecified c) (dayOffset c) (monthOffset c) (yearOffset c) (fromFlag c) (datestr c) (hasYear c) (timeQualifier c) (words c) (hrOffset c) (minOffset c) (secOffset c) (hrAbs c) (minAbs c) (military c).
Definition set_daySpecified v c := mk_ctx (found c) v (dayOffset c) (monthOffset c) (yearOffset c) (fromFlag c) (datestr c) (hasYear c) (timeQualifier c) (words c) (hrOffset c) (minOffset c) (secOffset c) (hrAbs c) (minAbs c) (military c).
Definition set_dayOffset v c := mk_ctx (found c) (daySpecified c) v (monthOffset c) (yearOffset c) (fromFlag c) (datestr c) (hasYear c) (timeQualifier c) (words c) (hrOffset c) (minOffset c) (secOffset c) (hrAbs c) (minAbs c) (military c).
Definition set_monthOffset v c := mk_ctx (found c) (daySpecified c) (dayOffset c) v (yearOffset c) (fromFlag c) (datestr c) (hasYear c) (timeQualifier c) (words c) (hrOffset c) (minOffset c) (secOffset c) (hrAbs c) (minAbs c) (military c).
Definition set_yearOffset v c := mk_ctx (found c) (daySpecified c) (dayOffset c) (monthOffset c) v (fromFlag c) (datestr c) (hasYear c) (timeQualifier c) (words c) (hrOffset c) (minOffset c) (secOffset c) (hrAbs c) (minAbs c) (military c).
Definition set_fromFlag v c := mk_ctx (found c) (daySpecified c) (dayOffset c) (monthOffset c) (yearOffset c) v (datestr c) (hasYear c) (timeQualifier c) (words c) (hrOffset c) (minOffset c) (secOffset c) (hrAbs c) (minAbs c) (military c).
Definition set_datestr v c := mk_ctx (found c) (daySpecified c) (dayOffset c) (monthOffset c) (yearOffset c) (fromFlag c) v (hasYear c) (timeQualifier c) (words c) (hrOffset c) (minOffset c) (secOffset c) (hrAbs c) (minAbs c) (military c).
Definition set_hasYear v c := mk_ctx (found c) (daySpecified c) (dayOffset c) (monthOffset c) (yearOffset c) (fromFlag c) (datestr c) v (timeQualifier c) (words c) (hrOffset c) (minOffset c) (secOffset c) (hrAbs c) (minAbs c) (military c).
Definition set_timeQualifier v c := mk_ctx (found c) (daySpecified c) (dayOffset c) (monthOffset c) (yearOffset c) (fromFlag c) (datestr c) (hasYear c) v (words c) (hrOffset c) (minOffset c) (secOffset c) (hrAbs c) (minAbs c) (military c).
Definition set_words v c := mk_ctx (found c) (daySpecified c) (dayOffset c) (monthOffset c) (yearOffset c) (fromFlag c) (datestr c) (hasYear c) (timeQualifier c) v (hrOffset c) (minOffset c) (secOffset c) (hrAbs c) (minAbs c) (military c).
Definition set_hrOffset v c := mk_ctx (found c) (daySpecified c) (dayOffset c) (monthOffset c) (yearOffset c) (fromFlag c) (datestr c) (hasYear c) (timeQualifier c) (words c) v (minOffset c) (secOffset c) (hrAbs c) (minAbs c) (military c).
Definition set_minOffset v c := mk_ctx (found c) (daySpecified c) (dayOffset c) (monthOffset c) (yearOffset c) (fromFlag c) (datestr c) (hasYear c) (timeQualifier c) (words c) (hrOffset c) v (secOffset c) (hrAbs c) (minAbs c) (military c).
Definition set_secOffset v c := mk_ctx (found c) (daySpecified c) (dayOffset c) (monthOffset c) (yearOffset c) (fromFlag c) (datestr c) (hasYear c) (timeQualifier c) (words c) (hrOffset c) (minOffset c) v (hrAbs c) (minAbs c) (military c).
Definition set_hrAbs v c := mk_ctx (found c) (daySpecified c) (dayOffset c) (monthOffset c) (yearOffset c) (fromFlag c) (datestr c) (hasYear c) (timeQualifier c) (words c) (hrOffset c) (minOffset c) (secOffset c) v (minAbs c) (military c).
Definition set_minAbs v c := mk_ctx (found c) (daySpecified c) (dayOffset c) (monthOffset c) (yearOffset c) (fromFlag c) (datestr c) (hasYear c) (timeQualifier c) (words c) (hrOffset c) (minOffset c) (secOffset c) (hrAbs c) v (military c).
Definition set_military v c := mk_ctx (found c) (daySpecified c) (dayOffset c) (monthOffset c) (yearOffset c) (fromFlag c) (datestr c) (hasYear c) (timeQualifier c) (words c) (hrOffset c) (minOffset c) (secOffset c) (hrAbs c) (minAbs c) v.

Definition timeQualifiersAM : list string := ["morning"].
Definition timeQualifiersPM : list string := ["afternoon"; "evening"; "tonight"; "night"].
Definition timeQualifiersList : list string := (timeQualifiersAM ++ timeQualifiersPM)%list.
Definition markers : list string :=
  ["at"; "in"; "on"; "by"; "this"; "around"; "for"; "of"; "within"].
Definition days : list string :=
  ["monday"; "tuesday"; "wednesday"; "thursday"; "friday"; "saturday"; "sunday"].
Definition year_multiples : list string := ["decade"; "century"; "millennium"].
Definition day_multiples : list string := ["weeks"; "months"; "years"].

(** [clean_string]: the chain of replacements, then the per-word clean-up.
    [word[0]] raises when removing "'s" left nothing of the word. *)
Definition clean_word (w : string) : outcome string :=
  let w := replace "'s" "" w in
  d <- first_isdigit w ;;
  if d then
    Ret (fold_left
           (fun w ordinal =>
              (* "second" is the only case we should not do this *)
              if contains ordinal w && negb (contains "second" w)
              then replace ordinal "" w else w)
           ["rd"; "st"; "nd"; "th"] w)
  else Ret w.

Definition clean_string (s : string) : outcome (list string) :=
  let s := lower s in
  let s := replace "?" "" s in
  let s := replace "." "" s in
  let s := replace "," "" s in
  let s := replace " the " " " s in
  let s := replace " a " " " s in
  let s := replace " an " " " s in
  let s := replace "o' clock" "o'clock" s in
  let s := replace "o clock" "o'clock" s in
  let s := replace "o ' clock" "o'clock" s in
  let s := replace "o 'clock" "o'clock" s in
  let s := replace "oclock" "o'clock" s in
  let s := replace "couple" "2" s in
  let s := replace "centuries" "century" s in
  let s := replace "decades" "decade" s in
  let s := replace "millenniums" "millennium" s in
  map_outcome clean_word (split s).

(** The inner function [date_found] of the source.  ([dayOffset is True]
    is false throughout: [dayOffset] is [False] or an integer.) *)
Definition date_found (c : ctx) : bool :=
  found c
  || (nonempty (datestr c)
      || negb (yearOffset c =? 0) || negb (monthOffset c =? 0)
      || false || negb (hrOffset c =? 0)
      || match hrAbs c with Some h => negb (h =? 0) | None => false end
      || negb (minOffset c =? 0)
      || match minAbs c with Some m => negb (m =? 0) | None => false end
      || negb (secOffset c =? 0)).

Definition pos_of (w : string) (l : list string) : Z :=
  match index_of w l with Some n => Z.of_nat n | None => 0 end.

(** The offset in years that a word of [year_multiples] stands for *)
Definition year_multiple (w : string) (multiplier : Z) (old : Z) : Z :=
  if String.eqb w "decade" then multiplier * 10
  else if String.eqb w "century" then multiplier * 100
  else if String.eqb w "millennium" then multiplier * 1000
  else old.

(** [N <unit>], [next <unit>], [last <unit>] for week, month and year:
    the new offset, [start] and [used] *)
Definition counted_unit (wordPrev : string) (old per : Z) (accumulate : bool)
    (start used : Z) : outcome (Z * Z * Z) :=
  d <- first_isdigit wordPrev ;;
  if d then
    n <- int_of_string wordPrev ;;
    Ret ((if accumulate then old + n * per else n * per), start - 1, 2)
  else if String.eqb wordPrev "next" then Ret (per, start - 1, 2)
  else if String.eqb wordPrev "last" then Ret (- per, start - 1, 2)
  else Ret (old, start, used).

(** The day offset of a weekday name, [d] being its place in [days] *)
Definition weekday_branch (today : Z) (w wordPrev : string) (start : Z)
    : Z * Z * Z :=
  let d := pos_of w days in
  let dayOffset := (d + 1) - today in
  let used := 1 in
  let dayOffset := if dayOffset <? 0 then dayOffset + 7 else dayOffset in
  if String.eqb wordPrev "next" then (dayOffset + 7, start - 1, used + 1)
  else if String.eqb wordPrev "last" then (dayOffset - 7, start - 1, used + 1)
  else (dayOffset, start, used).

(** The month branch: "15 of July", "June 20th", "Feb 18", ... *)
Definition month_branch (w wordPrevPrev wordPrev wordNext wordNextNext : string)
    (idx : Z) (c : ctx) (start used : Z) : outcome (ctx * Z * Z) :=
  let m := match index_of w months with
           | Some n => n
           | None => match index_of w monthsShort with Some n => n | None => O end
           end in
  let used := used + 1 in
  let ds := nth m months EmptyString in
  prev_digit <- (if nonempty wordPrev then
                   d <- first_isdigit wordPrev ;;
                   if d then Ret true
                   else if String.eqb wordPrev "of"
                        then first_isdigit wordPrevPrev else Ret false
                 else Ret false) ;;
  if prev_digit then
    of_form <- (if String.eqb wordPrev "of"
                then first_isdigit wordPrevPrev else Ret false) ;;
    '(ds, used, start) <-
       (if of_form then
          w2 <- get_py (words c) (idx - 2) ;;
          Ret (ds ++ " " ++ w2, used + 1, start - 1)
        else Ret (ds ++ " " ++ wordPrev, used, start)) ;;
    let start := start - 1 in
    let used := used + 1 in
    next_digit <- (if nonempty wordNext then first_isdigit wordNext else Ret false) ;;
    if next_digit
    then Ret (set_hasYear true (set_datestr (ds ++ " " ++ wordNext) c), start, used + 1)
    else Ret (set_hasYear false (set_datestr ds c), start, used)
  else
    next_digit <- (if nonempty wordNext then first_isdigit wordNext else Ret false) ;;
    if next_digit then
      let ds := ds ++ " " ++ wordNext in
      let used := used + 1 in
      nn_digit <- (if nonempty wordNextNext then first_isdigit wordNextNext
                   else Ret false) ;;
      if nn_digit
      then Ret (set_hasYear true (set_datestr (ds ++ " " ++ wordNextNext) c),
                start, used + 1)
      else Ret (set_hasYear false (set_datestr ds c), start, used)
    else Ret (set_datestr ds c, start, used).

(** The [if ... elif ...] chain of the date sweep for the word at [idx]:
    either the early return of "now", or the context with [start] and
    [used]. *)
Definition date_branch (dateNow : datetime) (idx : Z) (w : string) (c : ctx)
    : outcome ((datetime * string) + (ctx * Z * Z)) :=
  let ws := words c in
  let wordPrevPrev := word_or_empty ws (idx - 2) in
  let wordPrev := word_or_empty ws (idx - 1) in
  let wordNext := word_or_empty ws (idx + 1) in
  let wordNextNext := word_or_empty ws (idx + 2) in
  let today := weekday_w dateNow in
  let start := idx in
  let used := 0 in
  if String.eqb w "now" && negb (nonempty (datestr c)) then
    let resultStr := join " " (skipn (Z.to_nat (idx + 1)) ws) in
    let resultStr := join " " (split resultStr) in
    Ret (inl (zero_microsecond dateNow, resultStr))
  else if mem wordNext year_multiples then
    multiplier <- (if is_numeric w then extractnumber_en w true false
                   else Ret PNone) ;;
    multiplier <- py_int (if truthy multiplier then multiplier else PInt 1) ;;
    Ret (inr (set_yearOffset (year_multiple wordNext multiplier (yearOffset c)) c,
              start, used + 2))
  (* couple of *)
  else if String.eqb w "2" && String.eqb wordNext "of"
          && mem wordNextNext year_multiples then
    Ret (inr (set_yearOffset (year_multiple wordNextNext 2 (yearOffset c)) c,
              start, used + 3))
  else if String.eqb w "2" && String.eqb wordNext "of"
          && mem wordNextNext day_multiples then
    let c := if String.eqb wordNextNext "years" then set_yearOffset 2 c
             else if String.eqb wordNextNext "months" then set_monthOffset 2 c
             else if String.eqb wordNextNext "weeks" then set_dayOffset (2 * 7) c
             else c in
    Ret (inr (c, start, used + 3))
  else if mem w timeQualifiersList then
    Ret (inr (set_timeQualifier w c, start, used))
  (* parse today, tomorrow, day after tomorrow *)
  else if String.eqb w "today" && negb (fromFlag c) then
    Ret (inr (set_dayOffset 0 c, start, used + 1))
  else if String.eqb w "tomorrow" && negb (fromFlag c) then
    Ret (inr (set_dayOffset 1 c, start, used + 1))
  else
  after <- (if String.eqb w "day" && String.eqb wordNext "after"
               && String.eqb wordNextNext "tomorrow" && negb (fromFlag c)
            then d <- first_isdigit wordPrev ;; Ret (negb d)
            else Ret false) ;;
  if after then
    if String.eqb wordPrev "the"
    then Ret (inr (set_dayOffset 2 c, start - 1, 3 + 1))
    else Ret (inr (set_dayOffset 2 c, start, 3))
  (* parse 5 days, 10 weeks, last week, next week *)
  else if String.eqb w "day" then
    d <- first_isdigit wordPrev ;;
    if d then
      n <- int_of_string wordPrev ;;
      Ret (inr (set_dayOffset (dayOffset c + n) c, start - 1, 2))
    else Ret (inr (c, start, used))
  else if String.eqb w "week" && negb (fromFlag c) then
    '(v, start, used) <- counted_unit wordPrev (dayOffset c) 7 true start used ;;
    Ret (inr (set_dayOffset v c, start, used))
  (* parse 10 months, next month, last month *)
  else if String.eqb w "month" && negb (fromFlag c) then
    '(v, start, used) <- counted_unit wordPrev (monthOffset c) 1 false start used ;;
    Ret (inr (set_monthOffset v c, start, used))
  (* parse 5 years, next year, last year *)
  else if String.eqb w "year" && negb (fromFlag c) then
    '(v, start, used) <- counted_unit wordPrev (yearOffset c) 1 false start used ;;
    Ret (inr (set_yearOffset v c, start, used))
  (* parse Monday, Tuesday, etc., and next Monday, last Tuesday, etc. *)
  else if mem w days && negb (fromFlag c) then
    let '(v, start, used) := weekday_branch today w wordPrev start in
    Ret (inr (set_dayOffset v c, start, used))
  (* parse 15 of July, June 20th, Feb 18, 19 of February *)
  else if mem w months || (mem w monthsShort && negb (fromFlag c)) then
    r <- month_branch w wordPrevPrev wordPrev wordNext wordNextNext idx c start used ;;
    Ret (inr r)
  else Ret (inr (c, start, used)).

(** "5 days from tomorrow", "10 weeks from next thursday", "2 months from
    July": the block after the chain *)
Definition date_followup (dateNow : datetime) (idx : Z) (w : string)
    (c : ctx) (start used : Z) : ctx * Z * Z :=
  let ws := words c in
  let wordNext := word_or_empty ws (idx + 1) in
  let wordNextNext := word_or_empty ws (idx + 2) in
  let today := weekday_w dateNow in
  let validFollowups :=
    (days ++ months ++ monthsShort ++ ["today"; "tomorrow"; "next"; "last"; "now"])%list in
  if (String.eqb w "from" || String.eqb w "after") && mem wordNext validFollowups then
    let used := 2 in
    let c := set_fromFlag true c in
    if String.eqb wordNext "tomorrow" then (set_dayOffset (dayOffset c + 1) c, start, used)
    else if mem wordNext days then
      let d := pos_of wordNext days in
      let tmpOffset := (d + 1) - today in
      let used := 2 in
      let tmpOffset := if tmpOffset <? 0 then tmpOffset + 7 else tmpOffset in
      (set_dayOffset (dayOffset c + tmpOffset) c, start, used)
    else if nonempty wordNextNext && mem wordNextNext days then
      let d := pos_of wordNextNext days in
      let tmpOffset := (d + 1) - today in
      let used := 3 in
      let '(tmpOffset, used, start) :=
        if String.eqb wordNext "next" then (tmpOffset + 7, used + 1, start - 1)
        else if String.eqb wordNext "last" then (tmpOffset - 7, used + 1, start - 1)
        else (tmpOffset, used, start) in
      (set_dayOffset (dayOffset c + tmpOffset) c, start, used)
    else (c, start, used)
  else (c, start, used).

(** [if used > 0:] of the date sweep: blank the words used *)
Definition date_consume (c : ctx) (start used : Z) : outcome ctx :=
  if 0 <? used then
    this <- (if 0 <? start - 1 then
               w <- get_py (words c) (start - 1) ;; Ret (String.eqb w "this")
             else Ret false) ;;
    let '(start, used) := if this then (start - 1, used + 1) else (start, used) in
    ws <- blank_range (words c) start 0 (Z.to_nat used) ;;
    ws <- (if 0 <=? start - 1 then
             w <- get_py ws (start - 1) ;;
             if mem w markers then set_py ws (start - 1) EmptyString else Ret ws
           else Ret ws) ;;
    Ret (set_daySpecified true (set_found true (set_words ws c)))
  else Ret c.

(** One turn of the date sweep *)
Definition date_word (dateNow : datetime) (idx : Z) (c : ctx)
    : outcome ((datetime * string) + ctx) :=
  let w := word_or_empty (words c) idx in
  if negb (nonempty w) then Ret (inr c)
  else
    (* this isn't in clean string because I don't want to save back to words *)
    let w := rstrip_s w in
    r <- date_branch dateNow idx w c ;;
    match r with
    | inl result => Ret (inl result)
    | inr (c, start, used) =>
        let '(c, start, used) := date_followup dateNow idx w c start used in
        c <- date_consume c start used ;;
        Ret (inr c)
    end.

Fixpoint date_sweep (dateNow : datetime) (idx : Z) (turns : nat) (c : ctx)
    : outcome ((datetime * string) + ctx) :=
  match turns with
  | O => Ret (inr c)
  | S turns' =>
      r <- date_word dateNow idx c ;;
      match r with
      | inl result => Ret (inl result)
      | inr c => date_sweep dateNow (idx + 1) turns' c
      end
  end.

(** *** The time sweep *)

(** The local variables of the digit-leading case *)
Record tparse : Set := mk_tparse
  { isTime : bool;
    strHH : string;
    strMM : string;
    remainder : string;
    used : Z }.

(** The three-stage scan of a word with a colon.  The character that ends
    a stage is itself passed over: the source steps its loop variable back,
    which a [for] over a [range] undoes. *)
Fixpoint colon_scan (stage : nat) (hh mm : string) (s : string)
    : string * string * string :=
  match s with
  | EmptyString => (hh, mm, EmptyString)
  | String ch s' =>
      match stage with
      | O => if isdigit_c ch then colon_scan O (hh ++ String ch EmptyString) mm s'
             else if Ascii.eqb ch ":" then colon_scan 1 hh mm s'
             else colon_scan 2 hh mm s'
      | S O => if isdigit_c ch then colon_scan 1 hh (mm ++ String ch EmptyString) s'
               else colon_scan 2 hh mm s'
      | _ => (hh, mm, replace "." "" s)
      end
  end.

Definition int_or_zero (s : string) : outcome Z :=
  if nonempty s then int_of_string s else Ret 0.

(** The last [else] of the colon case: a time qualifier saved by the date
    sweep marks the time as military and, for an hour up to 12 in the
    afternoon or evening, appends the hour plus 12 to the hour string. *)
Definition colon_qualifier (c : ctx) (p : tparse) : outcome (ctx * tparse) :=
  if nonempty (timeQualifier c) then
    let c := set_military true c in
    if nonempty (strHH p) then
      h <- int_of_string (strHH p) ;;
      if (h <=? 12) && mem (timeQualifier c) timeQualifiersPM
      then Ret (c, mk_tparse (isTime p) (strHH p ++ str_of_Z (h + 12))
                     (strMM p) (remainder p) (used p))
      else Ret (c, p)
    else Ret (c, p)
  else Ret (c, p).

Definition with_remainder (r : string) (u : Z) (p : tparse) : tparse :=
  mk_tparse (isTime p) (strHH p) (strMM p) r u.

(** "3:00 in the morning": the colon case *)
Definition colon_time (idx : Z) (w wordNext wordNextNext : string) (c : ctx)
    : outcome (ctx * tparse) :=
  let '(hh, mm, rem) := colon_scan O EmptyString EmptyString w in
  let p := mk_tparse true hh mm rem 0 in
  if negb (nonempty rem) then
    let nextWord := replace "." "" wordNext in
    if String.eqb nextWord "am" || String.eqb nextWord "pm"
    then Ret (c, with_remainder nextWord (used p + 1) p)
    else if String.eqb nextWord "tonight"
    then Ret (c, with_remainder "pm" (used p + 1) p)
    else if String.eqb wordNext "in" && String.eqb wordNextNext "the" then
      w3 <- get_py (words c) (idx + 3) ;;
      if String.eqb w3 "morning" then Ret (c, with_remainder "am" (used p + 3) p)
      else if String.eqb w3 "afternoon" then Ret (c, with_remainder "pm" (used p + 3) p)
      else if String.eqb w3 "evening" then Ret (c, with_remainder "pm" (used p + 3) p)
      else colon_qualifier c p
    else if String.eqb wordNext "in" && String.eqb wordNextNext "morning"
    then Ret (c, with_remainder "am" (used p + 2) p)
    else if String.eqb wordNext "in" && String.eqb wordNextNext "afternoon"
    then Ret (c, with_remainder "pm" (used p + 2) p)
    else if String.eqb wordNext "in" && String.eqb wordNextNext "evening"
    then Ret (c, with_remainder "pm" (used p + 2) p)
    else if String.eqb wordNext "this" && String.eqb wordNextNext "morning"
    then Ret (set_daySpecified true c, with_remainder "am" 2 p)
    else if String.eqb wordNext "this" && String.eqb wordNextNext "afternoon"
    then Ret (set_daySpecified true c, with_remainder "pm" 2 p)
    else if String.eqb wordNext "this" && String.eqb wordNextNext "evening"
    then Ret (set_daySpecified true c, with_remainder "pm" 2 p)
    else if String.eqb wordNext "at" && String.eqb wordNextNext "night" then
      late <- (if nonempty hh then h <- int_of_string hh ;; Ret (5 <? h)
               else Ret false) ;;
      Ret (c, with_remainder (if late then "pm" else "am") (used p + 2) p)
    else colon_qualifier c p
  else Ret (c, p).

Fixpoint str_filter (f : ascii -> bool) (s : string) : string :=
  match s with
  | EmptyString => EmptyString
  | String ch s' => if f ch then String ch (str_filter f s') else str_filter f s'
  end.

Definition is_hours (s : string) : bool := String.eqb s "hours" || String.eqb s "hour".
Definition is_minutes (s : string) : bool := String.eqb s "minutes" || String.eqb s "minute".
Definition is_seconds (s : string) : bool := String.eqb s "seconds" || String.eqb s "second".

Definition invalidate_anchors (c : ctx) : ctx :=
  set_minAbs (Some (-1)) (set_hrAbs (Some (-1)) c).

(** "5 hours", "10 minutes", "0800 hours", "3 o'clock": the case of a
    number without a colon *)
Definition plain_time (idx : Z) (w wordPrev wordNext wordNextNext : string)
    (c : ctx) : outcome (ctx * tparse) :=
  let strNum := str_filter isdigit_c w in
  let rem := str_filter (fun ch => negb (isdigit_c ch)) w in
  let rem := if negb (nonempty rem)
             then rstrip (lstrip (replace "." "" wordNext)) else rem in
  if String.eqb rem "pm" || String.eqb wordNext "pm"
     || String.eqb rem "p.m." || String.eqb wordNext "p.m."
  then Ret (c, mk_tparse true strNum EmptyString "pm" 1)
  else if String.eqb rem "am" || String.eqb wordNext "am"
          || String.eqb rem "a.m." || String.eqb wordNext "a.m."
  then Ret (c, mk_tparse true strNum EmptyString "am" 1)
  else
    n <- int_of_string strNum ;;
    w0 <- first_char w ;;
    if (100 <? n) && (String.eqb wordPrev "o" || String.eqb wordPrev "oh") then
      (* 0800 hours (pronounced oh-eight-hundred) *)
      Ret (set_military true c,
           mk_tparse true (str_of_Z (n / 100)) (str_of_Z (n mod 100)) rem
             (if String.eqb wordNext "hours" then 1 else 0))
    else if (is_hours wordNext || is_hours rem)
            && negb (Ascii.eqb w0 "0") && ((n <? 100) || (2400 <? n)) then
      (* ignores military time: "in 3 hours" *)
      Ret (invalidate_anchors (set_hrOffset n c),
           mk_tparse false EmptyString EmptyString rem 2)
    else if is_minutes wordNext || is_minutes rem then
      (* "in 10 minutes" *)
      Ret (invalidate_anchors (set_minOffset n c),
           mk_tparse false EmptyString EmptyString rem 2)
    else if is_seconds wordNext || is_seconds rem then
      (* in 5 seconds *)
      Ret (invalidate_anchors (set_secOffset n c),
           mk_tparse false EmptyString EmptyString rem 2)
    else if 100 <? n then
      (* military time, eg. "3300 hours" *)
      Ret (set_military true c,
           mk_tparse true (str_of_Z (n / 100)) (str_of_Z (n mod 100)) rem
             (if is_hours wordNext || is_hours rem then 1 else 0))
    else
    next_digit <- (if nonempty wordNext then first_isdigit wordNext else Ret false) ;;
    if next_digit then
      (* military time, e.g. "04 38 hours" *)
      Ret (set_military true c,
           mk_tparse true strNum wordNext rem
             (if is_hours wordNextNext || is_hours rem then 1 + 1 else 1))
    else if negb (nonempty wordNext) || String.eqb wordNext "o'clock"
            || (String.eqb wordNext "in"
                && (String.eqb wordNextNext "the"
                    || String.eqb wordNextNext (timeQualifier c))) then
      let u := if String.eqb wordNext "o'clock" then 1 else 0 in
      let '(rem, u) :=
        if String.eqb wordNext "in" || String.eqb wordNextNext "in" then
          let u := u + (if String.eqb wordNext "in" then 1 else 2) in
          let wordNextNextNext := word_or_empty (words c) (idx + 3) in
          if nonempty wordNextNext
             && (contains wordNextNext (timeQualifier c)
                 || contains wordNextNextNext (timeQualifier c)) then
            let '(rem, u) :=
              if mem wordNextNext timeQualifiersPM
                 || mem wordNextNextNext timeQualifiersPM
              then ("pm", u + 1) else (rem, u) in
            if mem wordNextNext timeQualifiersAM
               || mem wordNextNextNext timeQualifiersAM
            then ("am", u + 1) else (rem, u)
          else (rem, u)
        else (rem, u) in
      if nonempty (timeQualifier c)
      then (* TODO: Unsure if this is 100% accurate *)
           Ret (set_military true c, mk_tparse true strNum "00" rem (u + 1))
      else Ret (c, mk_tparse true strNum "00" rem u)
    else Ret (c, mk_tparse false EmptyString EmptyString rem 0).

(** [HH] and [MM] from the strings, with the correction for am and pm *)
Definition clock_values (p : tparse) : outcome (Z * Z) :=
  HH <- int_or_zero (strHH p) ;;
  MM <- int_or_zero (strMM p) ;;
  let HH := if String.eqb (remainder p) "pm" && (HH <? 12) then HH + 12 else HH in
  let HH := if String.eqb (remainder p) "am" && (12 <=? HH) then HH - 12 else HH in
  Ret (HH, MM).

(** The ambiguous time: whether this evening or the next morning is meant
    is decided by whether the hour has already passed.  The result is the
    hour and the day offset. *)
Definition ambiguous_time (dateNow : datetime) (c : ctx) (rem : string) (HH : Z)
    : Z * Z :=
  if negb (military c)
     && negb (mem rem ["am"; "pm"; "hours"; "minutes"; "second"; "seconds";
                       "hour"; "minute"])
     && (negb (daySpecified c) || (dayOffset c <? 1))
  then
    if hour dateNow <? HH then (HH, dayOffset c) (* No modification needed *)
    else if hour dateNow <? HH + 12 then (HH + 12, dayOffset c)
    else (* has passed, assume the next morning *) (HH, dayOffset c + 1)
  else (HH, dayOffset c).

(** The validity check and the setting of the anchors *)
Definition finish_clock (HH MM : Z) (c : ctx) (p : tparse) : ctx * tparse :=
  let p := if (24 <? HH) || (59 <? MM)
           then mk_tparse false (strHH p) (strMM p) (remainder p) 0 else p in
  if isTime p
  then (set_minAbs (Some MM) (set_hrAbs (Some HH) c),
        mk_tparse (isTime p) (strHH p) (strMM p) (remainder p) (used p + 1))
  else (c, p).

(** The hour, the minute and the day offset as they stand when the
    validity check is reached *)
Definition checked_clock (dateNow : datetime) (c : ctx) (p : tparse)
    : outcome (Z * Z * Z) :=
  '(HH, MM) <- clock_values p ;;
  let '(HH, dOff) := ambiguous_time dateNow c (remainder p) HH in
  let HH := if mem (timeQualifier c) timeQualifiersPM && (HH <? 12)
            then HH + 12 else HH in
  Ret (HH, MM, dOff).

(** From the strings of the parse to the anchors *)
Definition digit_resolve (dateNow : datetime) (c : ctx) (p : tparse)
    : outcome (ctx * tparse) :=
  '(HH, MM, dOff) <- checked_clock dateNow c p ;;
  Ret (finish_clock HH MM (set_dayOffset dOff c) p).

(** The digit-leading case as a whole *)
Definition digit_time (dateNow : datetime) (idx : Z)
    (w wordPrev wordNext wordNextNext : string) (c : ctx)
    : outcome (ctx * tparse) :=
  '(c, p) <- (if contains ":" w then colon_time idx w wordNext wordNextNext c
              else plain_time idx w wordPrev wordNext wordNextNext c) ;;
  digit_resolve dateNow c p.

(** [for i in range(used): if idx + i >= len(words): break; words[idx + i] = ""] *)
Fixpoint blank_used (l : list string) (idx : Z) (i : Z) (count : nat)
    : outcome (list string) :=
  match count with
  | O => Ret l
  | S count' =>
      if Z.of_nat (List.length l) <=? idx + i then Ret l
      else l' <- set_py l (idx + i) EmptyString ;; blank_used l' idx (i + 1) count'
  end.

(** [if used > 0:] of the time sweep: removed parsed words from the sentence *)
Definition time_consume (idx : Z) (wordPrevPrev wordPrev : string) (u : Z) (c : ctx)
    : outcome ctx :=
  if 0 <? u then
    ws <- blank_used (words c) idx 0 (Z.to_nat u) ;;
    ws <- (if String.eqb wordPrev "o" || String.eqb wordPrev "oh" then
             match index_of wordPrev ws with
             | Some n => set_py ws (Z.of_nat n) EmptyString
             | None => Raise ValueError
             end
           else Ret ws) ;;
    '(c, ws, idx) <-
       (if String.eqb wordPrev "early" then
          ws <- set_py ws (idx - 1) EmptyString ;; Ret (set_hrOffset (-1) c, ws, idx - 1)
        else if String.eqb wordPrev "late" then
          ws <- set_py ws (idx - 1) EmptyString ;; Ret (set_hrOffset 1 c, ws, idx - 1)
        else Ret (c, ws, idx)) ;;
    '(c, ws) <-
       (if (0 <? idx) && mem wordPrev markers then
          ws <- set_py ws (idx - 1) EmptyString ;;
          Ret (if String.eqb wordPrev "this" then set_daySpecified true c else c, ws)
        else Ret (c, ws)) ;;
    '(c, ws) <-
       (if (1 <? idx) && mem wordPrevPrev markers then
          ws <- set_py ws (idx - 2) EmptyString ;;
          Ret (if String.eqb wordPrevPrev "this" then set_daySpecified true c else c, ws)
        else Ret (c, ws)) ;;
    Ret (set_found true (set_words ws c))
  else Ret c.

(** "half an hour", "quarter hour", "within the hour" *)
Definition hour_phrase (idx : Z) (wordPrevPrev wordPrev : string) (c : ctx)
    : outcome ctx :=
  '(c, ws) <-
     (if String.eqb wordPrev "half" then Ret (set_minOffset 30 c, words c)
      else if String.eqb wordPrev "quarter" then Ret (set_minOffset 15 c, words c)
      else if String.eqb wordPrevPrev "quarter" then
        let c := set_minOffset 15 c in
        ws <- (if 2 <? idx then
                 w3 <- get_py (words c) (idx - 3) ;;
                 if mem w3 markers then set_py (words c) (idx - 3) EmptyString
                 else Ret (words c)
               else Ret (words c)) ;;
        ws <- set_py ws (idx - 2) EmptyString ;;
        Ret (c, ws)
      else if String.eqb wordPrev "within" then Ret (set_hrOffset 1 c, words c)
      else Ret (set_hrOffset 1 c, words c)) ;;
  '(c, ws) <-
     (if mem wordPrevPrev markers then
        ws <- set_py ws (idx - 2) EmptyString ;;
        Ret (if String.eqb wordPrevPrev "this" then set_daySpecified true c else c, ws)
      else Ret (c, ws)) ;;
  ws <- set_py ws (idx - 1) EmptyString ;;
  Ret (invalidate_anchors (set_words ws c)).

(** One turn of the time sweep *)
Definition time_word (dateNow : datetime) (idx : Z) (c : ctx) : outcome ctx :=
  let ws := words c in
  let w := word_or_empty ws idx in
  if negb (nonempty w) then Ret c
  else
  let wordPrevPrev := word_or_empty ws (idx - 2) in
  let wordPrev := word_or_empty ws (idx - 1) in
  let wordNext := word_or_empty ws (idx + 1) in
  let wordNextNext := word_or_empty ws (idx + 2) in
  let keep_first h := match hrAbs c with None => Some h | Some x => Some x end in
  (* parse noon, midnight, morning, afternoon, evening *)
  '(c, u) <-
     (if String.eqb w "noon" then Ret (set_hrAbs (Some 12) c, 1)
      else if String.eqb w "midnight" then Ret (set_hrAbs (Some 0) c, 1)
      else if String.eqb w "morning" then Ret (set_hrAbs (keep_first 8) c, 1)
      else if String.eqb w "afternoon" then Ret (set_hrAbs (keep_first 15) c, 1)
      else if String.eqb w "evening" then Ret (set_hrAbs (keep_first 19) c, 1)
      (* couple of time_unit *)
      else if String.eqb w "2" && String.eqb wordNext "of"
              && mem wordNextNext ["hours"; "minutes"; "seconds"] then
        Ret (if String.eqb wordNextNext "hours" then set_hrOffset 2 c
             else if String.eqb wordNextNext "minutes" then set_minOffset 2 c
             else if String.eqb wordNextNext "seconds" then set_secOffset 2 c
             else c, 3)
      (* parse half an hour, quarter hour *)
      else if String.eqb w "hour"
              && (mem wordPrev markers || mem wordPrevPrev markers) then
        c <- hour_phrase idx wordPrevPrev wordPrev c ;; Ret (c, 1)
      (* parse in a minute *)
      else if String.eqb w "minute" && String.eqb wordPrev "in" then
        ws <- set_py ws (idx - 1) EmptyString ;;
        Ret (set_words ws (set_minOffset 1 c), 1)
      (* parse in a second *)
      else if String.eqb w "second" && String.eqb wordPrev "in" then
        ws <- set_py ws (idx - 1) EmptyString ;;
        Ret (set_words ws (set_secOffset 1 c), 1)
      else
        d <- first_isdigit w ;;
        if d then
          '(c, p) <- digit_time dateNow idx w wordPrev wordNext wordNextNext c ;;
          Ret (c, used p)
        else Ret (c, 0)) ;;
  time_consume idx wordPrevPrev wordPrev u c.

Fixpoint time_sweep (dateNow : datetime) (idx : Z) (turns : nat) (c : ctx)
    : outcome ctx :=
  match turns with
  | O => Ret c
  | S turns' =>
      c <- time_word dateNow idx c ;;
      time_sweep dateNow (idx + 1) turns' c
  end.

(** *** The result *)

(** What [if not date_found:] tests is the function object itself, which
    is true whatever the function would return: the source does not call
    it. *)
Definition function_truth {A B : Type} (f : A -> B) : bool := true.

(** The explicit date "june 5" or "june 2, 2017" *)
Definition apply_datestr (dateNow : datetime) (c : ctx) (extractedDate : datetime)
    : outcome datetime :=
  let currentYear := year dateNow in
  temp <- parse_datestr (datestr c) ;;
  let extractedDate := zero_time extractedDate in
  if negb (hasYear c) then
    temp <- replace_date temp (year extractedDate) (month temp) (day temp) ;;
    if datetime_ltb extractedDate temp
    then replace_date extractedDate currentYear (month temp) (day temp)
    else replace_date extractedDate (currentYear + 1) (month temp) (day temp)
  else replace_date extractedDate (year temp) (month temp) (day temp).

(** The absolute hour and minute, or the default time *)
Definition apply_anchor (dateNow : datetime) (default_time : option time)
    (c : ctx) (extractedDate : datetime) : outcome datetime :=
  if negb (match hrAbs c with Some h => h =? -1 | None => false end)
     && negb (match minAbs c with Some m => m =? -1 | None => false end)
  then
    let '(h, m) :=
      match hrAbs c, minAbs c, default_time with
      | None, None, Some t => (t_hour t, t_minute t)
      | _, _, _ => (match hrAbs c with Some h => h | None => 0 end,
                    match minAbs c with Some m => m | None => 0 end)
      end in
    extractedDate <- add_seconds extractedDate (h * 3600 + m * 60) ;;
    if (negb (h =? 0) || negb (m =? 0)) && negb (nonempty (datestr c)) then
      if negb (daySpecified c) && datetime_ltb extractedDate dateNow
      then add_seconds extractedDate 86400
      else Ret extractedDate
    else Ret extractedDate
  else Ret extractedDate.

(** The last loop: an "and" left between two blanks is blanked as well.
    The neighbours are read with Python's indexing. *)
Fixpoint blank_ands (ws : list string) (idx : Z) (turns : nat)
    : outcome (list string) :=
  match turns with
  | O => Ret ws
  | S turns' =>
      w <- get_py ws idx ;;
      ws <- (if String.eqb w "and" then
               p <- get_py ws (idx - 1) ;;
               if negb (nonempty p) then
                 n <- get_py ws (idx + 1) ;;
                 if negb (nonempty n) then set_py ws idx EmptyString else Ret ws
               else Ret ws
             else Ret ws) ;;
      blank_ands ws (idx + 1) turns'
  end.

Definition add_if_nonzero (n : Z) (f : datetime -> outcome datetime)
    (d : datetime) : outcome datetime :=
  if negb (n =? 0) then f d else Ret d.

(** perform date manipulation *)
Definition compose_result (dateNow : datetime) (default_time : option time)
    (c : ctx) : outcome (datetime * string) :=
  let extractedDate := zero_microsecond dateNow in
  extractedDate <-
    (if nonempty (datestr c) then apply_datestr dateNow c extractedDate
     else
       (* ignore the current HH:MM:SS if relative using days or greater *)
       if (hrOffset c =? 0) && (minOffset c =? 0) && (secOffset c =? 0)
       then Ret (zero_time extractedDate) else Ret extractedDate) ;;
  extractedDate <- add_if_nonzero (yearOffset c)
                     (fun d => add_years_months d (yearOffset c) 0) extractedDate ;;
  extractedDate <- add_if_nonzero (monthOffset c)
                     (fun d => add_years_months d 0 (monthOffset c)) extractedDate ;;
  extractedDate <- add_if_nonzero (dayOffset c)
                     (fun d => add_seconds d (dayOffset c * 86400)) extractedDate ;;
  extractedDate <- apply_anchor dateNow default_time c extractedDate ;;
  extractedDate <- add_if_nonzero (hrOffset c)
                     (fun d => add_seconds d (hrOffset c * 3600)) extractedDate ;;
  extractedDate <- add_if_nonzero (minOffset c)
                     (fun d => add_seconds d (minOffset c * 60)) extractedDate ;;
  extractedDate <- add_if_nonzero (secOffset c)
                     (fun d => add_seconds d (secOffset c)) extractedDate ;;
  ws <- blank_ands (words c) 0 (List.length (words c)) ;;
  let resultStr := join " " ws in
  let resultStr := join " " (split resultStr) in
  Ret (extractedDate, resultStr).

Definition initial_ctx (ws : list string) : ctx :=
  mk_ctx false false 0 0 0 false EmptyString false EmptyString ws
         0 0 0 None None false.

(** The two sweeps: the early result of "now", or the context reached *)
Definition sweeps (dateNow : datetime) (string : String.string)
    : outcome ((datetime * String.string) + ctx) :=
  ws <- clean_string string ;;
  r <- date_sweep dateNow 0 (List.length ws) (initial_ctx ws) ;;
  match r with
  | inl result => Ret (inl result)
  | inr c =>
      (* parse time *)
      c <- time_sweep dateNow 0 (List.length (words c)) c ;;
      Ret (inr c)
  end.

(** [extract_datetime_en]: [None], or the date and the remaining text *)
Definition extract_datetime_en (string : String.string)
    (dateNow : option datetime) (default_time : option time)
    : outcome (option (datetime * String.string)) :=
  match dateNow with
  | None => Ret None
  | Some dateNow =>
      if negb (nonempty string) then Ret None
      else
        r <- sweeps dateNow string ;;
        match r with
        | inl result => Ret (Some result)
        | inr c =>
            (* check that we found a date *)
            if negb (function_truth date_found) then Ret None
            else
              result <- compose_result dateNow default_time c ;;
              Ret (Some result)
        end
  end.

(** ** The list of the numbers and the normaliser *)

(** A match of the pattern [(?P<value>\d+(?:\.?\d+)?)] that starts at the
    head of [s]: the digits, as many as there are, and then a dot and
    digits when both are there; the value matched and the text after it. *)
Definition match_number_at (s : string) : option (string * string) :=
  let (d1, r1) := span_digits s in
  if nonempty d1 then
    Some match r1 with
         | String c r =>
             if Ascii.eqb c "." then
               let (d2, r') := span_digits r in
               if nonempty d2 then (d1 ++ "." ++ d2, r') else (d1, r1)
             else (d1, r1)
         | EmptyString => (d1, r1)
         end
  else None.

(** [re.findall] with that pattern: the matches from the left, not
    overlapping.  [skip] counts the characters of a match that are still
    to be passed over. *)
Fixpoint scan_numbers (skip : nat) (s : string) : list string :=
  match s with
  | EmptyString => []
  | String c s' =>
      match skip with
      | S k => scan_numbers k s'
      | O =>
          match match_number_at s with
          | Some (v, rest) =>
              v :: scan_numbers (String.length s - String.length rest - 1) s'
          | None => scan_numbers O s'
          end
      end
  end.

Definition findall_numbers (text : string) : list string := scan_numbers O text.

(** [extract_numbers_en] *)
Definition extract_numbers_en (text : string) (short_scale ordinals : bool)
    : outcome (list float) :=
  text <- convert_words_to_numbers text short_scale ordinals ;;
  map_outcome float_of_string (findall_numbers text).

(** The lists of [normalize_en] *)
Definition contraction : list string :=
  [ "ain't"; "aren't"; "can't"; "could've"; "couldn't"; "didn't"; "doesn't";
    "don't"; "gonna"; "gotta"; "hadn't"; "hasn't"; "haven't"; "he'd"; "he'll";
    "he's"; "how'd"; "how'll"; "how's"; "I'd"; "I'll"; "I'm"; "I've"; "isn't";
    "it'd"; "it'll"; "it's"; "mightn't"; "might've"; "mustn't"; "must've";
    "needn't"; "oughtn't"; "shan't"; "she'd"; "she'll"; "she's"; "shouldn't";
    "should've"; "somebody's"; "someone'd"; "someone'll"; "someone's";
    "that'll"; "that's"; "that'd"; "there'd"; "there're"; "there's"; "they'd";
    "they'll"; "they're"; "they've"; "wasn't"; "we'd"; "we'll"; "we're";
    "we've"; "weren't"; "what'd"; "what'll"; "what're"; "what's"; "whats";
    "what've"; "when's"; "when'd"; "where'd"; "where's"; "where've"; "who'd";
    "who'd've"; "who'll"; "who're"; "who's"; "who've"; "why'd"; "why're";
    "why's"; "won't"; "won't've"; "would've"; "wouldn't"; "wouldn't've";
    "y'all"; "ya'll"; "you'd"; "you'd've"; "you'll"; "y'aint"; "y'ain't";
    "you're"; "you've" ].

Definition expansion : list string :=
  [ "is not"; "are not"; "can not"; "could have"; "could not"; "did not";
    "does not"; "do not"; "going to"; "got to"; "had not"; "has not";
    "have not"; "he would"; "he will"; "he is"; "how did"; "how will";
    "how is"; "I would"; "I will"; "I am"; "I have"; "is not"; "it would";
    "it will"; "it is"; "might not"; "might have"; "must not"; "must have";
    "need not"; "ought not"; "shall not"; "she would"; "she will"; "she is";
    "should not"; "should have"; "somebody is"; "someone would";
    "someone will"; "someone is"; "that will"; "that is"; "that would";
    "there would"; "there are"; "there is"; "they would"; "they will";
    "they are"; "they have"; "was not"; "we would"; "we will"; "we are";
    "we have"; "were not"; "what did"; "what will"; "what are"; "what is";
    "what is"; "what have"; "when is"; "when did"; "where did"; "where is";
    "where have"; "who would"; "who would have"; "who will"; "who are";
    "who is"; "who have"; "why did"; "why are"; "why is"; "will not";
    "will not have"; "would have"; "would not"; "would not have"; "you all";
    "you all"; "you would"; "you would have"; "you will"; "you are not";
    "you are not"; "you are"; "you have" ].

Definition textNumbers : list string :=
  [ "zero"; "one"; "two"; "three"; "four"; "five"; "six"; "seven"; "eight";
    "nine"; "ten"; "eleven"; "twelve"; "thirteen"; "fourteen"; "fifteen";
    "sixteen"; "seventeen"; "eighteen"; "nineteen"; "twenty" ].

(** One turn of the loop of [normalize_en] over the words: the text built
    so far with the word added, once its contraction is expanded and its
    number name is turned into digits.  The two lists are of the same
    length, so [expansion[contraction.index(word)]] is always there. *)
Definition normalize_word (remove_articles : bool) (normalized word : string)
    : string :=
  if remove_articles && mem word ["the"; "a"; "an"] then normalized
  else
    (* Expand common contractions, e.g. "isn't" -> "is not" *)
    let word := match index_of word contraction with
                | Some i => nth i expansion EmptyString
                | None => word
                end in
    (* Convert numbers into digits, e.g. "two" -> "2" *)
    let word := match index_of word textNumbers with
                | Some i => str_of_Z (Z.of_nat i)
                | None => word
                end in
    normalized ++ " " ++ word.

(** [normalize_en]; the last step strips the initial space *)
Definition normalize_en (text : string) (remove_articles : bool) : string :=
  drop 1 (fold_left (normalize_word remove_articles) (split text) EmptyString).

(** ** Notions used in the statements *)

(** A word as [split] produces them: not empty, no white space inside. *)
Definition is_word (w : string) : bool :=
  nonempty w && str_forallb (fun c => negb (isspace_c c)) w.

(** The matches of the unit patterns in the order the loop of
    [extract_duration_en] finds them, each with the multiplier of its unit,
    and the text that is left when they are all taken out. *)
Fixpoint unit_matches (units : list (string * Z)) (text : string)
    : list (string * Z) :=
  match units with
  | [] => []
  | (unit, value) :: units' =>
      (map (fun s => (s, value)) (re_findall unit text)
       ++ unit_matches units' (re_sub unit text))%list
  end.

Fixpoint unit_residual (units : list (string * Z)) (text : string) : string :=
  match units with
  | [] => text
  | (unit, _) :: units' => unit_residual units' (re_sub unit text)
  end.

(** [float(s) * value] for one match *)
Definition contribution (m : string * Z) : outcome pyval :=
  f <- float_of_string (fst m) ;; py_mul (PFloat f) (PInt (snd m)).

Definition is_float (v : pyval) : bool :=
  match v with PFloat _ => true | _ => false end.

(** A decimal literal [digits] or [digits.digits] *)
Definition plain_decimal (v : string) : Prop :=
  exists d1 d2, isdigit d1 = true
    /\ (v = d1 \/ (isdigit d2 = true /\ v = d1 ++ "." ++ d2)).

Definition small_multiplier (m : string * Z) : Prop :=
  exists g, float_of_Z (snd m) = Ret g.

(** The reference instants of the examples: Tuesday 27 June 2017 *)
Definition tuesday_14h : datetime := mk_datetime 2017 6 27 14 0 0 0.
Definition tuesday_02h : datetime := mk_datetime 2017 6 27 2 0 0 0.

(** ** Notions used for the budgets of the model *)

(** The outcome is not the exhaustion of the budget. *)
Definition within_budget {A : Type} (m : outcome A) : Prop :=
  m <> Raise FuelExhausted.

(** The indices of the tokens grow along the list. *)
Fixpoint increasing (l : list _Token) : Prop :=
  match l with
  | [] => True
  | t :: l' => (forall u, In u l' -> index t < index u) /\ increasing l'
  end.

(** The token is not a masked one. *)
Definition plain (t : _Token) : bool := negb (String.eqb (word t) placeholder).

(** The word of the token is none of [l]. *)
Definition outside (l : list string) (t : _Token) : bool := negb (mem (word t) l).

(** A result of the single-number extractor on the tokens [T]: its tokens
    are tokens of [T], none of them the placeholder, in the order of their
    indices, and when the number is true one of them is no article. *)
Definition sound (T : list _Token) (r : pyval * list _Token) : Prop :=
  (forall t, In t (snd r) -> In t T /\ plain t = true)
  /\ increasing (snd r)
  /\ (truthy (fst r) = true -> existsb (outside ARTICLES) (snd r) = true).

(** What holds of the scan's variables before each token, [rest] being
    the tokens still to come *)
Definition scan_inv (T rest : list _Token) (st : scan_state) : Prop :=
  (forall t, In t (number_words st) -> In t T /\ plain t = true)
  /\ increasing (number_words st ++ rest)
  /\ (truthy (val st) = true \/ to_sum st <> [] ->
      existsb (outside (ARTICLES ++ _NEGATIVES)) (number_words st) = true).

(** The pieces [_partition_list] makes: a separator alone, or a run
    without separators *)
Definition marker_piece {A : Type} (f : A -> bool) (p : list A) : bool :=
  match p with [m] => f m | _ => false end.

Definition run_piece {A : Type} (f : A -> bool) (p : list A) : bool :=
  forallb (fun x => negb (f x)) p.

(** Every piece is a separator alone or a run without separators, and of
    two neighbours one is a separator. *)
Fixpoint alternating {A : Type} (f : A -> bool) (L : list (list A)) : bool :=
  match L with
  | [] => true
  | p :: L' =>
      (marker_piece f p || run_piece f p)
      && match L' with
         | [] => true
         | q :: _ => marker_piece f p || marker_piece f q
         end
      && alternating f L'
  end.

(** [[i for i in result if i]] *)
Definition keep_nonempty {A : Type} (L : list (list A)) : list (list A) :=
  filter (fun x => negb (Nat.eqb (List.length x) 0)) L.

(** The separators of the fraction and decimal forms *)
Definition number_markers : list string := (_FRACTION_MARKER ++ _DECIMAL_MARKER)%list.

(** The words of the tokens are words of a split text. *)
Definition words_ok (T : list _Token) : Prop :=
  forallb is_word (map word T) = true.

(** The words not yet masked, and the word the loop writes for a token
    when the number found spans the indices [s] to [e] *)
Definition count_plain (ws : list string) : nat :=
  List.length (filter (fun w => negb (String.eqb w placeholder)) ws).

Definition mask (s e : Z) (t : _Token) : string :=
  if negb ((s <=? index t) && (index t <=? e)) then word t else placeholder.

(** The tokens of a result, when the result is certainly a number *)
Definition sound_tokens (T toks : list _Token) : Prop :=
  (forall t, In t toks -> In t T /\ plain t = true)
  /\ increasing toks
  /\ existsb (outside ARTICLES) toks = true.

(** ** Notions used for the further properties *)

(** Neither a number word nor a numeral: an article, a sign word, or a
    word the scan does not know. *)
Definition no_number_word (short_scale ordinals : bool) (w : string) : bool :=
  mem w ARTICLES || mem w _NEGATIVES || unknown_word w short_scale ordinals.

(** The scan over words that are no number words keeps [val] at [False]
    and gathers nothing but articles and sign words. *)
Definition idle (st : scan_state) : Prop :=
  val st = PFalse /\ to_sum st = []
  /\ forallb (fun x => mem x (ARTICLES ++ _NEGATIVES)%list)
             (map word (number_words st)) = true.

(** A span found in a text of [n] words: a number that counts as true,
    from a word of the text to the same or a later one. *)
Definition span_within (n : nat) (r : _ReplaceableNumber) : Prop :=
  truthy (value r) = true
  /\ 0 <= start_index r /\ start_index r <= end_index r
  /\ end_index r < Z.of_nat n.

(** No white space at either end *)
Definition trimmed (s : string) : Prop := lstrip s = s /\ rstrip s = s.

Definition unit_words : list string := ["day"; "week"; "month"; "year"].

(** The words of the text are separated by single spaces, with no white
    space at either end. *)
Definition normalised (s : string) : Prop := join " " (split s) = s.

(** The last word is "and" and the one before it is blank. *)
Definition ends_in_and (ws : list string) : Prop :=
  (2 <= List.length ws)%nat
  /\ nth (List.length ws - 1) ws "" = "and"
  /\ nth (List.length ws - 2) ws "" = "".

Definition kept (remove_articles : bool) (w : string) : bool :=
  negb (remove_articles && mem w ["the"; "a"; "an"]).

Definition changed (w : string) : string :=
  let w := match index_of w contraction with
           | Some i => nth i expansion EmptyString
           | None => w
           end in
  match index_of w textNumbers with
  | Some i => str_of_Z (Z.of_nat i)
  | None => w
  end.

Fixpoint spaced (l : list string) : string :=
  match l with
  | [] => ""
  | e :: l' => " " ++ e ++ spaced l'
  end.

(** An element of the output: some words with single spaces between,
    each of which the loop would leave as it is. *)
Definition settled (r : bool) (e : string) : bool :=
  negb (Nat.eqb (List.length (split e)) 0)
  && String.eqb (join " " (split e)) e
  && forallb (fun u => String.eqb (changed u) u && kept r u) (split e).

Definition tokens_from (i : Z) (ws : list string) : list _Token :=
  map (fun iw => mk_Token (snd iw) (fst iw)) (enumerate_from i ws).

(** The words [ws] are the words [ws0], some of them blanked. *)
Definition blanked (ws0 ws : list string) : Prop :=
  Forall2 (fun a b => b = a \/ b = "") ws0 ws.

(** What is left of the words [ws0]: some of them blanked, the first few
    left out, and the rest joined by single spaces. *)
Definition left_of (ws0 : list string) (rest : string) : Prop :=
  exists ws k, blanked ws0 ws
               /\ rest = join " " (split (join " " (skipn k ws))).

(** * Properties *)

(** ** Words and white space *)

Lemma str_forallb_app : forall f a b,
  str_forallb f (a ++ b) = str_forallb f a && str_forallb f b.
Proof.
  induction a as [|c a IH]; intros b; simpl.
  - reflexivity.
  - rewrite IH. now rewrite andb_assoc.
Qed.

Lemma append_nil_r : forall s : string, s ++ "" = s.
Proof. induction s as [|c s IH]; simpl; [reflexivity | now rewrite IH]. Qed.

Lemma append_assoc : forall a b c : string, (a ++ b) ++ c = a ++ (b ++ c).
Proof. induction a as [|x a IH]; intros; simpl; [reflexivity | now rewrite IH]. Qed.

Lemma split_from_words : forall s cur,
  str_forallb (fun c => negb (isspace_c c)) cur = true ->
  forallb is_word (split_from cur s) = true.
Proof.
  induction s as [|c s IH]; intros cur Hcur; simpl.
  - destruct (nonempty cur) eqn:E; simpl; [|reflexivity].
    unfold is_word. now rewrite E, Hcur.
  - destruct (isspace_c c) eqn:Ec.
    + destruct (nonempty cur) eqn:E; simpl.
      * unfold is_word at 1. rewrite E, Hcur. simpl. now apply IH.
      * now apply IH.
    + apply IH. rewrite str_forallb_app, Hcur. simpl. now rewrite Ec.
Qed.

Lemma split_words : forall s, forallb is_word (split s) = true.
Proof. intros s. now apply split_from_words. Qed.

Lemma split_from_app_word : forall w cur s,
  str_forallb (fun c => negb (isspace_c c)) w = true ->
  split_from cur (w ++ s) = split_from (cur ++ w) s.
Proof.
  induction w as [|c w IH]; intros cur s Hw; simpl in *.
  - now rewrite append_nil_r.
  - apply andb_prop in Hw. destruct Hw as [Hc Hw].
    apply negb_true_iff in Hc. rewrite Hc.
    rewrite IH by assumption. now rewrite append_assoc.
Qed.

(** Splitting undoes joining with single spaces. *)
Lemma split_join : forall ws,
  forallb is_word ws = true -> split (join " " ws) = ws.
Proof.
  unfold split, join.
  induction ws as [|w ws IH]; intros H.
  - reflexivity.
  - simpl in H. apply andb_prop in H. destruct H as [Hw Hws].
    unfold is_word in Hw. apply andb_prop in Hw. destruct Hw as [Hne Hsp].
    destruct ws as [|w' ws'].
    + simpl. rewrite <- (append_nil_r w) at 1.
      rewrite split_from_app_word by assumption. simpl. now rewrite Hne.
    + change (String.concat " " (w :: w' :: ws'))
        with (w ++ " " ++ String.concat " " (w' :: ws')).
      rewrite split_from_app_word by assumption.
      simpl append at 1. cbn [split_from append].
      change (isspace_c " ") with true. cbn iota.
      rewrite Hne. f_equal. now apply IH.
Qed.

Lemma split_idem : forall s, split (join " " (split s)) = split s.
Proof. intros s. apply split_join, split_words. Qed.

(** ** Tokens *)

Lemma enumerate_from_snd : forall (A : Type) (l : list A) i,
  map snd (enumerate_from i l) = l.
Proof. induction l as [|x l IH]; intros i; simpl; [reflexivity | now rewrite IH]. Qed.

Lemma tokenize_words : forall text, map word (_tokenize text) = split text.
Proof.
  intros text. unfold _tokenize. rewrite map_map. simpl.
  apply enumerate_from_snd.
Qed.

Lemma tokenize_normalised : forall text,
  _tokenize (join " " (split text)) = _tokenize text.
Proof. intros text. unfold _tokenize. now rewrite split_idem. Qed.

Lemma rewrite_tokens_nil : forall tokens results,
  rewrite_tokens tokens [] results = (results ++ map word tokens)%list.
Proof.
  induction tokens as [|t tokens IH]; intros results; simpl.
  - now rewrite app_nil_r.
  - rewrite IH. now rewrite <- app_assoc.
Qed.

(** ** The multi-number loop *)

Lemma loop_stops_on_falsy :
  forall inner turns text short_scale ordinals results number s a b,
    extract_number_with_text_en_in inner text short_scale ordinals
    = Ret (number, s, a, b) ->
    truthy number = false ->
    extract_numbers_loop inner (S turns) text short_scale ordinals results
    = Ret results.
Proof.
  intros inner turns text ss ord results number s a b H Hn.
  simpl. rewrite H. simpl. now rewrite Hn.
Qed.

Lemma convert_without_numbers : forall text short_scale ordinals number s a b,
  extract_number_with_text_en text short_scale ordinals = Ret (number, s, a, b) ->
  truthy number = false ->
  extract_numbers_with_text text short_scale ordinals = Ret []
  /\ convert_words_to_numbers text short_scale ordinals
     = Ret (join " " (split text)).
Proof.
  intros text ss ord number s a b H Hn.
  assert (E : extract_numbers_with_text text ss ord = Ret []).
  { unfold extract_numbers_with_text, extract_numbers_with_text_in.
    now apply loop_stops_on_falsy with (number := number) (s := s) (a := a) (b := b). }
  split; [exact E|].
  unfold convert_words_to_numbers. rewrite E. simpl.
  now rewrite rewrite_tokens_nil, tokenize_words.
Qed.


(** ** Digits *)

Lemma span_digits_spec : forall s,
  str_forallb isdigit_c (fst (span_digits s)) = true
  /\ s = fst (span_digits s) ++ snd (span_digits s)
  /\ match snd (span_digits s) with
     | String c _ => isdigit_c c = false
     | EmptyString => True
     end.
Proof.
  induction s as [|c s IH]; simpl.
  - repeat split.
  - destruct (isdigit_c c) eqn:E.
    + destruct (span_digits s) as [d r]. simpl in *.
      destruct IH as [H1 [H2 H3]]. rewrite E, H1.
      repeat split; [now f_equal | exact H3].
    + simpl. repeat split. exact E.
Qed.

Lemma span_digits_app : forall d r,
  str_forallb isdigit_c d = true ->
  match r with String c _ => isdigit_c c = false | EmptyString => True end ->
  span_digits (d ++ r) = (d, r).
Proof.
  induction d as [|c d IH]; intros r Hd Hr; simpl in *.
  - destruct r as [|c r]; [reflexivity|]. simpl. now rewrite Hr.
  - apply andb_prop in Hd. destruct Hd as [Hc Hd].
    rewrite Hc. now rewrite IH.
Qed.

Lemma isdigit_forallb : forall d, isdigit d = true -> str_forallb isdigit_c d = true.
Proof. now destruct d. Qed.

Lemma isdigit_nonempty : forall d, isdigit d = true -> nonempty d = true.
Proof. now destruct d. Qed.

Lemma isdigit_intro : forall d,
  nonempty d = true -> str_forallb isdigit_c d = true -> isdigit d = true.
Proof. now destruct d. Qed.

(** A digit is none of the characters the parsers treat specially. *)
Lemma digit_not_special : forall c, isdigit_c c = true ->
  Ascii.eqb c "-" = false /\ Ascii.eqb c "+" = false /\ Ascii.eqb c "." = false
  /\ Ascii.eqb c ":" = false /\ lower_c c = c
  /\ Ascii.eqb c "i" = false /\ Ascii.eqb c "n" = false.
Proof.
  intros c H.
  destruct c as [[] [] [] [] [] [] [] []]; try discriminate H; repeat split.
Qed.






(** A plain decimal is accepted by [float]. *)
Lemma plain_decimal_numeric : forall v,
  plain_decimal v -> exists f, float_of_string v = Ret f.
Proof.
  intros v [d1 [d2 [H1 Hv]]].
  assert (Hf1 := isdigit_forallb _ H1).
  destruct d1 as [|c d1]; [discriminate|].
  simpl in Hf1. apply andb_prop in Hf1. destruct Hf1 as [Hc Hf1].
  destruct (digit_not_special c Hc) as [Hm [Hp [Hdot [_ [Hl [Hi Hnn]]]]]].
  assert (Hpre : forall r, parse_float (String c d1 ++ r)
                           = parse_unsigned_float false (String c d1 ++ r)).
  { intros r. simpl. now rewrite Hm, Hp. }
  assert (Hlow : forall r,
             (String.eqb (lower (String c d1 ++ r)) "inf"
              || String.eqb (lower (String c d1 ++ r)) "infinity") = false
             /\ String.eqb (lower (String c d1 ++ r)) "nan" = false).
  { intros r. simpl. rewrite Hl, Hi, Hnn. now split. }
  unfold float_of_string.
  destruct Hv as [Hv | [H2 Hv]]; subst v.
  - rewrite <- (append_nil_r (String c d1)).
    rewrite Hpre. unfold parse_unsigned_float.
    destruct (Hlow "") as [Ha Hb]. rewrite Ha, Hb.
    rewrite span_digits_app; [| simpl; now rewrite Hc | exact I].
    simpl. eexists. reflexivity.
  - rewrite Hpre. unfold parse_unsigned_float.
    destruct (Hlow ("." ++ d2)) as [Ha Hb]. rewrite Ha, Hb.
    rewrite span_digits_app; [| simpl; now rewrite Hc | reflexivity].
    cbn [append]. change (Ascii.eqb "." ".") with true. cbn iota.
    rewrite <- (append_nil_r d2).
    rewrite span_digits_app; [| now apply isdigit_forallb | exact I].
    cbn [nonempty orb]. simpl. eexists. reflexivity.
Qed.

(** ** The unit pattern *)

Lemma match_unit_value : forall unit s v rest,
  match_unit_at unit s = Some (v, rest) -> plain_decimal v.
Proof.
  intros unit s v rest. unfold match_unit_at.
  destruct (span_digits_spec s) as [Hd [_ _]].
  destruct (span_digits s) as [d1 r1]. simpl in Hd.
  destruct (nonempty d1) eqn:Hn; [|discriminate].
  assert (H1 : isdigit d1 = true) by now apply isdigit_intro.
  assert (Hplain : plain_decimal d1) by (exists d1, ""; auto).
  destruct r1 as [|c r].
  - destruct (_ && _); [|discriminate]. intros E; inversion E; subst. exact Hplain.
  - destruct (Ascii.eqb c ".").
    + destruct (span_digits_spec r) as [Hd2 [_ _]].
      destruct (span_digits r) as [d2 r']. simpl in Hd2.
      destruct (nonempty d2) eqn:Hn2.
      * destruct (_ && _); [|discriminate]. intros E; inversion E; subst.
        exists d1, d2. split; [exact H1|]. right. split; [|reflexivity].
        now apply isdigit_intro.
      * destruct (_ && _); [|discriminate]. intros E; inversion E; subst. exact Hplain.
    + destruct (_ && _); [|discriminate]. intros E; inversion E; subst. exact Hplain.
Qed.

Lemma scan_matches_values : forall unit s skip,
  Forall plain_decimal (fst (scan_matches unit skip s)).
Proof.
  induction s as [|c s IH]; intros skip; simpl.
  - constructor.
  - destruct skip as [|k]; [|apply IH].
    destruct (match_unit_at unit (String c s)) as [[v rest]|] eqn:E.
    + specialize (IH (String.length (String c s) - String.length rest - 1)%nat).
      destruct (scan_matches unit _ s) as [vs out]. simpl in *.
      constructor; [|exact IH]. now apply match_unit_value in E.
    + specialize (IH O). destruct (scan_matches unit O s) as [vs out]. exact IH.
Qed.

Lemma findall_values : forall unit text, Forall plain_decimal (re_findall unit text).
Proof. intros. apply scan_matches_values. Qed.

(** ** The pieces of a duration *)

Lemma map_outcome_app : forall (A B : Type) (f : A -> outcome B) l1 l2,
  map_outcome f (l1 ++ l2)%list
  = (x <- map_outcome f l1 ;; y <- map_outcome f l2 ;; Ret (x ++ y)%list).
Proof.
  induction l1 as [|a l1 IH]; intros l2; simpl.
  - destruct (map_outcome f l2); reflexivity.
  - destruct (f a); simpl; [|reflexivity].
    rewrite IH. destruct (map_outcome f l1); simpl; [|reflexivity].
    destruct (map_outcome f l2); reflexivity.
Qed.

Lemma map_outcome_map : forall (A B C : Type) (g : A -> B) (f : B -> outcome C) l,
  map_outcome f (map g l) = map_outcome (fun x => f (g x)) l.
Proof.
  induction l as [|a l IH]; simpl; [reflexivity|].
  destruct (f (g a)); simpl; [|reflexivity]. now rewrite IH.
Qed.

(** The loop over the units gathers the contributions of the matches, unit
    after unit, and takes the matches out of the text. *)
Lemma duration_units_spec : forall units text pieces,
  duration_units units text pieces
  = (ms <- map_outcome contribution (unit_matches units text) ;;
     Ret ((pieces ++ ms)%list, unit_residual units text)).
Proof.
  induction units as [|[unit value] units IH]; intros text pieces; simpl.
  - now rewrite app_nil_r.
  - rewrite map_outcome_app, map_outcome_map.
    unfold contribution at 1. simpl.
    destruct (map_outcome _ (re_findall unit text)) as [ms|e]; simpl; [|reflexivity].
    rewrite IH.
    destruct (map_outcome contribution _) as [ms'|e]; simpl; [|reflexivity].
    now rewrite app_assoc.
Qed.

Lemma contributions_return : forall l,
  Forall (fun m => plain_decimal (fst m) /\ small_multiplier m) l ->
  exists ps, map_outcome contribution l = Ret ps
             /\ forallb is_float ps = true
             /\ List.length ps = List.length l.
Proof.
  induction l as [|m l IH]; intros H.
  - exists []. repeat split.
  - inversion H as [|? ? [Hp [g Hg]] Hl]; subst.
    destruct (IH Hl) as [ps [E [Hf Hlen]]].
    destruct (plain_decimal_numeric _ Hp) as [f Ef].
    exists (PFloat (PrimFloat.mul f g) :: ps).
    simpl. unfold contribution at 1. rewrite Ef. simpl.
    unfold py_mul, py_arith. simpl. rewrite Hg. simpl. rewrite E. simpl.
    repeat split; [exact Hf | now rewrite Hlen].
Qed.

Lemma unit_matches_ok : forall units text,
  Forall (fun uv => exists g, float_of_Z (snd uv) = Ret g) units ->
  Forall (fun m => plain_decimal (fst m) /\ small_multiplier m)
         (unit_matches units text).
Proof.
  induction units as [|[unit value] units IH]; intros text H; simpl.
  - constructor.
  - inversion H as [|? ? Hv Hu]; subst.
    apply Forall_app. split; [|now apply IH].
    apply Forall_map. simpl.
    eapply Forall_impl; [|apply findall_values].
    intros s Hs. split; [exact Hs | exact Hv].
Qed.

Lemma table_multipliers :
  Forall (fun uv : string * Z => exists g, float_of_Z (snd uv) = Ret g)
         time_unit_to_seconds_map.
Proof.
  unfold time_unit_to_seconds_map.
  repeat constructor; simpl; eexists; vm_compute; reflexivity.
Qed.

Lemma py_sum_floats : forall ps acc,
  forallb is_float ps = true ->
  (acc = PInt 0 \/ is_float acc = true) ->
  exists d, py_sum_from acc ps = Ret d.
Proof.
  induction ps as [|p ps IH]; intros acc Hf Hacc; simpl.
  - now exists acc.
  - simpl in Hf. apply andb_prop in Hf. destruct Hf as [Hp Hf].
    destruct p as [| |z|f]; try discriminate.
    destruct Hacc as [-> | Hacc].
    + change (py_add (PInt 0) (PFloat f)) with (Ret (PFloat (PrimFloat.add (float_of_small 0) f))).
      simpl. apply IH; [exact Hf | now right].
    + destruct acc as [| |z|a]; try discriminate.
      simpl. apply IH; [exact Hf | now right].
Qed.

(** ** The date sweep *)

Lemma mem_days_cases : forall w, mem w days = true ->
  w = "monday" \/ w = "tuesday" \/ w = "wednesday" \/ w = "thursday"
  \/ w = "friday" \/ w = "saturday" \/ w = "sunday".
Proof.
  intros w H. unfold mem, days in H. simpl in H.
  repeat (apply orb_true_iff in H; destruct H as [H | H];
          [apply String.eqb_eq in H; auto 10 |]).
  discriminate.
Qed.

Lemma weekday_w_range : forall d, 0 <= weekday_w d < 7.
Proof. intros d. unfold weekday_w. apply Z.mod_pos_bound. lia. Qed.

Lemma date_branch_weekday : forall dateNow idx w c,
    mem w days = true ->
    fromFlag c = false ->
    mem (word_or_empty (words c) (idx + 1)) year_multiples = false ->
    date_branch dateNow idx w c
    = let '(v, start, used) :=
        weekday_branch (weekday_w dateNow) w (word_or_empty (words c) (idx - 1)) idx in
      Ret (inr (set_dayOffset v c, start, used)).
Proof.
  intros dateNow idx w c Hw Hf Hy.
  unfold date_branch. rewrite Hy, Hf.
  destruct (mem_days_cases w Hw) as [E|[E|[E|[E|[E|[E|E]]]]]]; subst w; reflexivity.
Qed.

(** ** Python lists *)

Lemma set_nth_length : forall l n v, List.length (set_nth l n v) = List.length l.
Proof.
  induction l as [|x l IH]; intros n v; simpl; [reflexivity|].
  destruct n; simpl; [reflexivity | now rewrite IH].
Qed.

Lemma get_py_in_range : forall l i,
  0 <= i < Z.of_nat (List.length l) ->
  get_py l i = Ret (nth (Z.to_nat i) l EmptyString).
Proof.
  intros l i H. unfold get_py.
  replace (i <? 0) with false by (symmetry; apply Z.ltb_ge; lia).
  replace (0 <=? i) with true by (symmetry; apply Z.leb_le; lia).
  replace (i <? Z.of_nat (List.length l)) with true by (symmetry; apply Z.ltb_lt; lia).
  reflexivity.
Qed.

Lemma set_py_in_range : forall l i v,
  0 <= i < Z.of_nat (List.length l) ->
  set_py l i v = Ret (set_nth l (Z.to_nat i) v).
Proof.
  intros l i v H. unfold set_py.
  replace (i <? 0) with false by (symmetry; apply Z.ltb_ge; lia).
  replace (0 <=? i) with true by (symmetry; apply Z.leb_le; lia).
  replace (i <? Z.of_nat (List.length l)) with true by (symmetry; apply Z.ltb_lt; lia).
  reflexivity.
Qed.

Lemma blank_range_returns : forall count l start i,
  0 <= i + start ->
  i + start + Z.of_nat count <= Z.of_nat (List.length l) ->
  exists l', blank_range l start i count = Ret l'
             /\ List.length l' = List.length l.
Proof.
  induction count as [|count IH]; intros l start i H0 H1; simpl.
  - now exists l.
  - rewrite set_py_in_range by lia. simpl.
    destruct (IH (set_nth l (Z.to_nat (i + start)) EmptyString) start (i + 1))
      as [l' [E Hl]].
    + lia.
    + rewrite set_nth_length. lia.
    + exists l'. split; [exact E|]. now rewrite Hl, set_nth_length.
Qed.

Lemma word_or_empty_in_range : forall l i,
  nonempty (word_or_empty l i) = true -> 0 <= i < Z.of_nat (List.length l).
Proof.
  intros l i H. unfold word_or_empty in H.
  destruct ((0 <=? i) && (i <? Z.of_nat (List.length l))) eqn:E; [|discriminate].
  apply andb_prop in E. destruct E as [E1 E2].
  apply Z.leb_le in E1. apply Z.ltb_lt in E2. lia.
Qed.

(** Blanking the words used by the date sweep succeeds when they lie within
    the list, and does not touch the offsets. *)
Lemma date_consume_returns : forall c start used,
  0 <= start -> 0 < used -> start + used <= Z.of_nat (List.length (words c)) ->
  exists c', date_consume c start used = Ret c'
             /\ dayOffset c' = dayOffset c
             /\ found c' = true /\ daySpecified c' = true.
Proof.
  intros c start used H0 Hu Hlen.
  unfold date_consume.
  replace (0 <? used) with true by (symmetry; apply Z.ltb_lt; lia).
  assert (Hthis : exists b,
             (if 0 <? start - 1
              then w <- get_py (words c) (start - 1) ;; Ret (String.eqb w "this")
              else Ret false) = Ret b /\ (b = true -> 0 < start - 1)).
  { destruct (0 <? start - 1) eqn:E.
    - apply Z.ltb_lt in E. rewrite get_py_in_range by lia. simpl.
      eexists. split; [reflexivity | intros _; exact E].
    - exists false. split; [reflexivity | discriminate]. }
  destruct Hthis as [b [Eb Hb]]. rewrite Eb. cbn [bind].
  set (su := if b then (start - 1, used + 1) else (start, used)).
  assert (Hsu : 0 <= fst su /\ 0 < snd su
                /\ fst su + snd su <= Z.of_nat (List.length (words c))).
  { unfold su. destruct b; simpl; [specialize (Hb eq_refl)|]; lia. }
  destruct su as [start' used']. simpl in Hsu. destruct Hsu as [Hs0 [Hs1 Hs2]].
  destruct (blank_range_returns (Z.to_nat used') (words c) start' 0) as [ws [Ews Hws]];
    [lia | lia |].
  rewrite Ews. cbn [bind].
  destruct (0 <=? start' - 1) eqn:E.
  - apply Z.leb_le in E. rewrite get_py_in_range by lia. cbn [bind].
    destruct (mem _ markers).
    + rewrite set_py_in_range by lia. cbn [bind]. eexists. repeat split.
    + cbn [bind]. eexists. repeat split.
  - cbn [bind]. eexists. repeat split.
Qed.

Lemma date_followup_weekday : forall dateNow idx w c start used,
  mem w days = true ->
  date_followup dateNow idx w c start used = (c, start, used).
Proof.
  intros dateNow idx w c start used Hw. unfold date_followup.
  destruct (mem_days_cases w Hw) as [E|[E|[E|[E|[E|[E|E]]]]]]; subst w; reflexivity.
Qed.


(** ** The time sweep *)

Lemma contains_in_empty : forall s, contains s "" = true -> s = "".
Proof. intros s H. destruct s; [reflexivity | discriminate]. Qed.


(** * The budgets of the model are enough

    The loop of [extract_numbers_with_text] and the recursion of
    [_extract_number_with_text_en] are written with a bound on their
    turns.  The bounds chosen are never reached: every turn of the loop
    masks a token that was not masked, and every nested call is on fewer
    tokens. *)

Create HintDb budget.

Lemma within_ret : forall (A : Type) (a : A), within_budget (Ret a).
Proof. intros A a H. discriminate H. Qed.

Lemma within_bind : forall (A B : Type) (m : outcome A) (k : A -> outcome B),
  within_budget m -> (forall a, m = Ret a -> within_budget (k a)) ->
  within_budget (bind m k).
Proof.
  intros A B m k Hm Hk. destruct m as [a|e]; simpl.
  - now apply Hk.
  - intros E. apply Hm. inversion E. reflexivity.
Qed.

Lemma within_raise : forall (A : Type) (e : exn),
  e <> FuelExhausted -> within_budget (@Raise A e).
Proof. intros A e H E. inversion E. contradiction. Qed.

Lemma within_float_of_Z : forall n, within_budget (float_of_Z n).
Proof.
  intros n. unfold float_of_Z.
  destruct (is_infinity _); [apply within_raise; discriminate | apply within_ret].
Qed.

Lemma within_as_number : forall v, within_budget (as_number v).
Proof. intros [| |z|f]; simpl; try apply within_ret. apply within_raise; discriminate. Qed.

Lemma within_py_arith : forall fz ff a b, within_budget (py_arith fz ff a b).
Proof.
  intros fz ff a b. unfold py_arith.
  apply within_bind; [apply within_as_number|]. intros x _.
  apply within_bind; [apply within_as_number|]. intros y _.
  destruct x, y; try apply within_ret;
    (apply within_bind; [apply within_float_of_Z | intros; apply within_ret]).
Qed.

Lemma within_py_const : forall v c,
  within_budget (py_lt_const v c) /\ within_budget (py_gt_const v c)
  /\ within_budget (py_ge_const v c).
Proof.
  intros v c. unfold py_lt_const, py_gt_const, py_ge_const.
  repeat split; (apply within_bind; [apply within_as_number | intros; apply within_ret]).
Qed.

Lemma within_float_of_string : forall s, within_budget (float_of_string s).
Proof.
  intros s. unfold float_of_string.
  destruct (parse_float s); [apply within_ret | apply within_raise; discriminate].
Qed.

Lemma within_int_of_string : forall s, within_budget (int_of_string s).
Proof.
  intros s. unfold int_of_string.
  destruct (signed_digits s); [apply within_ret | apply within_raise; discriminate].
Qed.

Lemma within_float_div : forall a b, within_budget (float_div a b).
Proof.
  intros a b. unfold float_div.
  destruct (PrimFloat.eqb b _); [apply within_raise; discriminate | apply within_ret].
Qed.

Lemma within_py_sum_from : forall l acc, within_budget (py_sum_from acc l).
Proof.
  induction l as [|x l IH]; intros acc; simpl.
  - apply within_ret.
  - apply within_bind; [apply within_py_arith | intros; apply IH].
Qed.

Ltac budget_step :=
  match goal with
  | |- within_budget (Ret _) => apply within_ret
  | |- within_budget (bind _ _) => apply within_bind; [| intros ? ?]
  | |- within_budget (py_add _ _) => apply within_py_arith
  | |- within_budget (py_sub _ _) => apply within_py_arith
  | |- within_budget (py_mul _ _) => apply within_py_arith
  | |- within_budget (py_lt_const _ _) => apply within_py_const
  | |- within_budget (py_gt_const _ _) => apply within_py_const
  | |- within_budget (py_ge_const _ _) => apply within_py_const
  | |- within_budget (float_of_string _) => apply within_float_of_string
  | |- within_budget (int_of_string _) => apply within_int_of_string
  | |- within_budget (float_div _ _) => apply within_float_div
  | |- within_budget (py_sum _) => apply within_py_sum_from
  | |- within_budget (Raise _) => apply within_raise; discriminate
  | |- within_budget (if ?b then _ else _) => destruct b
  | |- within_budget (match ?x with _ => _ end) => destruct x
  end.

Lemma within_token_value : forall ss ord w pw nw st,
  within_budget (token_value ss ord w pw nw st).
Proof.
  intros ss ord w pw nw st. unfold token_value.
  destruct (_initialize_number_data ss) as [[multiplies sno] sns].
  repeat budget_step.
Qed.

(** ** What the scan returns *)

Lemma increasing_app : forall a b,
  increasing (a ++ b)
  <-> increasing a /\ increasing b
      /\ (forall x y, In x a -> In y b -> index x < index y).
Proof.
  induction a as [|t a IH]; intros b; simpl.
  - split; [intros H; repeat split; [exact H | intros x y []] | tauto].
  - rewrite IH. split.
    + intros [H1 [H2 [H3 H4]]]. repeat split; auto.
      * intros u Hu. apply H1, in_or_app. now left.
      * intros x y [<- | Hx] Hy; [apply H1, in_or_app; now right | now apply H4].
    + intros [[H1 H2] [H3 H4]]. repeat split; auto.
      intros u Hu. apply in_app_or in Hu. destruct Hu as [Hu | Hu]; auto.
Qed.

Lemma increasing_drop_middle : forall a t b,
  increasing (a ++ t :: b) -> increasing (a ++ b) /\ increasing (t :: b).
Proof.
  intros a t b H. apply increasing_app in H. destruct H as [Ha [Htb Hc]].
  split; [|exact Htb].
  apply increasing_app. repeat split; [exact Ha | apply Htb |].
  intros x y Hx Hy. apply Hc; [exact Hx | now right].
Qed.

Lemma mem_app_false : forall w a b,
  mem w a || mem w b = false -> mem w (a ++ b) = false.
Proof.
  intros w a b H. unfold mem in *. rewrite existsb_app. exact H.
Qed.

Lemma placeholder_not_a_word_of_numbers :
  mem placeholder ARTICLES || mem placeholder _NEGATIVES = false
  /\ forall ss ord, unknown_word placeholder ss ord = true.
Proof.
  split; [reflexivity|]. intros [] []; vm_compute; reflexivity.
Qed.

Lemma plain_of_article : forall t,
  mem (word t) ARTICLES || mem (word t) _NEGATIVES = true -> plain t = true.
Proof.
  intros t H. unfold plain. destruct (String.eqb_spec (word t) placeholder) as [E|E].
  - rewrite E in H. now rewrite (proj1 placeholder_not_a_word_of_numbers) in H.
  - reflexivity.
Qed.

Lemma plain_of_known : forall t ss ord,
  unknown_word (word t) ss ord = false -> plain t = true.
Proof.
  intros t ss ord H. unfold plain.
  destruct (String.eqb_spec (word t) placeholder) as [E|E].
  - rewrite E in H. now rewrite (proj2 placeholder_not_a_word_of_numbers) in H.
  - reflexivity.
Qed.

Lemma existsb_outside_run : forall L nw,
  existsb (outside L) nw = true ->
  negb (Nat.eqb (List.length nw) 0)
  && negb (forallb (fun x => mem x L) (map word nw)) = true.
Proof.
  induction nw as [|t nw IH]; simpl; intros H; [discriminate|].
  unfold outside at 1 in H.
  destruct (mem (word t) L); simpl in *; [|reflexivity].
  specialize (IH H). apply andb_prop in IH. exact (proj2 IH).
Qed.

Lemma scan_token_inv : forall ss ord T idx token rest st fl st',
  scan_token ss ord T idx token st = Ret (fl, st') ->
  In token T ->
  scan_inv T (token :: rest) st ->
  scan_inv T rest st'.
Proof.
  intros ss ord T idx token rest st fl st' H Hin [I1 [I2 I3]].
  unfold scan_token in H.
  destruct (_initialize_number_data ss) as [[multiplies sno] sns].
  destruct (mem (word token) ARTICLES || mem (word token) _NEGATIVES) eqn:Ea.
  - inversion H; subst; clear H. unfold scan_inv; cbn [number_words val prev_val to_sum]. repeat split.
    + apply in_app_or in H. destruct H as [H | [<- | []]]; [now apply I1 | exact Hin].
    + apply in_app_or in H. destruct H as [H | [<- | []]];
        [now apply I1 | now apply plain_of_article].
    + now rewrite <- app_assoc.
    + intros Hv. rewrite existsb_app. now rewrite (I3 Hv).
  - destruct (unknown_word (word token) ss ord) eqn:Eu.
    + destruct (negb _ && negb _) eqn:Eb; inversion H; subst; clear H.
      * unfold scan_inv. repeat split; try (now apply I1).
        -- exact (proj1 (increasing_drop_middle _ _ _ I2)).
        -- exact I3.
      * unfold scan_inv; cbn [number_words val prev_val to_sum]. repeat split; try contradiction.
        -- exact (proj2 (proj2 (increasing_drop_middle _ _ _ I2))).
        -- intros Hv. apply I3 in Hv. apply existsb_outside_run in Hv.
           rewrite Hv in Eb. discriminate.
    + destruct (token_value ss ord _ _ _ st) as [[[v pv] ts]|e]; [|discriminate].
      cbn [bind] in H. inversion H; subst; clear H.
      assert (Hp : plain token = true) by now apply plain_of_known in Eu.
      assert (Ho : outside (ARTICLES ++ _NEGATIVES) token = true).
      { unfold outside. now rewrite mem_app_false. }
      destruct (increasing_drop_middle _ _ _ I2) as [_ Htr].
      unfold scan_inv; cbn [number_words val prev_val to_sum].
      match goal with |- context [if ?b then [token] else _] => destruct b end;
        [| match goal with |- context [if ?b then [token] else _] => destruct b end ];
        repeat split.
      * destruct H as [<- | []]. exact Hin.
      * destruct H as [<- | []]. exact Hp.
      * apply Htr.
      * apply Htr.
      * intros _. cbn [existsb]. now rewrite Ho.
      * destruct H as [<- | []]. exact Hin.
      * destruct H as [<- | []]. exact Hp.
      * apply Htr.
      * apply Htr.
      * intros _. cbn [existsb]. now rewrite Ho.
      * apply in_app_or in H. destruct H as [H | [<- | []]]; [now apply I1 | exact Hin].
      * apply in_app_or in H. destruct H as [H | [<- | []]]; [now apply I1 | exact Hp].
      * now rewrite <- app_assoc.
      * intros _. rewrite existsb_app. cbn [existsb]. rewrite Ho. now rewrite orb_true_r.
Qed.

Lemma scan_loop_inv : forall ss ord T rest idx st st',
  scan_loop ss ord T idx rest st = Ret st' ->
  (forall t, In t rest -> In t T) ->
  scan_inv T rest st ->
  scan_inv T [] st'.
Proof.
  induction rest as [|token rest IH]; intros idx st st' H Hsub Hinv; simpl in H.
  - inversion H; subst. exact Hinv.
  - destruct (scan_token ss ord T idx token st) as [[fl st1]|e] eqn:E; [|discriminate].
    cbn [bind] in H.
    assert (H1 : scan_inv T rest st1).
    { eapply scan_token_inv; [exact E | apply Hsub; now left | exact Hinv]. }
    assert (Hend : scan_inv T rest st1 -> scan_inv T [] st1).
    { intros [J1 [J2 J3]]. repeat split; try (now apply J1); [|exact J3].
      apply increasing_app in J2. rewrite app_nil_r. apply J2. }
    destruct fl.
    + eapply IH; [exact H | intros t Ht; apply Hsub; now right | exact H1].
    + inversion H; subst. now apply Hend.
    + eapply IH; [exact H | intros t Ht; apply Hsub; now right | exact H1].
Qed.

Lemma existsb_outside_weaken : forall a b nw,
  existsb (outside (a ++ b)) nw = true -> existsb (outside a) nw = true.
Proof.
  induction nw as [|t nw IH]; simpl; intros H; [discriminate|].
  apply orb_true_iff in H. apply orb_true_iff. destruct H as [H | H]; [left | right; auto].
  unfold outside, mem in *. rewrite existsb_app in H.
  apply negb_true_iff in H. apply orb_false_iff in H. apply negb_true_iff. apply H.
Qed.

Lemma scan_tokens_sound : forall ss ord T r,
  increasing T ->
  scan_tokens ss ord T = Ret r -> sound T r.
Proof.
  intros ss ord T r HT H. unfold scan_tokens in H.
  destruct (scan_loop ss ord T 0 T _) as [st|e] eqn:E; [|discriminate].
  cbn [bind] in H.
  assert (Hinv : scan_inv T [] st).
  { eapply scan_loop_inv; [exact E | auto |].
    repeat split; try contradiction.
    - exact HT.
    - intros [Hv | Hs]; [discriminate | now elim Hs]. }
  destruct Hinv as [J1 [J2 J3]]. rewrite app_nil_r in J2.
  destruct (negb (is_PNone (val st)) && negb (Nat.eqb (List.length (to_sum st)) 0)) eqn:Eb.
  - destruct (py_sum (to_sum st)) as [s|e]; [|discriminate]. cbn [bind] in H.
    destruct (py_add (val st) s) as [v|e]; [|discriminate]. cbn [bind] in H.
    inversion H; subst. repeat split; try (now apply J1); [exact J2|].
    intros _. cbn [snd]. apply existsb_outside_weaken with (b := _NEGATIVES).
    apply J3. right. intros Hn. rewrite Hn in Eb. simpl in Eb.
    now rewrite andb_false_r in Eb.
  - inversion H; subst. repeat split; try (now apply J1); [exact J2|].
    cbn [fst snd]. intros Hv. apply existsb_outside_weaken with (b := _NEGATIVES).
    apply J3. now left.
Qed.

Lemma within_scan_token : forall ss ord T idx token st,
  within_budget (scan_token ss ord T idx token st).
Proof.
  intros. unfold scan_token.
  destruct (_initialize_number_data ss) as [[multiplies sno] sns].
  destruct (_ || _); [apply within_ret|].
  destruct (unknown_word _ _ _).
  - destruct (_ && _); apply within_ret.
  - apply within_bind; [apply within_token_value|].
    intros [[v pv] ts] _. apply within_ret.
Qed.

Lemma within_scan_loop : forall ss ord T rest idx st,
  within_budget (scan_loop ss ord T idx rest st).
Proof.
  induction rest as [|token rest IH]; intros idx st; simpl.
  - apply within_ret.
  - apply within_bind; [apply within_scan_token|].
    intros [fl st'] _. destruct fl; [apply IH | apply within_ret | apply IH].
Qed.

Lemma within_scan_tokens : forall ss ord T, within_budget (scan_tokens ss ord T).
Proof.
  intros. unfold scan_tokens.
  apply within_bind; [apply within_scan_loop|]. intros st _.
  repeat budget_step.
Qed.

(** ** The pieces of a partition *)

Section Partition.

Variable A : Type.
Variable f : A -> bool.

Lemma partition_from_concat : forall items cur,
  List.concat (partition_from f cur items) = (cur ++ items)%list.
Proof.
  induction items as [|x items IH]; intros cur; simpl.
  - now rewrite !app_nil_r.
  - destruct (f x); simpl.
    + now rewrite IH.
    + rewrite IH. now rewrite <- app_assoc.
Qed.

Lemma keep_nonempty_concat : forall L : list (list A), List.concat (keep_nonempty L) = List.concat L.
Proof.
  induction L as [|p L IH]; simpl; [reflexivity|].
  destruct p as [|x p]; simpl; [exact IH | now rewrite IH].
Qed.

Lemma partition_concat : forall items,
  List.concat (_partition_list items f) = items.
Proof.
  intros items. unfold _partition_list.
  change (filter _ ?L) with (keep_nonempty L).
  now rewrite keep_nonempty_concat, partition_from_concat.
Qed.

Lemma keep_nonempty_pieces : forall (L : list (list A)) p,
  In p (keep_nonempty L) -> p <> [].
Proof.
  intros L p H. unfold keep_nonempty in H. apply filter_In in H.
  destruct H as [_ H]. now destruct p.
Qed.

Lemma alternating_cons_marker : forall m L,
  f m = true -> alternating f L = true -> alternating f ([m] :: L) = true.
Proof.
  intros m L Hm HL. cbn [alternating marker_piece]. rewrite Hm, HL.
  now destruct L.
Qed.

Lemma partition_from_alternating : forall items cur,
  run_piece f cur = true ->
  alternating f (keep_nonempty (partition_from f cur items)) = true.
Proof.
  induction items as [|x items IH]; intros cur Hcur; cbn [partition_from].
  - destruct cur as [|c cur]; [reflexivity|].
    cbn [keep_nonempty filter List.length Nat.eqb negb alternating].
    rewrite Hcur. now rewrite orb_true_r.
  - destruct (f x) eqn:Ex.
    + assert (Hrest : alternating f ([x] :: keep_nonempty (partition_from f [] items)) = true).
      { apply alternating_cons_marker; [exact Ex | now apply IH]. }
      assert (Hk : keep_nonempty (cur :: [x] :: partition_from f [] items)
                   = ((if negb (Nat.eqb (List.length cur) 0) then [cur] else [])
                      ++ [x] :: keep_nonempty (partition_from f [] items))%list).
      { unfold keep_nonempty. cbn [filter List.length Nat.eqb negb].
        now destruct (negb (Nat.eqb (List.length cur) 0)). }
      rewrite Hk.
      destruct cur as [|c cur]; cbn [List.length Nat.eqb negb app].
      * exact Hrest.
      * cbn [alternating] in Hrest |- *.
        rewrite Hcur. cbn [marker_piece] in Hrest |- *. rewrite Ex in *.
        rewrite !orb_true_r. cbn [andb orb] in Hrest |- *. exact Hrest.
    + apply IH. unfold run_piece in *. rewrite forallb_app, Hcur. simpl. now rewrite Ex.
Qed.

Lemma marker_piece_inv : forall p,
  marker_piece f p = true -> exists m, p = [m] /\ f m = true.
Proof.
  intros [|m [|x p]] H; try discriminate. now exists m.
Qed.

(** A partition in three pieces: the middle one is a separator, or both
    the outer ones are. *)
Lemma three_pieces : forall items p0 p1 p2,
  _partition_list items f = [p0; p1; p2] ->
  (p0 ++ p1 ++ p2)%list = items
  /\ p0 <> [] /\ p1 <> [] /\ p2 <> []
  /\ ((exists m, p1 = [m] /\ f m = true)
      \/ ((exists m, p0 = [m] /\ f m = true) /\ (exists m, p2 = [m] /\ f m = true))).
Proof.
  intros items p0 p1 p2 H.
  assert (Hc := partition_concat items). rewrite H in Hc. simpl in Hc.
  rewrite app_nil_r in Hc.
  assert (Hne : forall p, In p [p0; p1; p2] -> p <> []).
  { intros p Hp. rewrite <- H in Hp. unfold _partition_list in Hp.
    now apply keep_nonempty_pieces in Hp. }
  assert (Ha : alternating f [p0; p1; p2] = true).
  { rewrite <- H. unfold _partition_list. now apply partition_from_alternating. }
  split; [exact Hc|].
  split; [apply Hne; simpl; auto|]. split; [apply Hne; simpl; auto|].
  split; [apply Hne; simpl; auto|].
  cbn [alternating] in Ha.
  destruct (marker_piece f p1) eqn:E1.
  - left. now apply marker_piece_inv.
  - right.
    repeat (apply andb_prop in Ha; destruct Ha as [? Ha]).
    repeat match goal with
           | H : _ && _ = true |- _ => apply andb_prop in H; destruct H
           end.
    cbn [orb] in *.
    match goal with H : marker_piece f p0 || false = true |- _ =>
      rewrite orb_false_r in H end.
    split; now apply marker_piece_inv.
Qed.

End Partition.

(** ** A separator alone *)

Lemma number_marker_cases : forall w, mem w number_markers = true ->
  w = "and" \/ w = "point" \/ w = "dot".
Proof.
  intros w H. unfold mem, number_markers in H. simpl in H.
  repeat (apply orb_true_iff in H; destruct H as [H | H];
          [apply String.eqb_eq in H; auto |]).
  discriminate.
Qed.

Lemma body_single_marker : forall inner m ss ord,
  mem (word m) number_markers = true ->
  extract_number_body inner [m] ss ord = Ret (PFalse, []).
Proof.
  intros inner [w i] ss ord H. simpl in H.
  destruct (number_marker_cases w H) as [E | [E | E]]; subst w;
    destruct ss, ord; vm_compute; reflexivity.
Qed.

Lemma marker_is_plain : forall m,
  mem (word m) number_markers = true ->
  plain m = true /\ outside ARTICLES m = true.
Proof.
  intros [w i] H. simpl in H.
  destruct (number_marker_cases w H) as [E | [E | E]]; subst w; split; reflexivity.
Qed.

(** ** Tokens of a text *)

Lemma enumerate_from_increasing : forall ws i,
  increasing (map (fun iw : Z * string => mk_Token (snd iw) (fst iw))
                  (enumerate_from i ws))
  /\ forall t, In t (map (fun iw : Z * string => mk_Token (snd iw) (fst iw))
                         (enumerate_from i ws)) -> i <= index t.
Proof.
  induction ws as [|w ws IH]; intros i; simpl.
  - split; [exact I | intros t []].
  - destruct (IH (i + 1)) as [H1 H2]. split.
    + split; [|exact H1]. intros u Hu. apply H2 in Hu. simpl. lia.
    + intros t [<- | Ht]; simpl; [lia|]. apply H2 in Ht. lia.
Qed.

Lemma tokenize_increasing : forall text, increasing (_tokenize text).
Proof. intros text. apply enumerate_from_increasing. Qed.

Lemma tokenize_words_ok : forall text, words_ok (_tokenize text).
Proof. intros text. unfold words_ok. rewrite tokenize_words. apply split_words. Qed.

Lemma tokenize_length : forall text,
  List.length (_tokenize text) = List.length (split text).
Proof. intros text. rewrite <- tokenize_words. now rewrite length_map. Qed.

Lemma tokenize_join : forall ws,
  forallb is_word ws = true -> map word (_tokenize (join " " ws)) = ws.
Proof. intros ws H. rewrite tokenize_words. now apply split_join. Qed.

(** ** A turn of the loop masks a token that was not masked *)

Lemma pop_articles_head : forall nw,
  existsb (outside ARTICLES) nw = true ->
  exists pre h rest,
    nw = (pre ++ h :: rest)%list /\ pop_articles nw = h :: rest.
Proof.
  induction nw as [|t nw IH]; cbn [existsb pop_articles]; intros H; [discriminate|].
  unfold outside at 1 in H.
  destruct (mem (word t) ARTICLES) eqn:E; cbn [negb orb] in H.
  - destruct (IH H) as [pre [h [rest [E1 E2]]]].
    exists (t :: pre), h, rest. split; [now rewrite E1 | exact E2].
  - exists [], t, nw. split; reflexivity.
Qed.

Lemma last_of_increasing : forall h rest,
  increasing (h :: rest) ->
  exists l, hd_error (rev (h :: rest)) = Some l
            /\ In l (h :: rest) /\ index h <= index l.
Proof.
  intros h rest [H _].
  destruct (rev (h :: rest)) as [|l r] eqn:E.
  - apply (f_equal (@List.length _)) in E. rewrite length_rev in E. discriminate.
  - exists l. split; [reflexivity|].
    assert (Hl : In l (h :: rest)).
    { apply in_rev. rewrite E. now left. }
    split; [exact Hl|]. destruct Hl as [<- | Hl]; [lia|]. apply H in Hl. lia.
Qed.

Lemma count_plain_cons : forall w ws,
  count_plain (w :: ws)
  = ((if String.eqb w placeholder then 0 else 1) + count_plain ws)%nat.
Proof.
  intros w ws. unfold count_plain. cbn [filter].
  destruct (String.eqb w placeholder); reflexivity.
Qed.

Lemma mask_cases : forall s e t,
  mask s e t = word t \/ mask s e t = placeholder.
Proof. intros s e t. unfold mask. destruct (negb _); auto. Qed.

Lemma mask_count_le : forall s e T,
  (count_plain (map (mask s e) T) <= count_plain (map word T))%nat.
Proof.
  induction T as [|t T IH]; [apply Nat.le_refl|].
  cbn [map]. rewrite !count_plain_cons.
  destruct (mask_cases s e t) as [-> | ->].
  - lia.
  - rewrite String.eqb_refl. destruct (String.eqb (word t) placeholder); lia.
Qed.

Lemma mask_count_lt : forall s e T h,
  In h T -> plain h = true -> s <= index h <= e ->
  (count_plain (map (mask s e) T) < count_plain (map word T))%nat.
Proof.
  induction T as [|t T IH]; intros h Hin Hp Hse; [destruct Hin|].
  assert (Hle := mask_count_le s e T).
  cbn [map]. rewrite !count_plain_cons.
  destruct Hin as [-> | Hin].
  - unfold mask at 1.
    replace ((s <=? index h) && (index h <=? e)) with true
      by (symmetry; apply andb_true_iff; split; apply Z.leb_le; lia).
    cbn [negb]. rewrite String.eqb_refl.
    unfold plain in Hp. apply negb_true_iff in Hp. rewrite Hp. lia.
  - specialize (IH h Hin Hp Hse).
    destruct (mask_cases s e t) as [-> | ->].
    + lia.
    + rewrite String.eqb_refl. destruct (String.eqb (word t) placeholder); lia.
Qed.

Lemma mask_words_ok : forall s e T,
  words_ok T -> forallb is_word (map (mask s e) T) = true.
Proof.
  unfold words_ok. induction T as [|t T IH]; simpl; intros H; [reflexivity|].
  apply andb_prop in H. destruct H as [H1 H2]. rewrite (IH H2), andb_true_r.
  unfold mask. destruct (negb _); [exact H1 | reflexivity].
Qed.

Lemma count_plain_le_length : forall ws, (count_plain ws <= List.length ws)%nat.
Proof. intros ws. unfold count_plain. apply filter_length_le. Qed.

(** The loop does not exhaust its turns when there are more turns than
    tokens not yet masked, provided the inner extractor returns sound
    results and does not exhaust its own budget on texts of this length. *)
Lemma loop_within_budget : forall inner n,
  (forall T ss ord r, increasing T -> inner T ss ord = Ret r -> sound T r) ->
  (forall T ss ord, increasing T -> words_ok T -> (List.length T <= n)%nat ->
                    within_budget (inner T ss ord)) ->
  forall turns text ss ord results,
    (List.length (split text) <= n)%nat ->
    (count_plain (split text) < turns)%nat ->
    within_budget (extract_numbers_loop inner turns text ss ord results).
Proof.
  intros inner n Hsound Hwithin.
  induction turns as [|turns IH]; intros text ss ord results Hlen Hcount; [lia|].
  cbn [extract_numbers_loop]. unfold extract_number_with_text_en_in.
  assert (HT := tokenize_increasing text).
  assert (HW := tokenize_words_ok text).
  assert (HL := tokenize_length text).
  set (T := _tokenize text) in *.
  apply within_bind.
  { apply within_bind; [apply Hwithin; auto; lia |].
    intros [number nw] _. apply within_ret. }
  intros [[[number s0] start] stop] Hr.
  destruct (inner T ss ord) as [[number' nw]|e] eqn:Ei; [|discriminate].
  cbn [bind] in Hr. inversion Hr; subst; clear Hr.
  destruct (truthy number) eqn:Etr; cbn [negb]; [|apply within_ret].
  destruct (Hsound T ss ord _ HT Ei) as [S1 [S2 S3]]. cbn [fst snd] in *.
  destruct (pop_articles_head nw (S3 Etr)) as [pre [h [rest [Enw Epop]]]].
  rewrite Epop.
  assert (Hinc : increasing (h :: rest)).
  { rewrite Enw in S2. apply increasing_app in S2. apply S2. }
  destruct (last_of_increasing h rest Hinc) as [l [El [Hl Hhl]]].
  rewrite El. cbn [hd_error option_map].
  assert (Hh : In h T /\ plain h = true).
  { apply S1. rewrite Enw. apply in_or_app. right. now left. }
  set (ws' := map (fun t : _Token =>
                     if negb ((index h <=? index t) && (index t <=? index l))
                     then word t else placeholder) T).
  assert (Hws' : ws' = map (mask (index h) (index l)) T) by reflexivity.
  assert (Hok : forallb is_word ws' = true).
  { rewrite Hws'. now apply mask_words_ok. }
  assert (Hsplit : split (join " " ws') = ws') by now apply split_join.
  apply IH.
  - rewrite Hsplit, Hws', length_map. lia.
  - rewrite Hsplit, Hws'.
    assert (Hlt := mask_count_lt (index h) (index l) T h (proj1 Hh) (proj2 Hh)
                     ltac:(lia)).
    unfold T in Hlt at 2. rewrite tokenize_words in Hlt. lia.
Qed.

(** ** The fraction and decimal helpers *)

Lemma sound_of_tokens : forall T v toks, sound_tokens T toks -> sound T (v, toks).
Proof. intros T v toks [H1 [H2 H3]]. repeat split; auto; now apply H1. Qed.

Lemma words_ok_app : forall a b, words_ok (a ++ b) <-> words_ok a /\ words_ok b.
Proof.
  intros a b. unfold words_ok. rewrite map_app, forallb_app.
  split; [apply andb_prop | intros [-> ->]; reflexivity].
Qed.

(** Around a separator: the results on the two sides, with the separator
    between them, make a sound result on the whole. *)
Lemma join_around_marker : forall p0 m p2 r1 r2,
  increasing (p0 ++ [m] ++ p2) ->
  sound p0 r1 -> sound p2 r2 ->
  plain m = true -> outside ARTICLES m = true ->
  sound_tokens (p0 ++ [m] ++ p2) (snd r1 ++ [m] ++ snd r2).
Proof.
  intros p0 m p2 [v1 t1] [v2 t2] HT [A1 [A2 _]] [B1 [B2 _]] Hp Ho.
  cbn [fst snd] in *.
  apply increasing_app in HT. destruct HT as [H0 [H12 Hc0]].
  apply increasing_app in H12. destruct H12 as [_ [H2 Hc1]].
  repeat split.
  - apply in_app_or in H. destruct H as [H | H].
    + apply in_or_app. left. now apply A1.
    + apply in_or_app. right. apply in_app_or in H. destruct H as [H | H].
      * apply in_or_app. now left.
      * apply in_or_app. right. now apply B1.
  - apply in_app_or in H. destruct H as [H | H]; [now apply A1|].
    apply in_app_or in H. destruct H as [[<- | []] | H]; [exact Hp | now apply B1].
  - apply increasing_app. split; [exact A2|]. split.
    + apply increasing_app. split; [simpl; split; [intros u [] | exact I]|].
      split; [exact B2|]. intros x y [<- | []] Hy.
      apply Hc1; [now left | now apply B1].
    + intros x y Hx Hy. apply Hc0; [now apply A1|].
      apply in_app_or in Hy. destruct Hy as [Hy | Hy].
      * apply in_or_app. now left.
      * apply in_or_app. right. now apply B1.
  - rewrite !existsb_app. cbn [existsb]. rewrite Ho. cbn [orb].
    now rewrite orb_true_r.
Qed.

Section Helpers.

Variable inner : list _Token -> bool -> bool -> outcome (pyval * list _Token).

Hypothesis inner_sound :
  forall T ss ord r, increasing T -> inner T ss ord = Ret r -> sound T r.

Hypothesis inner_single :
  forall m ss ord r, mem (word m) number_markers = true ->
                     inner [m] ss ord = Ret r -> r = (PFalse, []).

Lemma marker_of_test : forall c (m : _Token),
  mem c number_markers = true -> String.eqb (word m) c = true ->
  mem (word m) number_markers = true.
Proof. intros c m Hc E. apply String.eqb_eq in E. now rewrite E. Qed.

Lemma fraction_markers_sound : forall ms T res,
  increasing T ->
  (forall c, In c ms -> mem c number_markers = true) ->
  _extract_fraction_markers inner ms T = Ret (Some res) ->
  sound_tokens T (snd res).
Proof.
  induction ms as [|c ms IH]; intros T res HT Hm H; [discriminate|].
  assert (Hc : mem c number_markers = true) by (apply Hm; now left).
  assert (Hm' : forall c', In c' ms -> mem c' number_markers = true)
    by (intros c' Hc'; apply Hm; now right).
  cbn [_extract_fraction_markers] in H.
  destruct (_partition_list T (fun t => String.eqb (word t) c))
    as [|p0 [|p1 [|p2 [|p3 L]]]] eqn:Ep; try (now apply IH).
  destruct (extract_numbers_with_text_in inner _ true false) as [numbers|e];
    [|discriminate].
  cbn [bind] in H. destruct (1 <? List.length numbers)%nat; [discriminate|].
  destruct (three_pieces _ _ T p0 p1 p2 Ep) as [ET [_ [_ [_ Hcase]]]].
  subst T.
  assert (HT' := HT). apply increasing_app in HT'. destruct HT' as [I0 [I12 _]].
  apply increasing_app in I12. destruct I12 as [_ [I2 _]].
  destruct (inner p0 true false) as [[num1 tokens1]|e] eqn:E0; [|discriminate].
  cbn [bind] in H.
  destruct (inner p2 true false) as [[num2 tokens2]|e] eqn:E2; [|discriminate].
  cbn [bind] in H.
  destruct Hcase as [[m [-> Hfm]] | [[m0 [-> Hf0]] _]].
  - match type of H with
    | bind ?o _ = _ => destruct o as [ok|e]; [|discriminate]
    end.
    cbn [bind] in H. destruct ok; [|now apply IH].
    destruct (py_add num1 num2) as [s|e]; [|discriminate].
    cbn [bind] in H. inversion H; subst res. cbn [snd].
    destruct (marker_is_plain m (marker_of_test c m Hc Hfm)) as [Hp Ho].
    apply (join_around_marker p0 m p2 (num1, tokens1) (num2, tokens2)); auto;
      eapply inner_sound; eauto.
  - apply inner_single in E0; [|now apply (marker_of_test c)].
    inversion E0; subst num1 tokens1.
    destruct (is_PNone num2); cbn in H; now apply IH.
Qed.

Lemma decimal_markers_sound : forall ms T res,
  increasing T ->
  (forall c, In c ms -> mem c number_markers = true) ->
  _extract_decimal_markers inner ms T = Ret (Some res) ->
  sound_tokens T (snd res).
Proof.
  induction ms as [|c ms IH]; intros T res HT Hm H; [discriminate|].
  assert (Hc : mem c number_markers = true) by (apply Hm; now left).
  assert (Hm' : forall c', In c' ms -> mem c' number_markers = true)
    by (intros c' Hc'; apply Hm; now right).
  cbn [_extract_decimal_markers] in H.
  destruct (_partition_list T (fun t => String.eqb (word t) c))
    as [|p0 [|p1 [|p2 [|p3 L]]]] eqn:Ep; try (now apply IH).
  destruct (extract_numbers_with_text_in inner _ true false) as [numbers|e];
    [|discriminate].
  cbn [bind] in H. destruct (1 <? List.length numbers)%nat; [discriminate|].
  destruct (three_pieces _ _ T p0 p1 p2 Ep) as [ET [_ [_ [_ Hcase]]]].
  subst T.
  assert (HT' := HT). apply increasing_app in HT'. destruct HT' as [I0 [I12 _]].
  apply increasing_app in I12. destruct I12 as [_ [I2 _]].
  destruct (inner p0 true false) as [[number tokens1]|e] eqn:E0; [|discriminate].
  cbn [bind] in H.
  destruct (inner p2 true false) as [[decimal tokens2]|e] eqn:E2; [|discriminate].
  cbn [bind] in H.
  destruct Hcase as [[m [-> Hfm]] | [[m0 [-> Hf0]] [m2 [-> Hf2]]]].
  - destruct (negb (is_PNone number) && negb (is_PNone decimal)); [|now apply IH].
    destruct (negb (contains "." (str_of_pyval decimal))); [|now apply IH].
    destruct (float_of_string _) as [f|e]; [|discriminate]. cbn [bind] in H.
    destruct (py_add number (PFloat f)) as [s|e]; [|discriminate].
    cbn [bind] in H. inversion H; subst res. cbn [snd].
    destruct (marker_is_plain m (marker_of_test c m Hc Hfm)) as [Hp Ho].
    apply (join_around_marker p0 m p2 (number, tokens1) (decimal, tokens2)); auto;
      eapply inner_sound; eauto.
  - apply inner_single in E0; [|now apply (marker_of_test c)].
    apply inner_single in E2; [|now apply (marker_of_test c)].
    inversion E0; inversion E2; subst.
    cbn in H. discriminate H.
Qed.

Lemma body_sound : forall T ss ord r,
  increasing T -> extract_number_body inner T ss ord = Ret r -> sound T r.
Proof.
  intros T ss ord r HT H. unfold extract_number_body in H.
  assert (Hf : forall c, In c _FRACTION_MARKER -> mem c number_markers = true).
  { intros c [<- | []]. reflexivity. }
  assert (Hd : forall c, In c _DECIMAL_MARKER -> mem c number_markers = true).
  { intros c [<- | [<- | []]]; reflexivity. }
  destruct (_extract_fraction inner T) as [fr|e] eqn:Ef; [|discriminate].
  cbn [bind] in H.
  assert (Hfr : forall res, truthy_result fr = Some res -> sound_tokens T (snd res)).
  { intros res E. destruct fr as [[v t]|]; [|discriminate]. cbn in E.
    destruct (truthy v); [|discriminate]. inversion E; subst.
    apply (fraction_markers_sound _ _ _ HT Hf Ef). }
  destruct (truthy_result fr) as [res|].
  - inversion H; subst. destruct r as [v toks].
    apply sound_of_tokens. exact (Hfr (v, toks) eq_refl).
  - destruct (_extract_decimal inner T) as [de|e] eqn:Ed; [|discriminate].
    cbn [bind] in H.
    assert (Hde : forall res, truthy_result de = Some res -> sound_tokens T (snd res)).
    { intros res E. destruct de as [[v t]|]; [|discriminate]. cbn in E.
      destruct (truthy v); [|discriminate]. inversion E; subst.
      apply (decimal_markers_sound _ _ _ HT Hd Ed). }
    destruct (truthy_result de) as [res|].
    + inversion H; subst. destruct r as [v toks].
      apply sound_of_tokens. exact (Hde (v, toks) eq_refl).
    + now apply scan_tokens_sound in H.
Qed.

End Helpers.

(** ** The budget is enough *)

Section Within.

Variable inner : list _Token -> bool -> bool -> outcome (pyval * list _Token).
Variable n : nat.

Hypothesis inner_sound :
  forall T ss ord r, increasing T -> inner T ss ord = Ret r -> sound T r.

Hypothesis inner_within :
  forall T ss ord, increasing T -> words_ok T -> (List.length T <= n)%nat ->
                   within_budget (inner T ss ord).

Lemma numbers_within : forall p ss ord,
  words_ok p -> (List.length p <= n)%nat ->
  within_budget (extract_numbers_with_text_in inner (join " " (map word p)) ss ord).
Proof.
  intros p ss ord Hp Hn. unfold extract_numbers_with_text_in.
  apply (loop_within_budget inner n inner_sound inner_within).
  - rewrite (split_join _ Hp), length_map. exact Hn.
  - rewrite tokenize_length.
    apply Nat.lt_succ_r, count_plain_le_length.
Qed.

(** What a partition in three gives for the budget: the outer pieces are
    shorter than the whole, and are token lists of the same kind. *)
Lemma outer_pieces : forall c T p0 p1 p2,
  increasing T -> words_ok T -> (List.length T <= S n)%nat ->
  _partition_list T (fun t => String.eqb (word t) c) = [p0; p1; p2] ->
  (increasing p0 /\ words_ok p0 /\ (List.length p0 <= n)%nat)
  /\ (increasing p2 /\ words_ok p2 /\ (List.length p2 <= n)%nat).
Proof.
  intros c T p0 p1 p2 HT HW HL Ep.
  destruct (three_pieces _ _ T p0 p1 p2 Ep) as [ET [N0 [N1 [N2 _]]]].
  subst T.
  apply increasing_app in HT. destruct HT as [I0 [I12 _]].
  apply increasing_app in I12. destruct I12 as [_ [I2 _]].
  apply words_ok_app in HW. destruct HW as [W0 W12].
  apply words_ok_app in W12. destruct W12 as [_ W2].
  rewrite !length_app in HL.
  assert (0 < List.length p0 /\ 0 < List.length p1 /\ 0 < List.length p2)%nat
    as [P0 [P1 P2]].
  { destruct p0; [contradiction|]. destruct p1; [contradiction|].
    destruct p2; [contradiction|]. cbn [List.length]. lia. }
  split; (split; [assumption | split; [assumption | lia]]).
Qed.

Lemma fraction_markers_within : forall ms T,
  increasing T -> words_ok T -> (List.length T <= S n)%nat ->
  within_budget (_extract_fraction_markers inner ms T).
Proof.
  induction ms as [|c ms IH]; intros T HT HW HL;
    cbn [_extract_fraction_markers]; [apply within_ret|].
  destruct (_partition_list T (fun t => String.eqb (word t) c))
    as [|p0 [|p1 [|p2 [|p3 L]]]] eqn:Ep; try (now apply IH).
  destruct (outer_pieces c T p0 p1 p2 HT HW HL Ep)
    as [[I0 [W0 L0]] [I2 [W2 L2]]].
  apply within_bind; [now apply numbers_within|]. intros numbers _.
  destruct (1 <? List.length numbers)%nat; [apply within_ret|].
  apply within_bind; [now apply inner_within|]. intros [num1 tokens1] _.
  apply within_bind; [now apply inner_within|]. intros [num2 tokens2] _.
  apply within_bind; [repeat budget_step|]. intros ok _.
  destruct ok; [repeat budget_step | now apply IH].
Qed.

Lemma decimal_markers_within : forall ms T,
  increasing T -> words_ok T -> (List.length T <= S n)%nat ->
  within_budget (_extract_decimal_markers inner ms T).
Proof.
  induction ms as [|c ms IH]; intros T HT HW HL;
    cbn [_extract_decimal_markers]; [apply within_ret|].
  destruct (_partition_list T (fun t => String.eqb (word t) c))
    as [|p0 [|p1 [|p2 [|p3 L]]]] eqn:Ep; try (now apply IH).
  destruct (outer_pieces c T p0 p1 p2 HT HW HL Ep)
    as [[I0 [W0 L0]] [I2 [W2 L2]]].
  apply within_bind; [now apply numbers_within|]. intros numbers _.
  destruct (1 <? List.length numbers)%nat; [apply within_ret|].
  apply within_bind; [now apply inner_within|]. intros [number tokens1] _.
  apply within_bind; [now apply inner_within|]. intros [decimal tokens2] _.
  destruct (negb (is_PNone number) && negb (is_PNone decimal)); [|now apply IH].
  destruct (negb (contains "." (str_of_pyval decimal))); [|now apply IH].
  repeat budget_step.
Qed.

Lemma body_within : forall T ss ord,
  increasing T -> words_ok T -> (List.length T <= S n)%nat ->
  within_budget (extract_number_body inner T ss ord).
Proof.
  intros T ss ord HT HW HL. unfold extract_number_body.
  apply within_bind; [now apply fraction_markers_within|]. intros fr _.
  destruct (truthy_result fr); [apply within_ret|].
  apply within_bind; [now apply decimal_markers_within|]. intros de _.
  destruct (truthy_result de); [apply within_ret | apply within_scan_tokens].
Qed.

End Within.

(** The extractor returns sound results, and a budget above the number
    of tokens is never exhausted. *)
Lemma extractor_budget : forall budget,
  (forall T ss ord r, increasing T ->
     _extract_number_with_text_en budget T ss ord = Ret r -> sound T r)
  /\ (forall T ss ord, increasing T -> words_ok T ->
        (List.length T < budget)%nat ->
        within_budget (_extract_number_with_text_en budget T ss ord)).
Proof.
  induction budget as [|b [IHs IHw]].
  - split; [discriminate | intros; lia].
  - split.
    + intros T ss ord r HT H. cbn [_extract_number_with_text_en] in H.
      apply (body_sound (_extract_number_with_text_en b) IHs) with (ss := ss) (ord := ord);
        auto.
      intros m ss' ord' r' Hm E. destruct b as [|b']; [discriminate|].
      cbn [_extract_number_with_text_en] in E.
      rewrite (body_single_marker _ m ss' ord' Hm) in E. now inversion E.
    + intros T ss ord HT HW HL. cbn [_extract_number_with_text_en].
      destruct b as [|b'].
      * destruct T; [|cbn in HL; lia].
        intros E. vm_compute in E. discriminate E.
      * apply (body_within (_extract_number_with_text_en (S b')) b' IHs); auto; try lia.
        intros T' ss' ord' HT' HW' HL'. apply IHw; auto. lia.
Qed.

Lemma tokens_sound : forall T ss ord r,
  increasing T -> extract_number_tokens T ss ord = Ret r -> sound T r.
Proof.
  intros T ss ord r. unfold extract_number_tokens.
  apply (proj1 (extractor_budget (S (List.length T)))).
Qed.

Lemma tokens_within : forall T ss ord,
  increasing T -> words_ok T -> within_budget (extract_number_tokens T ss ord).
Proof.
  intros T ss ord HT HW. unfold extract_number_tokens.
  apply (proj2 (extractor_budget (S (List.length T)))); auto.
Qed.

Lemma within_extract_number : forall text ss ord,
  within_budget (extract_number_with_text_en text ss ord).
Proof.
  intros text ss ord.
  unfold extract_number_with_text_en, extract_number_with_text_en_in.
  apply within_bind.
  - apply tokens_within; [apply tokenize_increasing | apply tokenize_words_ok].
  - intros [number tokens] _. apply within_ret.
Qed.

Lemma within_extract_numbers : forall text ss ord,
  within_budget (extract_numbers_with_text text ss ord).
Proof.
  intros text ss ord.
  unfold extract_numbers_with_text, extract_numbers_with_text_in.
  apply (loop_within_budget extract_number_tokens (List.length (split text))).
  - exact tokens_sound.
  - intros T ss' ord' HT HW _. now apply tokens_within.
  - apply Nat.le_refl.
  - rewrite tokenize_length. apply Nat.lt_succ_r, count_plain_le_length.
Qed.

Lemma within_convert : forall text ss ord,
  within_budget (convert_words_to_numbers text ss ord).
Proof.
  intros text ss ord. unfold convert_words_to_numbers.
  apply within_bind; [apply within_extract_numbers|]. intros numbers _.
  apply within_ret.
Qed.

Lemma within_map_outcome : forall (A B : Type) (f : A -> outcome B) l,
  (forall a, within_budget (f a)) -> within_budget (map_outcome f l).
Proof.
  intros A B f l Hf. induction l as [|x l IH]; cbn [map_outcome].
  - apply within_ret.
  - apply within_bind; [apply Hf|]. intros y _.
    apply within_bind; [apply IH|]. intros ys _. apply within_ret.
Qed.

Lemma within_duration_units : forall units text pieces,
  within_budget (duration_units units text pieces).
Proof.
  induction units as [|[unit value] units IH]; intros text pieces;
    cbn [duration_units].
  - apply within_ret.
  - apply within_bind; [|intros; apply IH].
    apply within_map_outcome. intros s. repeat budget_step.
Qed.

(** The recursion budgets of the model are never exhausted: whatever the
    text, the number extractors, the rewriter and the duration extractor
    return a value or raise one of Python's exceptions. *)
Theorem budget_is_enough : forall text ss ord,
  within_budget (extract_number_with_text_en text ss ord)
  /\ within_budget (extractnumber_en text ss ord)
  /\ within_budget (extract_numbers_with_text text ss ord)
  /\ within_budget (convert_words_to_numbers text ss ord)
  /\ within_budget (extract_duration_en text).
Proof.
  intros text ss ord.
  split; [apply within_extract_number|].
  split.
  { unfold extractnumber_en.
    apply within_bind; [apply within_extract_number|].
    intros [[[number s] a] b] _. apply within_ret. }
  split; [apply within_extract_numbers|].
  split; [apply within_convert|].
  unfold extract_duration_en.
  destruct (negb (nonempty text)); [apply within_ret|].
  apply within_bind; [apply within_convert|]. intros text' _.
  apply within_bind; [apply within_duration_units|]. intros [pieces rest] _.
  apply within_bind; [apply within_py_sum_from|]. intros duration _.
  apply within_ret.
Qed.

(** ** The date and time extractor *)

#[local] Hint Resolve within_ret within_py_arith within_float_of_string
  within_int_of_string within_float_div within_py_sum_from
  within_extract_number within_extract_numbers within_convert : budget.

Ltac within_go := repeat first [ solve [auto with budget] | budget_step ].

Lemma within_first_char : forall s, within_budget (first_char s).
Proof. intros s. unfold first_char. within_go. Qed.
#[local] Hint Resolve within_first_char : budget.

Lemma within_first_isdigit : forall s, within_budget (first_isdigit s).
Proof. intros s. unfold first_isdigit. within_go. Qed.
#[local] Hint Resolve within_first_isdigit : budget.

Lemma within_extractnumber : forall text ss ord,
  within_budget (extractnumber_en text ss ord).
Proof. intros. unfold extractnumber_en. within_go. Qed.
#[local] Hint Resolve within_extractnumber : budget.

Lemma within_replace_date : forall d y m dd, within_budget (replace_date d y m dd).
Proof. intros. unfold replace_date. within_go. Qed.
#[local] Hint Resolve within_replace_date : budget.

Lemma within_add_seconds : forall d n, within_budget (add_seconds d n).
Proof. intros. unfold add_seconds. within_go. Qed.
#[local] Hint Resolve within_add_seconds : budget.

Lemma within_add_years_months : forall d ys ms, within_budget (add_years_months d ys ms).
Proof. intros. unfold add_years_months. within_go. Qed.
#[local] Hint Resolve within_add_years_months : budget.

Lemma within_make_date : forall y m d, within_budget (make_date y m d).
Proof. intros. unfold make_date. within_go. Qed.
#[local] Hint Resolve within_make_date : budget.

Lemma within_strptime_Bd : forall s, within_budget (strptime_Bd s).
Proof. intros. unfold strptime_Bd. within_go. Qed.

Lemma within_strptime_BdY : forall s, within_budget (strptime_BdY s).
Proof. intros. unfold strptime_BdY. within_go. Qed.
#[local] Hint Resolve within_strptime_Bd within_strptime_BdY : budget.

Lemma within_parse_datestr : forall s, within_budget (parse_datestr s).
Proof.
  intros s. unfold parse_datestr.
  assert (H := within_strptime_Bd s).
  destruct (strptime_Bd s) as [t|e]; [apply within_ret|].
  destruct e; try exact H; auto with budget.
Qed.
#[local] Hint Resolve within_parse_datestr : budget.

Lemma within_get_py : forall l i, within_budget (get_py l i).
Proof. intros. unfold get_py. within_go. Qed.

Lemma within_set_py : forall l i v, within_budget (set_py l i v).
Proof. intros. unfold set_py. within_go. Qed.
#[local] Hint Resolve within_get_py within_set_py : budget.

Lemma within_blank_range : forall count l start i,
  within_budget (blank_range l start i count).
Proof. induction count; intros; cbn [blank_range]; within_go. Qed.
#[local] Hint Resolve within_blank_range : budget.

Lemma within_py_int : forall v, within_budget (py_int v).
Proof. intros. unfold py_int. within_go. Qed.
#[local] Hint Resolve within_py_int : budget.

Lemma within_clean_word : forall w, within_budget (clean_word w).
Proof. intros. unfold clean_word. within_go. Qed.

Lemma within_clean_string : forall s, within_budget (clean_string s).
Proof.
  intros. unfold clean_string. apply within_map_outcome, within_clean_word.
Qed.
#[local] Hint Resolve within_clean_string : budget.

Lemma within_counted_unit : forall wp old per acc start used,
  within_budget (counted_unit wp old per acc start used).
Proof. intros. unfold counted_unit. within_go. Qed.
#[local] Hint Resolve within_counted_unit : budget.

Lemma within_month_branch : forall w wpp wp wn wnn idx c start used,
  within_budget (month_branch w wpp wp wn wnn idx c start used).
Proof. intros. unfold month_branch. within_go. Qed.
#[local] Hint Resolve within_month_branch : budget.

Lemma within_date_branch : forall dateNow idx w c,
  within_budget (date_branch dateNow idx w c).
Proof. intros. unfold date_branch. within_go. Qed.
#[local] Hint Resolve within_date_branch : budget.

Lemma within_date_consume : forall c start used,
  within_budget (date_consume c start used).
Proof. intros. unfold date_consume. within_go. Qed.
#[local] Hint Resolve within_date_consume : budget.

Lemma within_date_word : forall dateNow idx c,
  within_budget (date_word dateNow idx c).
Proof. intros. unfold date_word. within_go. Qed.
#[local] Hint Resolve within_date_word : budget.

Lemma within_date_sweep : forall turns dateNow idx c,
  within_budget (date_sweep dateNow idx turns c).
Proof. induction turns; intros; cbn [date_sweep]; within_go. Qed.
#[local] Hint Resolve within_date_sweep : budget.

Lemma within_int_or_zero : forall s, within_budget (int_or_zero s).
Proof. intros. unfold int_or_zero. within_go. Qed.
#[local] Hint Resolve within_int_or_zero : budget.

Lemma within_colon_qualifier : forall c p, within_budget (colon_qualifier c p).
Proof. intros. unfold colon_qualifier. within_go. Qed.
#[local] Hint Resolve within_colon_qualifier : budget.

Lemma within_colon_time : forall idx w wn wnn c,
  within_budget (colon_time idx w wn wnn c).
Proof. intros. unfold colon_time. within_go. Qed.

Lemma within_plain_time : forall idx w wp wn wnn c,
  within_budget (plain_time idx w wp wn wnn c).
Proof. intros. unfold plain_time. within_go. Qed.
#[local] Hint Resolve within_colon_time within_plain_time : budget.

Lemma within_clock_values : forall p, within_budget (clock_values p).
Proof. intros. unfold clock_values. within_go. Qed.
#[local] Hint Resolve within_clock_values : budget.

Lemma within_checked_clock : forall dateNow c p,
  within_budget (checked_clock dateNow c p).
Proof. intros. unfold checked_clock. within_go. Qed.
#[local] Hint Resolve within_checked_clock : budget.

Lemma within_digit_resolve : forall dateNow c p,
  within_budget (digit_resolve dateNow c p).
Proof. intros. unfold digit_resolve. within_go. Qed.
#[local] Hint Resolve within_digit_resolve : budget.

Lemma within_digit_time : forall dateNow idx w wp wn wnn c,
  within_budget (digit_time dateNow idx w wp wn wnn c).
Proof. intros. unfold digit_time. within_go. Qed.
#[local] Hint Resolve within_digit_time : budget.

Lemma within_blank_used : forall count l idx i,
  within_budget (blank_used l idx i count).
Proof. induction count; intros; cbn [blank_used]; within_go. Qed.
#[local] Hint Resolve within_blank_used : budget.

Lemma within_time_consume : forall idx wpp wp u c,
  within_budget (time_consume idx wpp wp u c).
Proof. intros. unfold time_consume. within_go. Qed.
#[local] Hint Resolve within_time_consume : budget.

Lemma within_hour_phrase : forall idx wpp wp c,
  within_budget (hour_phrase idx wpp wp c).
Proof. intros. unfold hour_phrase. within_go. Qed.
#[local] Hint Resolve within_hour_phrase : budget.

Lemma within_time_word : forall dateNow idx c,
  within_budget (time_word dateNow idx c).
Proof. intros. unfold time_word. within_go. Qed.
#[local] Hint Resolve within_time_word : budget.

Lemma within_time_sweep : forall turns dateNow idx c,
  within_budget (time_sweep dateNow idx turns c).
Proof. induction turns; intros; cbn [time_sweep]; within_go. Qed.
#[local] Hint Resolve within_time_sweep : budget.

Lemma within_apply_datestr : forall dateNow c d,
  within_budget (apply_datestr dateNow c d).
Proof. intros. unfold apply_datestr. within_go. Qed.

Lemma within_apply_anchor : forall dateNow dt c d,
  within_budget (apply_anchor dateNow dt c d).
Proof. intros. unfold apply_anchor. within_go. Qed.
#[local] Hint Resolve within_apply_datestr within_apply_anchor : budget.

Lemma within_blank_ands : forall turns ws idx,
  within_budget (blank_ands ws idx turns).
Proof. induction turns; intros; cbn [blank_ands]; within_go. Qed.
#[local] Hint Resolve within_blank_ands : budget.

Lemma within_add_if_nonzero : forall n f d,
  (forall d', within_budget (f d')) -> within_budget (add_if_nonzero n f d).
Proof. intros n f d H. unfold add_if_nonzero. destruct (negb _); [apply H | apply within_ret]. Qed.

Lemma within_compose_result : forall dateNow dt c,
  within_budget (compose_result dateNow dt c).
Proof.
  intros. unfold compose_result.
  repeat first [ apply within_add_if_nonzero; intros; auto with budget
               | progress within_go ].
Qed.
#[local] Hint Resolve within_compose_result : budget.

Lemma within_sweeps : forall dateNow s, within_budget (sweeps dateNow s).
Proof. intros. unfold sweeps. within_go. Qed.
#[local] Hint Resolve within_sweeps : budget.

(** Neither does [extract_datetime_en] exhaust a budget, whatever the
    text, the reference instant and the default time: the one place where
    it calls the number extractor is the multiplier of a decade, a century
    or a millennium. *)
Theorem extract_datetime_within_budget : forall s dateNow dt,
  within_budget (extract_datetime_en s dateNow dt).
Proof. intros. unfold extract_datetime_en. within_go. Qed.

(** * Further properties of the extractors

    What the code does at its edges and what its results always look
    like, for the functions the claims leave out or touch only in part. *)

(** ** Tokens *)

Lemma enumerate_from_nth : forall (A : Type) (l : list A) i n x,
  nth_error (enumerate_from i l) n = Some x ->
  fst x = i + Z.of_nat n /\ nth_error l n = Some (snd x).
Proof.
  induction l as [|a l IH]; intros i n x H.
  - destruct n; discriminate.
  - destruct n as [|n]; cbn in H.
    + inversion H; subst. cbn. split; [lia | reflexivity].
    + apply IH in H. destruct H as [H1 H2]. split; [lia | exact H2].
Qed.

Lemma tokenize_nth : forall text n t,
  nth_error (_tokenize text) n = Some t ->
  index t = Z.of_nat n
  /\ nth_error (split text) n = Some (word t)
  /\ is_word (word t) = true.
Proof.
  intros text n t H. unfold _tokenize in H.
  rewrite nth_error_map in H.
  destruct (nth_error (enumerate (split text)) n) as [[i w]|] eqn:E; [|discriminate].
  inversion H; subst t. cbn [index word].
  apply enumerate_from_nth in E. cbn [fst snd] in E. destruct E as [E1 E2].
  split; [lia|]. split; [exact E2|].
  assert (Hw := split_words text).
  rewrite forallb_forall in Hw. apply Hw. eapply nth_error_In. exact E2.
Qed.

(** [_tokenize]: the words of [text.split()], each with its place in the
    text counted from 0; a word is never empty and holds no white space,
    and the text with its white space normalised has the same tokens. *)
Theorem tokenize_numbers_the_words : forall text,
  List.length (_tokenize text) = List.length (split text)
  /\ (forall n t, nth_error (_tokenize text) n = Some t ->
        index t = Z.of_nat n
        /\ nth_error (split text) n = Some (word t)
        /\ is_word (word t) = true)
  /\ _tokenize (join " " (split text)) = _tokenize text.
Proof.
  intros text. split; [apply tokenize_length|].
  split; [apply tokenize_nth | apply tokenize_normalised].
Qed.

(** ** Partitions *)

Lemma alternating_pieces : forall (A : Type) (f : A -> bool) L p,
  alternating f L = true -> In p L ->
  marker_piece f p || run_piece f p = true.
Proof.
  induction L as [|q L IH]; intros p H Hp; [destruct Hp|].
  cbn [alternating] in H.
  apply andb_prop in H. destruct H as [H H3].
  apply andb_prop in H. destruct H as [H1 H2].
  destruct Hp as [<- | Hp]; [exact H1 | now apply IH].
Qed.

Lemma partition_from_no_separator : forall (A : Type) (f : A -> bool) items cur,
  forallb (fun x => negb (f x)) items = true ->
  partition_from f cur items = [(cur ++ items)%list].
Proof.
  induction items as [|x items IH]; intros cur H; cbn [partition_from].
  - now rewrite app_nil_r.
  - cbn [forallb] in H. apply andb_prop in H. destruct H as [Hx H].
    apply negb_true_iff in Hx. rewrite Hx, IH by exact H.
    now rewrite <- app_assoc.
Qed.

Lemma partition_pieces_shape : forall (A : Type) (f : A -> bool) (items : list A) p,
  In p (_partition_list items f) ->
  p <> []
  /\ ((exists m, p = [m] /\ f m = true)
      \/ forallb (fun x => negb (f x)) p = true).
Proof.
  intros A f items p Hp.
  assert (Ha : alternating f (_partition_list items f) = true).
  { unfold _partition_list. now apply partition_from_alternating. }
  split.
  - unfold _partition_list in Hp. now apply keep_nonempty_pieces in Hp.
  - assert (H := alternating_pieces A f _ p Ha Hp).
    apply orb_true_iff in H. destruct H as [H | H].
    + left. now apply marker_piece_inv.
    + right. exact H.
Qed.

Lemma partition_not_three : forall (A : Type) (f : A -> bool) items,
  forallb (fun x => negb (f x)) items = true ->
  _partition_list items f = match items with [] => [] | _ => [items] end.
Proof.
  intros A f items H. unfold _partition_list.
  rewrite partition_from_no_separator by exact H.
  now destruct items.
Qed.

(** [_partition_list] loses nothing and makes no empty piece: the pieces
    put end to end are the list; every piece is one separator alone or a
    run of items that are no separators; and of two neighbours one is a
    separator, so the runs are the longest ones.  A list without a
    separator comes back as one piece, the empty list as none. *)
Theorem partition_list_pieces : forall (A : Type) (f : A -> bool) (items : list A),
  List.concat (_partition_list items f) = items
  /\ (forall p, In p (_partition_list items f) ->
        p <> []
        /\ ((exists m, p = [m] /\ f m = true)
            \/ forallb (fun x => negb (f x)) p = true))
  /\ alternating f (_partition_list items f) = true
  /\ (forallb (fun x => negb (f x)) items = true ->
      _partition_list items f = match items with [] => [] | _ => [items] end).
Proof.
  intros A f items.
  split; [apply partition_concat|].
  split; [apply partition_pieces_shape|].
  split; [|apply partition_not_three].
  unfold _partition_list. now apply partition_from_alternating.
Qed.

(** ** The derived dictionaries *)

Lemma dict_get_app : forall (A : Type) (d1 d2 : dict A) k,
  dict_get k (d1 ++ d2)%list
  = match dict_get k d1 with Some v => Some v | None => dict_get k d2 end.
Proof.
  induction d1 as [|[k' v] d1 IH]; intros d2 k; cbn [dict_get app]; [reflexivity|].
  destruct (String.eqb k k'); [reflexivity | apply IH].
Qed.

Lemma dict_get_absent : forall (A : Type) (d : dict A) k,
  ~ In k (map fst d) -> dict_get k d = None.
Proof.
  induction d as [|[k' v] d IH]; intros k H; cbn [dict_get]; [reflexivity|].
  cbn [map fst In] in H.
  destruct (String.eqb k k') eqn:E.
  - apply String.eqb_eq in E. subst. exfalso. apply H. now left.
  - apply IH. intros Hin. apply H. now right.
Qed.

Lemma dict_get_present : forall (A : Type) (d : dict A) k,
  In k (map fst d) -> exists v, dict_get k d = Some v.
Proof.
  induction d as [|[k' v] d IH]; intros k H; [destruct H|].
  cbn [dict_get]. destruct (String.eqb k k') eqn:E; [now exists v|].
  destruct H as [H | H]; [|now apply IH].
  cbn in H. subst. now rewrite String.eqb_refl in E.
Qed.

(** [_invert_dict]: a value of the original is a key of the result, and it
    leads to the key it had in the original; when several keys had that
    value, to the last of them.  Nothing else is a key of the result. *)
Theorem invert_dict_lookup :
  forall (A : Type) (before after : list (A * string)) (k : A) (v : string),
    ~ In v (map snd after) ->
    dict_get v (_invert_dict (before ++ (k, v) :: after)) = Some k
    /\ (forall w, ~ In w (map snd (before ++ (k, v) :: after)) ->
          dict_get w (_invert_dict (before ++ (k, v) :: after)) = None).
Proof.
  intros A before after k v Hv. unfold _invert_dict. split.
  - rewrite map_app, rev_app_distr. cbn [map rev fst snd].
    rewrite <- app_assoc, dict_get_app.
    rewrite dict_get_absent.
    + cbn [app dict_get]. now rewrite String.eqb_refl.
    + rewrite map_rev, map_map. cbn [fst]. rewrite <- in_rev. exact Hv.
  - intros w Hw. apply dict_get_absent.
    rewrite map_rev, map_map. cbn [fst]. now rewrite <- in_rev.
Qed.

Lemma invert_dict_lookup_witness :
  dict_get "b" (_invert_dict [(1, "a"); (2, "b"); (3, "b"); (4, "c")]) = Some 3.
Proof.
  apply (proj1 (invert_dict_lookup Z [(1, "a"); (2, "b")] [(4, "c")] 3 "b"
                  ltac:(cbn; intros [H | []]; discriminate H))).
Defined.

Lemma append_s_eqb : forall a b : string,
  String.eqb (a ++ "s") (b ++ "s") = String.eqb a b.
Proof.
  induction a as [|c a IH]; intros [|c' b]; cbn [append String.eqb].
  - reflexivity.
  - destruct (Ascii.eqb "s" c'); [now destruct b | reflexivity].
  - destruct (Ascii.eqb c "s"); [now destruct a | reflexivity].
  - destruct (Ascii.eqb c c'); [apply IH | reflexivity].
Qed.

Lemma str_rev_app_append : forall s t acc,
  str_rev_app (s ++ t) acc = str_rev_app t (str_rev_app s acc).
Proof. induction s as [|c s IH]; intros t acc; cbn; [reflexivity | apply IH]. Qed.

Lemma str_rev_snoc : forall s c, str_rev (s ++ String c "") = String c (str_rev s).
Proof. intros s c. unfold str_rev. now rewrite str_rev_app_append. Qed.

Lemma str_rev_involutive : forall s, str_rev (str_rev s) = s.
Proof.
  assert (H : forall s acc, str_rev_app (str_rev_app s acc) "" = str_rev_app acc s).
  { induction s as [|c s IH]; intros acc; cbn; [reflexivity|]. now rewrite IH. }
  intros s. unfold str_rev. now rewrite H.
Qed.

Lemma endswith_s_plural : forall w, endswith_s (w ++ "s") = true.
Proof. intros w. unfold endswith_s. now rewrite str_rev_snoc. Qed.

Lemma drop_last_plural : forall w, drop_last (w ++ "s") = w.
Proof.
  intros w. unfold drop_last. rewrite str_rev_snoc. apply str_rev_involutive.
Qed.

Lemma dict_get_plurals : forall (A : Type) (d : dict A) k,
  dict_get (k ++ "s") (_generate_plurals_dict d) = dict_get k d.
Proof.
  induction d as [|[k' v] d IH]; intros k; cbn [_generate_plurals_dict map dict_get fst snd];
    [reflexivity|].
  rewrite append_s_eqb. destruct (String.eqb k k'); [reflexivity | apply IH].
Qed.

Lemma dict_get_plurals_other : forall (A : Type) (d : dict A) k,
  endswith_s k = false -> dict_get k (_generate_plurals_dict d) = None.
Proof.
  induction d as [|[k' v] d IH]; intros k H;
    cbn [_generate_plurals_dict map dict_get fst snd]; [reflexivity|].
  destruct (String.eqb k (k' ++ "s")) eqn:E; [|now apply IH].
  apply String.eqb_eq in E. subst k. now rewrite endswith_s_plural in H.
Qed.

(** [_generate_plurals]: the plural of a key carries the value of the key,
    a word that does not end in s is no key of the result, and for a set
    the plural of a word is in the result exactly when the word is in the
    original.  The original keys themselves are not kept: the module adds
    the plurals to the original with [update] or [|]. *)
Theorem generate_plurals_lookup : forall (A : Type) (d : dict A) (l : list string) k,
  dict_get (k ++ "s") (_generate_plurals_dict d) = dict_get k d
  /\ (endswith_s k = false -> dict_get k (_generate_plurals_dict d) = None)
  /\ mem (k ++ "s") (_generate_plurals l) = mem k l
  /\ dict_get (k ++ "s") (dict_update d (_generate_plurals_dict d))
     = match dict_get k d with
       | Some v => Some v
       | None => dict_get (k ++ "s") d
       end.
Proof.
  intros A d l k.
  split; [apply dict_get_plurals|]. split; [apply dict_get_plurals_other|]. split.
  - unfold mem, _generate_plurals. induction l as [|x l IH]; cbn; [reflexivity|].
    now rewrite append_s_eqb, IH.
  - unfold dict_update. now rewrite dict_get_app, dict_get_plurals.
Qed.

(** ** Fraction words *)

(** [isFractional_en] answers [False] or a float, never an integer or
    [None]; and it reads a plural as its singular: one final s is taken
    off before the word is looked up, so "fifths" is what "fifth" is. *)
Theorem isFractional_plural : forall w short_scale,
  endswith_s w = false ->
  isFractional_en (w ++ "s") short_scale = isFractional_en w short_scale
  /\ (isFractional_en w short_scale = PFalse
      \/ exists f, isFractional_en w short_scale = PFloat f).
Proof.
  intros w ss H. unfold isFractional_en.
  rewrite endswith_s_plural, drop_last_plural, H. split; [reflexivity|].
  destruct (dict_get _ _); [right; eexists; reflexivity | now left].
Qed.

Lemma isFractional_plural_witness :
  isFractional_en "quarters" true = isFractional_en "quarter" true
  /\ isFractional_en "quarter" true = PFloat 0.25.
Proof.
  split.
  - apply (proj1 (isFractional_plural "quarter" true eq_refl)).
  - vm_compute. reflexivity.
Defined.

(** ** Texts without a number *)

Lemma mem_app : forall w a b, mem w (a ++ b)%list = mem w a || mem w b.
Proof. intros. unfold mem. apply existsb_app. Qed.

Lemma no_marker_test : forall ms c T,
  In c ms -> forallb (outside ms) T = true ->
  forallb (fun t => negb (String.eqb (word t) c)) T = true.
Proof.
  intros ms c T Hc H. rewrite forallb_forall in *. intros t Ht.
  specialize (H t Ht). unfold outside in H. apply negb_true_iff in H.
  apply negb_true_iff. destruct (String.eqb (word t) c) eqn:E; [|reflexivity].
  apply String.eqb_eq in E. rewrite <- H. symmetry.
  unfold mem. apply existsb_exists. exists c. split; [exact Hc|].
  rewrite E. apply String.eqb_refl.
Qed.

Section NoMarker.

Variable inner : list _Token -> bool -> bool -> outcome (pyval * list _Token).

Lemma fraction_markers_absent : forall ms T,
  (forall c, In c ms -> forallb (fun t => negb (String.eqb (word t) c)) T = true) ->
  _extract_fraction_markers inner ms T = Ret None.
Proof.
  induction ms as [|c ms IH]; intros T H; cbn [_extract_fraction_markers];
    [reflexivity|].
  rewrite partition_not_three by (apply H; now left).
  destruct T; apply IH; intros c' Hc'; apply H; now right.
Qed.

Lemma decimal_markers_absent : forall ms T,
  (forall c, In c ms -> forallb (fun t => negb (String.eqb (word t) c)) T = true) ->
  _extract_decimal_markers inner ms T = Ret None.
Proof.
  induction ms as [|c ms IH]; intros T H; cbn [_extract_decimal_markers];
    [reflexivity|].
  rewrite partition_not_three by (apply H; now left).
  destruct T; apply IH; intros c' Hc'; apply H; now right.
Qed.

Lemma decimal_markers_skip : forall c ms T,
  forallb (fun t => negb (String.eqb (word t) c)) T = true ->
  _extract_decimal_markers inner (c :: ms) T = _extract_decimal_markers inner ms T.
Proof.
  intros c ms T H. cbn [_extract_decimal_markers].
  rewrite partition_not_three by exact H. now destruct T.
Qed.

Lemma body_no_marker : forall T ss ord,
  forallb (outside number_markers) T = true ->
  extract_number_body inner T ss ord = scan_tokens ss ord T.
Proof.
  intros T ss ord H. unfold extract_number_body, _extract_fraction, _extract_decimal.
  rewrite fraction_markers_absent.
  2:{ intros c Hc. apply (no_marker_test number_markers); [|exact H].
      unfold number_markers. apply in_or_app. now left. }
  cbn [bind truthy_result].
  rewrite decimal_markers_absent.
  2:{ intros c Hc. apply (no_marker_test number_markers); [|exact H].
      unfold number_markers. apply in_or_app. now right. }
  reflexivity.
Qed.

End NoMarker.

(** A token list without "and", "point" and "dot" is read by the scan
    alone: the fraction and decimal helpers find nothing to cut at, and no
    nested call is made. *)
Theorem no_marker_only_scan : forall budget T short_scale ordinals,
  forallb (outside number_markers) T = true ->
  _extract_number_with_text_en (S budget) T short_scale ordinals
  = scan_tokens short_scale ordinals T.
Proof.
  intros budget T ss ord H. cbn [_extract_number_with_text_en].
  now apply body_no_marker.
Qed.

Lemma no_marker_only_scan_witness :
  _extract_number_with_text_en 1 (_tokenize "twenty two") true false
  = scan_tokens true false (_tokenize "twenty two")
  /\ scan_tokens true false (_tokenize "twenty two")
     = Ret (PInt 22, _tokenize "twenty two").
Proof.
  split.
  - apply (no_marker_only_scan 0 (_tokenize "twenty two") true false).
    vm_compute. reflexivity.
  - vm_compute. reflexivity.
Defined.

Lemma scan_token_idle : forall ss ord T idx token st,
  no_number_word ss ord (word token) = true -> idle st ->
  exists st', scan_token ss ord T idx token st = Ret (Continue, st') /\ idle st'.
Proof.
  intros ss ord T idx token st Hw [Hv [Hs Hn]]. unfold scan_token.
  destruct (_initialize_number_data ss) as [[multiplies sno] sns].
  destruct (mem (word token) ARTICLES || mem (word token) _NEGATIVES) eqn:Ea.
  - eexists. split; [reflexivity|]. repeat split; cbn [val to_sum number_words]; auto.
    rewrite map_app, forallb_app, Hn. cbn [map forallb]. now rewrite mem_app, Ea.
  - unfold no_number_word in Hw. rewrite Ea in Hw. cbn [orb] in Hw. rewrite Hw.
    rewrite Hn. cbn [negb]. rewrite andb_false_r.
    eexists. split; [reflexivity|]. repeat split; auto.
Qed.

Lemma scan_loop_idle : forall ss ord T rest idx st,
  forallb (fun t => no_number_word ss ord (word t)) rest = true -> idle st ->
  exists st', scan_loop ss ord T idx rest st = Ret st' /\ idle st'.
Proof.
  induction rest as [|token rest IH]; intros idx st H Hst; cbn [scan_loop].
  - now exists st.
  - cbn [forallb] in H. apply andb_prop in H. destruct H as [Ht H].
    destruct (scan_token_idle ss ord T idx token st Ht Hst) as [st1 [E1 H1]].
    rewrite E1. cbn [bind]. now apply IH.
Qed.

Lemma scan_tokens_idle : forall ss ord T,
  forallb (fun t => no_number_word ss ord (word t)) T = true ->
  exists nw, scan_tokens ss ord T = Ret (PFalse, nw).
Proof.
  intros ss ord T H. unfold scan_tokens.
  destruct (scan_loop_idle ss ord T T O (mk_scan [] PFalse PNone []) H)
    as [st [E [Hv [Hs _]]]].
  { repeat split. }
  rewrite E. cbn [bind]. rewrite Hv, Hs. cbn. now exists (number_words st).
Qed.

Lemma outside_markers_split : forall T,
  forallb (outside _FRACTION_MARKER) T = true ->
  forallb (outside _DECIMAL_MARKER) T = true ->
  forallb (outside number_markers) T = true.
Proof.
  intros T H1 H2. rewrite forallb_forall in *. intros t Ht.
  specialize (H1 t Ht). specialize (H2 t Ht). unfold outside in *.
  unfold number_markers. rewrite mem_app.
  apply negb_true_iff in H1, H2. now rewrite H1, H2.
Qed.

(** A piece beside an "and": a run without "and", or an "and" alone. *)
Lemma piece_without_number : forall b P,
  forallb (fun t => no_number_word true false (word t)) P = true ->
  forallb (outside _DECIMAL_MARKER) P = true ->
  forallb (outside _FRACTION_MARKER) P = true
  \/ (exists m, P = [m] /\ String.eqb (word m) "and" = true) ->
  exists nw, _extract_number_with_text_en (S b) P true false = Ret (PFalse, nw).
Proof.
  intros b P Hq Hd [Hf | [m [-> Hm]]].
  - change (_extract_number_with_text_en (S b) P true false)
      with (extract_number_body (_extract_number_with_text_en b) P true false).
    rewrite body_no_marker by now apply outside_markers_split.
    now apply scan_tokens_idle.
  - cbn [_extract_number_with_text_en]. exists [].
    apply body_single_marker. apply String.eqb_eq in Hm. now rewrite Hm.
Qed.

Lemma forallb_app_pieces : forall (A : Type) (f : A -> bool) p0 p1 p2,
  forallb f (p0 ++ p1 ++ p2)%list = true ->
  forallb f p0 = true /\ forallb f p1 = true /\ forallb f p2 = true.
Proof.
  intros A f p0 p1 p2 H. rewrite !forallb_app in H.
  apply andb_prop in H. destruct H as [H0 H].
  apply andb_prop in H. now destruct H.
Qed.

Lemma retokenized : forall (P : list _Token) (f : string -> bool),
  words_ok P ->
  forallb (fun t => f (word t)) P = true ->
  forallb (fun t => f (word t)) (_tokenize (join " " (map word P))) = true.
Proof.
  intros P f HW H.
  assert (E : forall L : list _Token,
             forallb (fun t => f (word t)) L = forallb f (map word L)).
  { induction L as [|x L IH]; cbn; [reflexivity | now rewrite IH]. }
  rewrite E, tokenize_join by exact HW. now rewrite <- E.
Qed.

Lemma retokenized_single : forall (m : _Token),
  words_ok [m] ->
  exists m', _tokenize (join " " (map word [m])) = [m'] /\ word m' = word m.
Proof.
  intros m HW.
  assert (E := tokenize_join [word m] HW).
  change (map word [m]) with [word m].
  destruct (_tokenize (join " " [word m])) as [|m' [|x L]]; try discriminate.
  exists m'. split; [reflexivity|]. now inversion E.
Qed.

(** With nothing but quiet words on both sides of an "and", the fraction
    helper finds no fraction. *)
Lemma fraction_without_number : forall b T,
  words_ok T ->
  forallb (fun t => no_number_word true false (word t)) T = true ->
  forallb (outside _DECIMAL_MARKER) T = true ->
  _extract_fraction (_extract_number_with_text_en (S b)) T = Ret None.
Proof.
  intros b T HW Hq Hd. unfold _extract_fraction, _FRACTION_MARKER.
  cbn [_extract_fraction_markers].
  destruct (_partition_list T (fun t => String.eqb (word t) "and"))
    as [|p0 [|p1 [|p2 [|p3 L]]]] eqn:Ep; try reflexivity.
  assert (Hc := partition_concat _ (fun t => String.eqb (word t) "and") T).
  assert (Hp := partition_pieces_shape _ (fun t => String.eqb (word t) "and") T).
  rewrite Ep in Hc, Hp. cbn [List.concat] in Hc. rewrite app_nil_r in Hc.
  subst T.
  apply forallb_app_pieces in Hq. destruct Hq as [Q0 [_ Q2]].
  apply forallb_app_pieces in Hd. destruct Hd as [D0 [_ D2]].
  apply words_ok_app in HW. destruct HW as [W0 W12].
  apply words_ok_app in W12. destruct W12 as [_ W2].
  assert (Hshape : forall p, In p [p0; p1; p2] ->
            forallb (outside _FRACTION_MARKER) p = true
            \/ (exists m, p = [m] /\ String.eqb (word m) "and" = true)).
  { intros p Hin. destruct (Hp p Hin) as [_ [Hm | Hr]]; [now right | left].
    rewrite forallb_forall in *. intros t Ht. specialize (Hr t Ht).
    unfold outside, _FRACTION_MARKER, mem. cbn [existsb]. now rewrite orb_false_r. }
  assert (S0 := Hshape p0 (or_introl eq_refl)).
  assert (S2 := Hshape p2 (or_intror (or_intror (or_introl eq_refl)))).
  (* the numbers of the text before the "and" *)
  assert (Hloop : extract_numbers_with_text_in (_extract_number_with_text_en (S b))
                    (join " " (map word p0)) true false = Ret []).
  { unfold extract_numbers_with_text_in.
    assert (Hin : exists nw,
              _extract_number_with_text_en (S b)
                (_tokenize (join " " (map word p0))) true false = Ret (PFalse, nw)).
    { apply piece_without_number.
      - now apply (retokenized p0 (no_number_word true false)).
      - now apply (retokenized p0 (fun w => negb (mem w _DECIMAL_MARKER))).
      - destruct S0 as [S0 | [m [-> Hm]]].
        + left. now apply (retokenized p0 (fun w => negb (mem w _FRACTION_MARKER))).
        + right. destruct (retokenized_single m W0) as [m' [E Ew]].
          exists m'. split; [exact E | now rewrite Ew]. }
    destruct Hin as [nw Hin].
    apply (loop_stops_on_falsy _ _ _ _ _ _ PFalse
             (join " " (map word (pop_articles nw)))
             (option_map index (hd_error (pop_articles nw)))
             (option_map index (hd_error (rev (pop_articles nw)))));
      [|reflexivity].
    unfold extract_number_with_text_en_in. rewrite Hin. reflexivity. }
  rewrite Hloop. cbn [bind List.length Nat.ltb Nat.leb].
  destruct (piece_without_number b p0 Q0 D0 S0) as [nw0 E0].
  destruct (piece_without_number b p2 Q2 D2 S2) as [nw2 E2].
  rewrite E0. cbn [bind]. rewrite E2. cbn [bind]. reflexivity.
Qed.

Lemma forallb_words_tokens : forall (f : string -> bool) text,
  forallb f (split text) = true ->
  forallb (fun t => f (word t)) (_tokenize text) = true.
Proof.
  intros f text H. rewrite <- tokenize_words in H.
  induction (_tokenize text) as [|t L IH]; [reflexivity|].
  cbn [map forallb] in *. apply andb_prop in H. destruct H as [-> H]. now apply IH.
Qed.

Lemma tokens_without_number : forall T ss ord,
  words_ok T ->
  forallb (fun t => no_number_word ss ord (word t)) T = true ->
  forallb (fun t => no_number_word true false (word t)) T = true ->
  forallb (outside _DECIMAL_MARKER) T = true ->
  exists nw, extract_number_tokens T ss ord = Ret (PFalse, nw).
Proof.
  intros T ss ord HW Hq Hq' Hd. unfold extract_number_tokens.
  cbn [_extract_number_with_text_en]. unfold extract_number_body.
  assert (Hf : _extract_fraction (_extract_number_with_text_en (List.length T)) T
               = Ret None).
  { destruct T as [|t T'].
    - reflexivity.
    - cbn [List.length]. now apply fraction_without_number. }
  rewrite Hf. cbn [bind truthy_result].
  unfold _extract_decimal. rewrite decimal_markers_absent.
  - cbn [bind truthy_result]. now apply scan_tokens_idle.
  - intros c Hc. now apply (no_marker_test _DECIMAL_MARKER).
Qed.

(** A text that holds no number word, no numeral and neither "point" nor
    "dot" has no number: the extractor answers [False], the list of the
    numbers is empty, and the rewriter gives the text back with its white
    space normalised.  (The words are to be unknown to the scan both with
    the scale and ordinal setting asked for and with the one the fraction
    helper uses for its nested calls.) *)
Theorem text_without_numbers : forall text short_scale ordinals,
  forallb (fun w => no_number_word short_scale ordinals w
                    && no_number_word true false w
                    && negb (mem w _DECIMAL_MARKER)) (split text) = true ->
  extractnumber_en text short_scale ordinals = Ret PFalse
  /\ extract_numbers_with_text text short_scale ordinals = Ret []
  /\ convert_words_to_numbers text short_scale ordinals
     = Ret (join " " (split text)).
Proof.
  intros text ss ord H.
  assert (H1 : forallb (no_number_word ss ord) (split text) = true
               /\ forallb (no_number_word true false) (split text) = true
               /\ forallb (fun w => negb (mem w _DECIMAL_MARKER)) (split text) = true).
  { rewrite !forallb_forall in *. repeat split; intros w Hw; specialize (H w Hw);
      apply andb_prop in H; destruct H as [H Hc];
      apply andb_prop in H; destruct H as [Ha Hb]; assumption. }
  destruct H1 as [Ha [Hb Hc]].
  destruct (tokens_without_number (_tokenize text) ss ord (tokenize_words_ok text)
              (forallb_words_tokens _ _ Ha) (forallb_words_tokens _ _ Hb)
              (forallb_words_tokens (fun w => negb (mem w _DECIMAL_MARKER)) _ Hc))
    as [nw E].
  assert (En : extract_number_with_text_en text ss ord
               = Ret (PFalse, join " " (map word (pop_articles nw)),
                      option_map index (hd_error (pop_articles nw)),
                      option_map index (hd_error (rev (pop_articles nw))))).
  { unfold extract_number_with_text_en, extract_number_with_text_en_in.
    rewrite E. reflexivity. }
  split.
  - unfold extractnumber_en. rewrite En. reflexivity.
  - exact (convert_without_numbers _ _ _ _ _ _ _ En eq_refl).
Qed.

Lemma text_without_numbers_witness :
  convert_words_to_numbers "salt  and pepper, minus the  salt" true false
  = Ret "salt and pepper, minus the salt".
Proof.
  apply (proj2 (proj2 (text_without_numbers "salt  and pepper, minus the  salt"
                         true false ltac:(vm_compute; reflexivity)))).
Defined.

(** ** A decimal marker between words that are no numbers *)

Lemma partition_from_at_separator : forall (A : Type) (f : A -> bool) a m rest cur,
  forallb (fun x => negb (f x)) a = true -> f m = true ->
  partition_from f cur (a ++ m :: rest)
  = (cur ++ a)%list :: [m] :: partition_from f [] rest.
Proof.
  induction a as [|x a IH]; intros m rest cur Ha Hm; cbn [app partition_from].
  - now rewrite Hm, app_nil_r.
  - cbn [forallb] in Ha. apply andb_prop in Ha. destruct Ha as [Hx Ha].
    apply negb_true_iff in Hx. rewrite Hx, IH by assumption.
    now rewrite <- app_assoc.
Qed.

Lemma partition_at_one_separator : forall (A : Type) (f : A -> bool) a m b,
  forallb (fun x => negb (f x)) a = true -> f m = true ->
  forallb (fun x => negb (f x)) b = true ->
  a <> [] -> b <> [] ->
  _partition_list (a ++ [m] ++ b) f = [a; [m]; b].
Proof.
  intros A f a m b Ha Hm Hb Na Nb. unfold _partition_list.
  cbn [app]. rewrite partition_from_at_separator by assumption.
  rewrite partition_from_no_separator by assumption.
  destruct a; [contradiction|]. destruct b; [contradiction|]. reflexivity.
Qed.

Lemma decimal_between_words : forall b c ms P0 m P2,
  words_ok P0 ->
  forallb (fun t => no_number_word true false (word t)) (P0 ++ P2) = true ->
  forallb (outside number_markers) (P0 ++ P2) = true ->
  P0 <> [] -> P2 <> [] ->
  word m = c -> In c number_markers ->
  _extract_decimal_markers (_extract_number_with_text_en (S b)) (c :: ms)
    (P0 ++ [m] ++ P2)
  = Raise ValueError.
Proof.
  intros b c ms P0 m P2 W0 Hq Ho N0 N2 Hm Hc.
  rewrite forallb_app in Hq, Ho.
  apply andb_prop in Hq. destruct Hq as [Q0 Q2].
  apply andb_prop in Ho. destruct Ho as [O0 O2].
  assert (Hsplit : forall P, forallb (outside number_markers) P = true ->
            forallb (outside _FRACTION_MARKER) P = true
            /\ forallb (outside _DECIMAL_MARKER) P = true).
  { intros P H. rewrite !forallb_forall in *. split; intros t Ht;
      specialize (H t Ht); unfold outside, number_markers in *;
      rewrite mem_app in H; apply negb_true_iff in H;
      apply orb_false_iff in H; destruct H as [H1 H2]; now rewrite ?H1, ?H2. }
  destruct (Hsplit P0 O0) as [F0 D0]. destruct (Hsplit P2 O2) as [F2 D2].
  cbn [_extract_decimal_markers].
  rewrite partition_at_one_separator.
  - assert (Hloop : extract_numbers_with_text_in (_extract_number_with_text_en (S b))
                      (join " " (map word P0)) true false = Ret []).
    { unfold extract_numbers_with_text_in.
      destruct (piece_without_number b (_tokenize (join " " (map word P0))))
        as [nw Hin].
      - now apply (retokenized P0 (no_number_word true false)).
      - now apply (retokenized P0 (fun w => negb (mem w _DECIMAL_MARKER))).
      - left. now apply (retokenized P0 (fun w => negb (mem w _FRACTION_MARKER))).
      - apply (loop_stops_on_falsy _ _ _ _ _ _ PFalse
                 (join " " (map word (pop_articles nw)))
                 (option_map index (hd_error (pop_articles nw)))
                 (option_map index (hd_error (rev (pop_articles nw)))));
          [|reflexivity].
        unfold extract_number_with_text_en_in. rewrite Hin. reflexivity. }
    rewrite Hloop. cbn [bind List.length Nat.ltb Nat.leb].
    destruct (piece_without_number b P0 Q0 D0 (or_introl F0)) as [nw0 E0].
    destruct (piece_without_number b P2 Q2 D2 (or_introl F2)) as [nw2 E2].
    rewrite E0. cbn [bind]. rewrite E2. cbn [bind]. reflexivity.
  - now apply (no_marker_test number_markers c).
  - now rewrite Hm, String.eqb_refl.
  - now apply (no_marker_test number_markers c).
  - exact N0.
  - exact N2.
Qed.

Lemma tokens_between_words : forall b c P0 m P2 ss ord,
  words_ok P0 ->
  forallb (fun t => no_number_word true false (word t)) (P0 ++ P2) = true ->
  forallb (outside number_markers) (P0 ++ P2) = true ->
  P0 <> [] -> P2 <> [] ->
  word m = c -> mem c _DECIMAL_MARKER = true ->
  _extract_number_with_text_en (S (S b)) (P0 ++ [m] ++ P2) ss ord = Raise ValueError.
Proof.
  intros b c P0 m P2 ss ord W0 Hq Ho N0 N2 Hm Hc.
  change (extract_number_body (_extract_number_with_text_en (S b))
            (P0 ++ [m] ++ P2) ss ord = Raise ValueError).
  unfold extract_number_body.
  assert (Ho' := Ho). rewrite forallb_app in Ho'.
  apply andb_prop in Ho'. destruct Ho' as [O0 O2].
  assert (Hcases : c = "point" \/ c = "dot").
  { unfold mem, _DECIMAL_MARKER in Hc. cbn [existsb] in Hc.
    apply orb_true_iff in Hc. destruct Hc as [Hc | Hc].
    - apply String.eqb_eq in Hc. now left.
    - rewrite orb_false_r in Hc. apply String.eqb_eq in Hc. now right. }
  assert (Hfr : _extract_fraction (_extract_number_with_text_en (S b))
                  (P0 ++ [m] ++ P2) = Ret None).
  { apply fraction_markers_absent. intros a [<- | []].
    rewrite !forallb_app. cbn [forallb].
    rewrite (no_marker_test number_markers "and" P0) by (auto; now left).
    rewrite (no_marker_test number_markers "and" P2) by (auto; now left).
    rewrite Hm. destruct Hcases as [-> | ->]; reflexivity. }
  rewrite Hfr. cbn [bind truthy_result].
  unfold _extract_decimal, _DECIMAL_MARKER.
  destruct Hcases as [-> | ->].
  - rewrite (decimal_between_words b "point" ["dot"] P0 m P2); try assumption.
    + reflexivity.
    + right. now left.
  - rewrite decimal_markers_skip.
    + rewrite (decimal_between_words b "dot" [] P0 m P2); try assumption.
      * reflexivity.
      * right. right. now left.
    + rewrite !forallb_app. cbn [forallb].
      rewrite (no_marker_test number_markers "point" P0) by (auto; right; now left).
      rewrite (no_marker_test number_markers "point" P2) by (auto; right; now left).
      rewrite Hm. reflexivity.
Qed.

Lemma split_nonempty_text : forall text, split text <> [] -> nonempty text = true.
Proof. intros [|c s] H; [now contradiction H | reflexivity]. Qed.

(** A "point" or a "dot" with words on both sides, none of which is a
    number word, a numeral or one of "and", "point", "dot": both sides are
    read as [False], and the decimal helper then asks for
    [float("0.False")].  Every number extractor raises [ValueError] on
    such a text, and so does the duration extractor. *)
Theorem decimal_marker_between_words : forall text ws0 c ws2 short_scale ordinals,
  split text = (ws0 ++ [c] ++ ws2)%list ->
  mem c _DECIMAL_MARKER = true ->
  ws0 <> [] -> ws2 <> [] ->
  forallb (fun w => no_number_word true false w && negb (mem w number_markers))
          (ws0 ++ ws2) = true ->
  extractnumber_en text short_scale ordinals = Raise ValueError
  /\ extract_numbers_with_text text short_scale ordinals = Raise ValueError
  /\ convert_words_to_numbers text short_scale ordinals = Raise ValueError
  /\ extract_duration_en text = Raise ValueError.
Proof.
  intros text ws0 c ws2 ss ord Hs Hc N0 N2 H.
  assert (HT : forall ss ord, extract_number_tokens (_tokenize text) ss ord
                              = Raise ValueError).
  { intros ss' ord'.
    assert (Hw := tokenize_words text). rewrite Hs in Hw.
    apply map_eq_app in Hw. destruct Hw as [P0 [T' [ET [E0 E']]]].
    cbn [app] in E'. apply map_eq_cons in E'. destruct E' as [m [P2 [ET' [Em E2]]]].
    assert (HW := tokenize_words_ok text). rewrite ET in HW.
    apply words_ok_app in HW. destruct HW as [W0 _].
    unfold extract_number_tokens. rewrite ET, ET'.
    assert (HL : exists b, List.length (P0 ++ m :: P2) = S b).
    { destruct P0; cbn; eauto. }
    destruct HL as [b HL]. rewrite HL.
    assert (Hall : forall (f : string -> bool),
              forallb f (ws0 ++ ws2) = true ->
              forallb (fun t => f (word t)) (P0 ++ P2) = true).
    { intros f Hf. rewrite <- E0, <- E2, <- map_app in Hf.
      induction (P0 ++ P2)%list as [|t L IH]; [reflexivity|].
      cbn [map forallb] in *. apply andb_prop in Hf. destruct Hf as [-> Hf].
      now apply IH. }
    apply (tokens_between_words b c P0 m P2 ss' ord'); auto.
    - apply (Hall (no_number_word true false)).
      rewrite forallb_forall in *. intros w Hw. specialize (H w Hw).
      now apply andb_prop in H.
    - apply (Hall (fun w => negb (mem w number_markers))).
      rewrite forallb_forall in *. intros w Hw. specialize (H w Hw).
      now apply andb_prop in H.
    - intros ->. apply N0. now destruct ws0.
    - intros ->. apply N2. now destruct ws2. }
  assert (E1 : forall ss ord, extract_number_with_text_en text ss ord = Raise ValueError).
  { intros ss' ord'.
    unfold extract_number_with_text_en, extract_number_with_text_en_in.
    now rewrite HT. }
  assert (E2 : forall ss ord, extract_numbers_with_text text ss ord = Raise ValueError).
  { intros ss' ord'. unfold extract_numbers_with_text, extract_numbers_with_text_in.
    cbn [extract_numbers_loop].
    change (extract_number_with_text_en_in extract_number_tokens)
      with extract_number_with_text_en.
    now rewrite E1. }
  assert (E3 : forall ss ord, convert_words_to_numbers text ss ord = Raise ValueError).
  { intros ss' ord'. unfold convert_words_to_numbers. now rewrite E2. }
  split; [unfold extractnumber_en; now rewrite E1|].
  split; [apply E2|]. split; [apply E3|].
  unfold extract_duration_en.
  rewrite split_nonempty_text by (rewrite Hs; now destruct ws0).
  cbn [negb]. now rewrite E3.
Qed.

Lemma decimal_marker_between_words_witness :
  extractnumber_en "what is the point of this" true false = Raise ValueError
  /\ extract_duration_en "what is the point of this" = Raise ValueError.
Proof.
  destruct (decimal_marker_between_words "what is the point of this"
              ["what"; "is"; "the"] "point" ["of"; "this"] true false
              eq_refl eq_refl ltac:(discriminate) ltac:(discriminate)
              ltac:(vm_compute; reflexivity)) as [H1 [_ [_ H4]]].
  split; assumption.
Defined.

(** ** The spans of the numbers found *)

Lemma token_index_range : forall text t,
  In t (_tokenize text) -> 0 <= index t < Z.of_nat (List.length (split text)).
Proof.
  intros text t H. apply In_nth_error in H. destruct H as [n H].
  assert (Hn : (n < List.length (_tokenize text))%nat).
  { apply nth_error_Some. now rewrite H. }
  apply tokenize_nth in H. destruct H as [H _]. rewrite tokenize_length in Hn. lia.
Qed.

Lemma join_nonempty : forall w ws, nonempty w = true -> nonempty (join " " (w :: ws)) = true.
Proof. intros [|c w] ws H; [discriminate|]. cbn. now destruct ws. Qed.

(** What a true number comes with: the first word after the leading
    articles and the last word of the tokens returned. *)
Lemma found_span : forall T number nw,
  sound T (number, nw) -> truthy number = true ->
  exists h l rest,
    pop_articles nw = h :: rest
    /\ hd_error (rev (pop_articles nw)) = Some l
    /\ In h T /\ In l T /\ plain h = true /\ index h <= index l.
Proof.
  intros T number nw [S1 [S2 S3]] Htr. cbn [fst snd] in *.
  destruct (pop_articles_head nw (S3 Htr)) as [pre [h [rest [Enw Epop]]]].
  assert (Hinc : increasing (h :: rest)).
  { rewrite Enw in S2. apply increasing_app in S2. apply S2. }
  destruct (last_of_increasing h rest Hinc) as [l [El [Hl Hhl]]].
  exists h, l, rest. rewrite Epop. split; [reflexivity|]. split; [exact El|].
  assert (Hsub : forall t, In t (h :: rest) -> In t T /\ plain t = true).
  { intros t Ht. apply S1. rewrite Enw. apply in_or_app. now right. }
  split; [apply Hsub; now left|]. split; [now apply Hsub|].
  split; [apply Hsub; now left | exact Hhl].
Qed.

(** When [extract_number_with_text_en] finds a number that counts as true,
    it names the words it was read from: the text returned is not empty
    and the first and the last index are there, in order and within the
    words of the text.  (So the comparison of the indices in
    [extract_numbers_with_text] is never one with [None].) *)
Theorem number_found_has_span : forall text short_scale ordinals number s a b,
  extract_number_with_text_en text short_scale ordinals = Ret (number, s, a, b) ->
  truthy number = true ->
  nonempty s = true
  /\ exists i j, a = Some i /\ b = Some j
                 /\ 0 <= i /\ i <= j /\ j < Z.of_nat (List.length (split text)).
Proof.
  intros text ss ord number s a b H Htr.
  unfold extract_number_with_text_en, extract_number_with_text_en_in in H.
  destruct (extract_number_tokens (_tokenize text) ss ord) as [[number' nw]|e] eqn:E;
    [|discriminate].
  cbn [bind] in H. inversion H; subst; clear H.
  assert (Hs := tokens_sound _ _ _ _ (tokenize_increasing text) E).
  destruct (found_span _ _ _ Hs Htr) as [h [l [rest [Ep [El [Hh [Hl [_ Hhl]]]]]]]].
  rewrite El, Ep. cbn [hd_error option_map map]. split.
  - apply join_nonempty.
    apply In_nth_error in Hh. destruct Hh as [n Hn].
    destruct (tokenize_nth text n h Hn) as [_ [_ Hword]].
    unfold is_word in Hword. now apply andb_prop in Hword.
  - exists (index h), (index l). split; [reflexivity|]. split; [reflexivity|].
    apply token_index_range in Hh. apply token_index_range in Hl. lia.
Qed.

Lemma number_found_has_span_witness :
  extract_number_with_text_en "i have the two and a half cups" true false
  = Ret (PFloat 2.5, "two and a half", Some 3, Some 6)
  /\ exists i j, Some 3 = Some i /\ Some 6 = Some j
       /\ 0 <= i /\ i <= j
       /\ j < Z.of_nat (List.length (split "i have the two and a half cups")).
Proof.
  assert (E : extract_number_with_text_en "i have the two and a half cups" true false
              = Ret (PFloat 2.5, "two and a half", Some 3, Some 6))
    by (vm_compute; reflexivity).
  split; [exact E|].
  apply (proj2 (number_found_has_span _ _ _ _ _ _ _ E eq_refl)).
Defined.

Lemma loop_results : forall inner,
  (forall T ss ord r, increasing T -> inner T ss ord = Ret r -> sound T r) ->
  forall turns text ss ord results out,
    extract_numbers_loop inner turns text ss ord results = Ret out ->
    exists found,
      out = (results ++ found)%list
      /\ Forall (span_within (List.length (split text))) found
      /\ (List.length found <= count_plain (split text))%nat.
Proof.
  intros inner Hsound.
  induction turns as [|turns IH]; intros text ss ord results out H; [discriminate|].
  cbn [extract_numbers_loop] in H. unfold extract_number_with_text_en_in in H.
  assert (HT := tokenize_increasing text).
  assert (HW := tokenize_words_ok text).
  assert (Hrange := token_index_range text).
  assert (Hwords := tokenize_words text).
  assert (HL := tokenize_length text).
  set (T := _tokenize text) in *.
  destruct (inner T ss ord) as [[number nw]|e] eqn:Ei; [|discriminate].
  cbn [bind] in H.
  destruct (truthy number) eqn:Etr; cbn [negb] in H.
  - destruct (found_span T number nw (Hsound T ss ord _ HT Ei) Etr)
      as [h [l [rest [Ep [El [Hh [Hl [Hp Hhl]]]]]]]].
    rewrite El, Ep in H. cbn [hd_error option_map] in H.
    set (ws' := map (fun t : _Token =>
                       if negb ((index h <=? index t) && (index t <=? index l))
                       then word t else placeholder) T) in H.
    assert (Hws' : ws' = map (mask (index h) (index l)) T) by reflexivity.
    assert (Hok : forallb is_word ws' = true).
    { rewrite Hws'. now apply mask_words_ok. }
    assert (Hsplit : split (join " " ws') = ws') by now apply split_join.
    apply IH in H. destruct H as [found [Eo [Hf Hc]]].
    rewrite Hsplit in Hf, Hc.
    exists (mk_ReplaceableNumber number (join " " (map word (h :: rest)))
              (index h) (index l) :: found).
    split; [now rewrite Eo, <- app_assoc|]. split.
    + constructor.
      * unfold span_within. cbn [value start_index end_index].
        apply Hrange in Hh. apply Hrange in Hl. repeat split; auto; lia.
      * rewrite Hws', length_map, HL in Hf. exact Hf.
    + assert (Hlt := mask_count_lt (index h) (index l) T h Hh Hp ltac:(lia)).
      rewrite Hwords in Hlt. rewrite Hws' in Hc. cbn [List.length]. lia.
  - inversion H; subst. exists []. rewrite app_nil_r.
    split; [reflexivity|]. split; [constructor | apply Nat.le_0_l].
Qed.

(** Every span [extract_numbers_with_text] returns carries a number that
    counts as true (so never a zero), lies within the words of the text
    with its start not after its end, and there are at most as many spans
    as the text has words. *)
Theorem numbers_found : forall text short_scale ordinals results,
  extract_numbers_with_text text short_scale ordinals = Ret results ->
  Forall (span_within (List.length (split text))) results
  /\ (List.length results <= List.length (split text))%nat.
Proof.
  intros text ss ord results H.
  unfold extract_numbers_with_text, extract_numbers_with_text_in in H.
  apply (loop_results extract_number_tokens tokens_sound) in H.
  destruct H as [found [E [Hf Hc]]]. cbn [app] in E. subst found.
  split; [exact Hf|].
  assert (Hle := count_plain_le_length (split text)). lia.
Qed.

Lemma numbers_found_witness :
  exists results,
    extract_numbers_with_text "two cats and zero dogs" true false = Ret results
    /\ map value results = [PInt 2]
    /\ Forall (span_within 5) results.
Proof.
  assert (E : exists results,
            extract_numbers_with_text "two cats and zero dogs" true false = Ret results
            /\ map value results = [PInt 2]).
  { eexists. split; vm_compute; reflexivity. }
  destruct E as [results [E Hv]]. exists results.
  split; [exact E|]. split; [exact Hv|].
  apply (proj1 (numbers_found _ _ _ _ E)).
Defined.

(** ** The result of the duration extractor *)

Lemma str_rev_app_acc : forall s acc, str_rev_app s acc = str_rev s ++ acc.
Proof.
  unfold str_rev. induction s as [|c s IH]; intros acc; cbn; [reflexivity|].
  rewrite IH, (IH (String c "")). now rewrite append_assoc.
Qed.

Lemma str_rev_append : forall a b, str_rev (a ++ b) = str_rev b ++ str_rev a.
Proof.
  intros a b. unfold str_rev at 1. rewrite str_rev_app_append.
  now rewrite str_rev_app_acc.
Qed.

Lemma lstrip_pred_idem : forall f s, lstrip_pred f (lstrip_pred f s) = lstrip_pred f s.
Proof.
  induction s as [|c s IH]; cbn; [reflexivity|].
  destruct (f c) eqn:E; [exact IH | cbn; now rewrite E].
Qed.

Lemma lstrip_pred_suffix : forall f s, exists p, s = p ++ lstrip_pred f s.
Proof.
  induction s as [|c s IH]; cbn; [now exists ""|].
  destruct (f c).
  - destruct IH as [p E]. exists (String c p). cbn. now rewrite <- E.
  - now exists "".
Qed.

Lemma length_append : forall a b : string,
  String.length (a ++ b) = (String.length a + String.length b)%nat.
Proof. induction a as [|c a IH]; intros b; cbn; [reflexivity | now rewrite IH]. Qed.

Lemma lstrip_pred_fixed : forall f s,
  lstrip_pred f s = s <-> match s with String c _ => f c = false | "" => True end.
Proof.
  intros f [|c s]; cbn; [tauto|].
  destruct (f c) eqn:E; split; intros H; try reflexivity; try discriminate.
  exfalso. destruct (lstrip_pred_suffix f s) as [p Ep].
  apply (f_equal String.length) in H. rewrite Ep in H at 2.
  cbn in H. rewrite length_append in H. lia.
Qed.

Lemma strip_trimmed : forall s, trimmed (strip s).
Proof.
  intros s. unfold trimmed, strip, lstrip. split; [apply lstrip_pred_idem|].
  unfold rstrip, rstrip_pred.
  set (x := str_rev (lstrip_pred isspace_c (str_rev s))).
  assert (Hx : lstrip_pred isspace_c (str_rev x) = str_rev x).
  { unfold x. rewrite str_rev_involutive. apply lstrip_pred_idem. }
  destruct (lstrip_pred_suffix isspace_c x) as [p Ep].
  set (y := lstrip_pred isspace_c x) in *.
  assert (Hy : lstrip_pred isspace_c (str_rev y) = str_rev y).
  { apply lstrip_pred_fixed. apply lstrip_pred_fixed in Hx.
    rewrite Ep, str_rev_append in Hx.
    destruct (str_rev y) as [|c r]; [exact I | exact Hx]. }
  rewrite Hy. apply str_rev_involutive.
Qed.

Lemma py_add_float : forall a f d,
  py_add a (PFloat f) = Ret d -> is_float d = true.
Proof.
  intros a f d H. unfold py_add, py_arith in H.
  destruct a; cbn in H; try discriminate;
    try (destruct (float_of_Z _); cbn in H; [|discriminate]);
    inversion H; reflexivity.
Qed.

Lemma py_sum_is_float : forall ps acc d,
  forallb is_float ps = true ->
  (ps <> [] \/ is_float acc = true) ->
  py_sum_from acc ps = Ret d -> is_float d = true.
Proof.
  induction ps as [|x ps IH]; intros acc d Hf Hne H.
  - cbn in H. inversion H; subst. destruct Hne as [Hne | Hne]; [contradiction | exact Hne].
  - cbn [forallb] in Hf. apply andb_prop in Hf. destruct Hf as [Hx Hf].
    cbn [py_sum_from] in H.
    destruct (py_add acc x) as [acc'|e] eqn:E; [|discriminate]. cbn [bind] in H.
    destruct x as [| | |f]; try discriminate.
    apply py_add_float in E.
    apply (IH acc' d Hf (or_intror E) H).
Qed.

(** When [extract_duration_en] returns a pair, the seconds, if there are
    any, are a float (also when every number matched was written without
    a fraction), and the remaining text has no white space at either
    end. *)
Theorem duration_result_shape : forall text d rest,
  extract_duration_en text = Ret (Some (d, rest)) ->
  (forall v, d = Some v -> is_float v = true) /\ trimmed rest.
Proof.
  intros text d rest H. unfold extract_duration_en in H.
  destruct (negb (nonempty text)); [discriminate|].
  destruct (convert_words_to_numbers text true false) as [text'|e];
    cbn [bind] in H; [|discriminate].
  rewrite duration_units_spec in H.
  destruct (contributions_return _
              (unit_matches_ok time_unit_to_seconds_map text' table_multipliers))
    as [pieces [Ep [Hfl Hlen]]].
  rewrite Ep in H. cbn [bind app] in H.
  destruct (py_sum pieces) as [total|e] eqn:Et; cbn [bind] in H; [|discriminate].
  destruct pieces as [|p ps]; cbn in H; inversion H; subst; clear H.
  - split; [discriminate | apply strip_trimmed].
  - split; [|apply strip_trimmed].
    intros v Hv. inversion Hv; subst.
    apply (py_sum_is_float (p :: ps) (PInt 0) v Hfl); [left; discriminate | exact Et].
Qed.

Lemma duration_result_shape_witness :
  extract_duration_en "  wait 2 minutes and 30 seconds  "
  = Ret (Some (Some (PFloat 150), "wait  and"))
  /\ is_float (PFloat 150) = true /\ trimmed "wait  and".
Proof.
  assert (E : extract_duration_en "  wait 2 minutes and 30 seconds  "
              = Ret (Some (Some (PFloat 150), "wait  and")))
    by (vm_compute; reflexivity).
  split; [exact E|].
  destruct (duration_result_shape _ _ _ E) as [H1 H2].
  split; [now apply H1 | exact H2].
Defined.

(** ** The word with a colon *)

Lemma colon_scan_minutes : forall d2 hh mm s,
  str_forallb isdigit_c d2 = true ->
  colon_scan 1 hh mm (d2 ++ s) = colon_scan 1 hh (mm ++ d2) s.
Proof.
  induction d2 as [|c d2 IH]; intros hh mm s H; cbn [append].
  - now rewrite append_nil_r.
  - cbn [str_forallb] in H. apply andb_prop in H. destruct H as [Hc H].
    cbn [colon_scan]. rewrite Hc, IH by exact H.
    now rewrite append_assoc.
Qed.

Lemma colon_scan_hours : forall d1 hh mm s,
  str_forallb isdigit_c d1 = true ->
  colon_scan 0 hh mm (d1 ++ s) = colon_scan 0 (hh ++ d1) mm s.
Proof.
  induction d1 as [|c d1 IH]; intros hh mm s H; cbn [append].
  - now rewrite append_nil_r.
  - cbn [str_forallb] in H. apply andb_prop in H. destruct H as [Hc H].
    cbn [colon_scan]. rewrite Hc, IH by exact H.
    now rewrite append_assoc.
Qed.

(** In a word with a colon the hour is the digits before the colon and
    the minute the digits after it.  The character that ends the minute
    is passed over: the remainder is what comes after that character, with
    its dots taken out.  So of "3:30pm" the remainder is "m", not "pm". *)
Theorem colon_scan_passes_over_a_character : forall d1 d2 c rest,
  str_forallb isdigit_c d1 = true ->
  str_forallb isdigit_c d2 = true ->
  isdigit_c c = false ->
  colon_scan 0 "" "" (d1 ++ ":" ++ d2) = (d1, d2, "")
  /\ colon_scan 0 "" "" (d1 ++ ":" ++ d2 ++ String c rest)
     = (d1, d2, replace "." "" rest).
Proof.
  intros d1 d2 c rest H1 H2 Hc.
  assert (Hcolon : forall hh mm s,
            colon_scan 0 hh mm (String ":" s) = colon_scan 1 hh mm s).
  { intros. reflexivity. }
  split.
  - rewrite colon_scan_hours by exact H1. cbn [append]. rewrite Hcolon.
    rewrite <- (append_nil_r d2) at 1.
    now rewrite colon_scan_minutes by exact H2.
  - rewrite colon_scan_hours by exact H1. cbn [append]. rewrite Hcolon.
    rewrite colon_scan_minutes by exact H2.
    cbn [colon_scan append]. rewrite Hc. now destruct rest.
Qed.

(** "3:30pm" against "3:30 pm", the reference at 2:00: the first is read
    as 3:30, the second as 15:30. *)
Lemma colon_scan_passes_over_witness :
  colon_scan 0 "" "" "3:30pm" = ("3", "30", "m")
  /\ extract_datetime_en "3:30pm" (Some tuesday_02h) None
     = Ret (Some (mk_datetime 2017 6 27 3 30 0 0, ""))
  /\ extract_datetime_en "3:30 pm" (Some tuesday_02h) None
     = Ret (Some (mk_datetime 2017 6 27 15 30 0 0, "")).
Proof.
  split.
  - apply (proj2 (colon_scan_passes_over_a_character "3" "30" "p" "m"
                    eq_refl eq_refl eq_refl)).
  - split; vm_compute; reflexivity.
Defined.

(** ** A unit word that opens the text *)

Lemma date_branch_unit_first : forall dateNow w c,
  mem w unit_words = true ->
  fromFlag c = false ->
  mem (word_or_empty (words c) (0 + 1)) year_multiples = false ->
  date_branch dateNow 0 w c = Raise IndexError.
Proof.
  intros dateNow w c Hw Hf Hn.
  assert (Hcases : w = "day" \/ w = "week" \/ w = "month" \/ w = "year").
  { unfold mem, unit_words in Hw. cbn [existsb] in Hw.
    repeat (apply orb_true_iff in Hw; destruct Hw as [Hw | Hw];
            [apply String.eqb_eq in Hw; auto |]).
    discriminate. }
  unfold date_branch. rewrite Hn, Hf.
  assert (Hprev : word_or_empty (words c) (0 - 1) = "") by reflexivity.
  rewrite Hprev.
  destruct Hcases as [-> | [-> | [-> | ->]]]; cbn -[word_or_empty].
  - destruct (_ && _); reflexivity.
  - reflexivity.
  - reflexivity.
  - reflexivity.
Qed.

(** When the first word of the cleaned text is "day", "week", "month" or
    "year" (with or without a plural s) and the second is no "decade",
    "century" or "millennium", the date sweep looks at the first character
    of the word before it, which is the empty string: [extract_datetime_en]
    raises [IndexError].  "day after tomorrow" is such a text. *)
Theorem unit_word_first_raises : forall s dateNow default_time w ws,
  clean_string s = Ret (w :: ws) ->
  mem (rstrip_s w) unit_words = true ->
  mem (hd "" ws) year_multiples = false ->
  extract_datetime_en s (Some dateNow) default_time = Raise IndexError.
Proof.
  intros s dateNow dt w ws Hc Hw Hn.
  assert (Hs : nonempty s = true).
  { destruct s; [discriminate Hc | reflexivity]. }
  unfold extract_datetime_en. rewrite Hs. cbn [negb].
  unfold sweeps. rewrite Hc. cbn [bind List.length date_sweep].
  assert (Hword : date_word dateNow 0 (initial_ctx (w :: ws)) = Raise IndexError).
  { unfold date_word.
    change (word_or_empty (words (initial_ctx (w :: ws))) 0) with w.
    assert (Hne : nonempty w = true).
    { destruct w; [discriminate Hw | reflexivity]. }
    rewrite Hne. cbn [negb].
    rewrite date_branch_unit_first; [reflexivity | exact Hw | reflexivity |].
    replace (word_or_empty (words (initial_ctx (w :: ws))) (0 + 1)) with (hd "" ws);
      [exact Hn|].
    destruct ws as [|x ws]; [reflexivity|].
    unfold word_or_empty. cbn [words initial_ctx List.length].
    replace ((0 <=? 0 + 1) && (0 + 1 <? Z.of_nat (S (S (List.length ws))))) with true
      by (symmetry; apply andb_true_iff; split; [reflexivity | apply Z.ltb_lt; lia]).
    reflexivity. }
  rewrite Hword. reflexivity.
Qed.

Lemma unit_word_first_raises_witness :
  extract_datetime_en "day after tomorrow" (Some tuesday_14h) None = Raise IndexError
  /\ extract_datetime_en "the day after tomorrow" (Some tuesday_14h) None
     = Ret (Some (mk_datetime 2017 6 29 0 0 0 0, "")).
Proof.
  split.
  - apply (unit_word_first_raises "day after tomorrow" tuesday_14h None
             "day" ["after"; "tomorrow"]); vm_compute; reflexivity.
  - vm_compute. reflexivity.
Defined.

(** ** The result of the date-time extractor *)

Lemma join_split_normalised : forall s, normalised (join " " (split s)).
Proof. intros s. unfold normalised. now rewrite split_idem. Qed.

Ltac bind_cases H :=
  repeat match type of H with
         | bind ?m _ = _ =>
             let E := fresh "E" in
             destruct m eqn:E; cbn [bind] in H; [|discriminate H]
         | (if ?b then _ else _) = _ => destruct b
         | (let '(_, _) := ?x in _) = _ => destruct x
         | match ?x with _ => _ end = _ => destruct x
         end.

Lemma date_branch_early : forall dateNow idx w c r,
  date_branch dateNow idx w c = Ret (inl r) ->
  microsecond (fst r) = 0 /\ normalised (snd r).
Proof.
  intros dateNow idx w c r H. unfold date_branch in H.
  destruct (String.eqb w "now" && negb (nonempty (datestr c))).
  - inversion H; subst. cbn [fst snd]. split; [reflexivity | apply join_split_normalised].
  - exfalso. bind_cases H; discriminate H.
Qed.

Lemma date_word_early : forall dateNow idx c r,
  date_word dateNow idx c = Ret (inl r) ->
  microsecond (fst r) = 0 /\ normalised (snd r).
Proof.
  intros dateNow idx c r H. unfold date_word in H.
  destruct (negb (nonempty _)); [discriminate H|].
  destruct (date_branch dateNow idx _ c) as [[res | [[c' start] used]] | e] eqn:E;
    cbn [bind] in H; [| |discriminate H].
  - inversion H; subst. now apply date_branch_early in E.
  - destruct (date_followup _ _ _ _ _ _) as [[c2 s2] u2].
    destruct (date_consume c2 s2 u2); cbn [bind] in H; discriminate H.
Qed.

Lemma date_sweep_early : forall turns dateNow idx c r,
  date_sweep dateNow idx turns c = Ret (inl r) ->
  microsecond (fst r) = 0 /\ normalised (snd r).
Proof.
  induction turns as [|turns IH]; intros dateNow idx c r H; cbn [date_sweep] in H;
    [discriminate H|].
  destruct (date_word dateNow idx c) as [[res | c'] | e] eqn:E; cbn [bind] in H;
    [| |discriminate H].
  - inversion H; subst. now apply date_word_early in E.
  - now apply IH in H.
Qed.

Lemma replace_date_microsecond : forall d y m dd d',
  replace_date d y m dd = Ret d' -> microsecond d' = microsecond d.
Proof.
  intros d y m dd d' H. unfold replace_date in H.
  destruct (valid_date y m dd); [|discriminate H]. now inversion H.
Qed.

Lemma add_seconds_microsecond : forall d n d',
  add_seconds d n = Ret d' -> microsecond d' = microsecond d.
Proof.
  intros d n d' H. unfold add_seconds in H.
  destruct (_ && _); [|discriminate H].
  destruct (fromordinal _) as [[y m] dd]. now inversion H.
Qed.

Lemma add_years_months_microsecond : forall d ys ms d',
  add_years_months d ys ms = Ret d' -> microsecond d' = microsecond d.
Proof.
  intros d ys ms d' H. unfold add_years_months in H.
  destruct (if 12 <? _ then _ else _) as [y m].
  now apply replace_date_microsecond in H.
Qed.

Lemma add_if_nonzero_microsecond : forall n f d d',
  (forall x x', f x = Ret x' -> microsecond x' = microsecond x) ->
  add_if_nonzero n f d = Ret d' -> microsecond d' = microsecond d.
Proof.
  intros n f d d' Hf H. unfold add_if_nonzero in H.
  destruct (negb _); [now apply Hf | now inversion H].
Qed.

Lemma apply_datestr_microsecond : forall dateNow c d d',
  apply_datestr dateNow c d = Ret d' -> microsecond d' = microsecond d.
Proof.
  intros dateNow c d d' H. unfold apply_datestr in H.
  destruct (parse_datestr _) as [temp|e]; cbn [bind] in H; [|discriminate H].
  destruct (negb (hasYear c)).
  - destruct (replace_date temp _ _ _) as [temp'|e]; cbn [bind] in H; [|discriminate H].
    destruct (datetime_ltb _ _); now apply replace_date_microsecond in H.
  - now apply replace_date_microsecond in H.
Qed.

Lemma apply_anchor_microsecond : forall dateNow dt c d d',
  apply_anchor dateNow dt c d = Ret d' -> microsecond d' = microsecond d.
Proof.
  intros dateNow dt c d d' H. unfold apply_anchor in H.
  destruct (_ && _); [|now inversion H].
  match type of H with
  | bind (add_seconds d (fst ?x * _ + _)) _ = _ => idtac
  | context [let '(_, _) := ?x in _] => destruct x as [h m]
  end.
  destruct (add_seconds d _) as [d1|e] eqn:E1; cbn [bind] in H; [|discriminate H].
  apply add_seconds_microsecond in E1.
  destruct (_ && _).
  - destruct (_ && _).
    + apply add_seconds_microsecond in H. congruence.
    + inversion H. congruence.
  - inversion H. congruence.
Qed.

Lemma compose_result_shape : forall dateNow dt c r,
  compose_result dateNow dt c = Ret r ->
  microsecond (fst r) = 0 /\ normalised (snd r).
Proof.
  intros dateNow dt c r H. unfold compose_result in H.
  match type of H with bind ?m _ = _ =>
    destruct m as [d0|e] eqn:E0; cbn [bind] in H; [|discriminate H] end.
  assert (H0 : microsecond d0 = 0).
  { destruct (nonempty (datestr c)).
    - now apply apply_datestr_microsecond in E0.
    - destruct (_ && _); now inversion E0. }
  repeat match type of H with
         | bind (add_if_nonzero ?n ?f ?d) _ = _ =>
             let E := fresh "E" in let x := fresh "d" in
             destruct (add_if_nonzero n f d) as [x|] eqn:E; cbn [bind] in H;
             [apply add_if_nonzero_microsecond in E;
              [|intros ? ? ?;
                first [eapply add_years_months_microsecond; eassumption
                      |eapply add_seconds_microsecond; eassumption]]
             |discriminate H]
         | bind (apply_anchor ?a ?b ?c ?d) _ = _ =>
             let E := fresh "E" in let x := fresh "d" in
             destruct (apply_anchor a b c d) as [x|] eqn:E; cbn [bind] in H;
             [apply apply_anchor_microsecond in E | discriminate H]
         end.
  destruct (blank_ands _ _ _) as [ws|e]; cbn [bind] in H; [|discriminate H].
  inversion H; subst. cbn [fst snd]. split; [congruence | apply join_split_normalised].
Qed.

(** What [extract_datetime_en] returns, when it returns a date: the
    microsecond is 0 whatever it is in the reference instant, and the
    remaining text has its words separated by single spaces, with no white
    space at either end. *)
Theorem datetime_result_shape : forall s dateNow default_time d rest,
  extract_datetime_en s dateNow default_time = Ret (Some (d, rest)) ->
  microsecond d = 0 /\ normalised rest.
Proof.
  intros s dateNow dt d rest H. unfold extract_datetime_en in H.
  destruct dateNow as [now|]; [|discriminate H].
  destruct (negb (nonempty s)); [discriminate H|].
  destruct (sweeps now s) as [[res | c] | e] eqn:E; cbn [bind] in H; [| |discriminate H].
  - inversion H; subst. unfold sweeps in E.
    destruct (clean_string s) as [ws|e]; cbn [bind] in E; [|discriminate E].
    destruct (date_sweep now 0 _ _) as [[res | c] | e] eqn:Ed; cbn [bind] in E;
      [| |discriminate E].
    + inversion E; subst. now apply date_sweep_early in Ed.
    + destruct (time_sweep _ _ _ _); cbn [bind] in E; discriminate E.
  - cbn [function_truth negb] in H.
    destruct (compose_result now dt c) as [r|e] eqn:Ec; cbn [bind] in H;
      [|discriminate H].
    inversion H; subst. now apply compose_result_shape in Ec.
Qed.

Lemma datetime_result_shape_witness :
  extract_datetime_en "  see   you tomorrow at  noon "
    (Some (mk_datetime 2017 6 27 14 0 5 123456)) None
  = Ret (Some (mk_datetime 2017 6 28 12 0 0 0, "see you"))
  /\ microsecond (mk_datetime 2017 6 28 12 0 0 0) = 0 /\ normalised "see you".
Proof.
  assert (E : extract_datetime_en "  see   you tomorrow at  noon "
                (Some (mk_datetime 2017 6 27 14 0 5 123456)) None
              = Ret (Some (mk_datetime 2017 6 28 12 0 0 0, "see you")))
    by (vm_compute; reflexivity).
  split; [exact E|]. exact (datetime_result_shape _ _ _ _ _ E).
Defined.

(** ** A month without a day *)

Lemma months_cases : forall w, mem w months = true ->
  In w ["january"; "february"; "march"; "april"; "may"; "june"; "july";
        "august"; "september"; "october"; "november"; "december"].
Proof.
  intros w H. unfold mem in H. apply existsb_exists in H.
  destruct H as [x [Hx E]]. apply String.eqb_eq in E. subst x. exact Hx.
Qed.

(** A month name that the date sweep kept without a day number cannot be
    turned into a date: both formats tried, "%B %d" and "%B %d %Y", ask
    for a day, and the building of the result raises [ValueError].  "may"
    is a month name, so "i may go" is such a text. *)
Theorem bare_month_raises : forall dateNow default_time c,
  mem (datestr c) months = true ->
  compose_result dateNow default_time c = Raise ValueError.
Proof.
  intros dateNow dt c H. unfold compose_result.
  assert (Hne : nonempty (datestr c) = true).
  { destruct (datestr c); [discriminate H | reflexivity]. }
  rewrite Hne. unfold apply_datestr.
  assert (Hp : parse_datestr (datestr c) = Raise ValueError).
  { apply months_cases in H. cbn [In] in H.
    repeat (destruct H as [<- | H]; [vm_compute; reflexivity|]). destruct H. }
  rewrite Hp. reflexivity.
Qed.

Lemma bare_month_raises_witness :
  (exists c, sweeps tuesday_14h "i may go" = Ret (inr c) /\ datestr c = "may"
             /\ compose_result tuesday_14h None c = Raise ValueError)
  /\ extract_datetime_en "i may go" (Some tuesday_14h) None = Raise ValueError.
Proof.
  split.
  - assert (E : exists c, sweeps tuesday_14h "i may go" = Ret (inr c)
                          /\ datestr c = "may").
    { eexists. split; vm_compute; reflexivity. }
    destruct E as [c [E1 E2]]. exists c. split; [exact E1|]. split; [exact E2|].
    apply bare_month_raises. rewrite E2. reflexivity.
  - vm_compute. reflexivity.
Defined.

(** ** An "and" at the end *)

Lemma nth_set_nth : forall l n v k,
  nth k (set_nth l n v) "" = if (Nat.eqb k n && (n <? List.length l)%nat)%bool then v
                             else nth k l "".
Proof.
  induction l as [|x l IH]; intros n v k.
  - cbn. rewrite andb_false_r. reflexivity.
  - destruct n as [|n]; destruct k as [|k]; cbn [set_nth nth List.length]; try reflexivity.
    rewrite IH. reflexivity.
Qed.

Lemma blank_ands_trailing : forall turns idx ws,
  ends_in_and ws ->
  (idx + S turns = List.length ws)%nat ->
  blank_ands ws (Z.of_nat idx) (S turns) = Raise IndexError.
Proof.
  induction turns as [|turns IH]; intros idx ws [Hlen [Hlast Hprev]] Hidx.
  - assert (Ei : idx = (List.length ws - 1)%nat) by lia. subst idx.
    cbn [blank_ands].
    rewrite get_py_in_range by lia. rewrite Nat2Z.id, Hlast. cbn [bind].
    change (String.eqb "and" "and") with true. cbv iota.
    rewrite get_py_in_range by lia.
    replace (Z.to_nat (Z.of_nat (List.length ws - 1) - 1)) with (List.length ws - 2)%nat
      by lia.
    rewrite Hprev. cbn [bind nonempty negb].
    unfold get_py.
    replace (Z.of_nat (List.length ws - 1) + 1 <? 0) with false
      by (symmetry; apply Z.ltb_ge; lia).
    replace ((0 <=? Z.of_nat (List.length ws - 1) + 1)
             && (Z.of_nat (List.length ws - 1) + 1 <? Z.of_nat (List.length ws)))
      with false
      by (symmetry; apply andb_false_iff; right; apply Z.ltb_ge; lia).
    reflexivity.
  - cbn [blank_ands].
    rewrite get_py_in_range by lia. cbn [bind].
    set (w := nth (Z.to_nat (Z.of_nat idx)) ws "").
    assert (Hstep : forall ws', ends_in_and ws' -> List.length ws' = List.length ws ->
              blank_ands ws' (Z.of_nat idx + 1) (S turns) = Raise IndexError).
    { intros ws' H' HL. replace (Z.of_nat idx + 1) with (Z.of_nat (S idx)) by lia.
      apply IH; [exact H' | lia]. }
    assert (Hsame : blank_ands ws (Z.of_nat idx + 1) (S turns) = Raise IndexError).
    { apply Hstep; [repeat split; assumption | reflexivity]. }
    destruct (String.eqb w "and") eqn:Ew; [|cbn [bind]; exact Hsame].
    assert (Hp : exists p, get_py ws (Z.of_nat idx - 1) = Ret p).
    { unfold get_py. destruct (Z.of_nat idx - 1 <? 0) eqn:En.
      - apply Z.ltb_lt in En.
        replace ((0 <=? Z.of_nat idx - 1 + Z.of_nat (List.length ws))
                 && (Z.of_nat idx - 1 + Z.of_nat (List.length ws)
                     <? Z.of_nat (List.length ws))) with true
          by (symmetry; apply andb_true_iff; split;
              [apply Z.leb_le | apply Z.ltb_lt]; lia).
        eexists. reflexivity.
      - apply Z.ltb_ge in En.
        replace ((0 <=? Z.of_nat idx - 1)
                 && (Z.of_nat idx - 1 <? Z.of_nat (List.length ws))) with true
          by (symmetry; apply andb_true_iff; split;
              [apply Z.leb_le | apply Z.ltb_lt]; lia).
        eexists. reflexivity. }
    destruct Hp as [p Ep]. rewrite Ep. cbn [bind].
    destruct (negb (nonempty p)); [|cbn [bind]; exact Hsame].
    rewrite get_py_in_range by lia. cbn [bind].
    destruct (negb (nonempty _)); [|cbn [bind]; exact Hsame].
    rewrite set_py_in_range by lia. cbn [bind].
    apply Hstep; [|apply set_nth_length].
    unfold ends_in_and. rewrite set_nth_length. rewrite !nth_set_nth.
    rewrite Nat2Z.id.
    split; [exact Hlen|]. split.
    + replace (Nat.eqb (List.length ws - 1) idx) with false
        by (symmetry; apply Nat.eqb_neq; lia).
      exact Hlast.
    + destruct (Nat.eqb (List.length ws - 2) idx && (idx <? List.length ws)%nat)%bool;
        [reflexivity | exact Hprev].
Qed.

(** The last loop, which blanks an "and" left between two blanks, reads
    the word after the "and" without asking whether there is one: when
    the words end in a blank and an "and", it raises [IndexError].
    "tomorrow and" ends so once "tomorrow" is taken out. *)
Theorem trailing_and_raises : forall ws,
  ends_in_and ws ->
  blank_ands ws 0 (List.length ws) = Raise IndexError.
Proof.
  intros ws H. assert (Hlen := proj1 H).
  destruct (List.length ws) as [|n] eqn:E; [lia|].
  apply (blank_ands_trailing n O ws H). lia.
Qed.

Lemma trailing_and_raises_witness :
  blank_ands [""; "and"] 0 2 = Raise IndexError
  /\ extract_datetime_en "tomorrow and" (Some tuesday_14h) None = Raise IndexError.
Proof.
  split.
  - apply (trailing_and_raises [""; "and"]).
    repeat split. cbn. lia.
  - vm_compute. reflexivity.
Defined.



Lemma match_number_value : forall s v rest,
  match_number_at s = Some (v, rest) -> plain_decimal v.
Proof.
  intros s v rest. unfold match_number_at.
  destruct (span_digits_spec s) as [Hd [_ _]].
  destruct (span_digits s) as [d1 r1]. cbn [fst] in Hd.
  destruct (nonempty d1) eqn:Hn; [|discriminate].
  assert (H1 : isdigit d1 = true) by now apply isdigit_intro.
  assert (Hplain : plain_decimal d1) by (exists d1, ""; auto).
  destruct r1 as [|c r].
  - intros E; inversion E; subst. exact Hplain.
  - destruct (Ascii.eqb c ".").
    + destruct (span_digits_spec r) as [Hd2 [_ _]].
      destruct (span_digits r) as [d2 r']. cbn [fst] in Hd2.
      destruct (nonempty d2) eqn:Hn2.
      * intros E; inversion E; subst.
        exists d1, d2. split; [exact H1|]. right. split; [|reflexivity].
        now apply isdigit_intro.
      * intros E; inversion E; subst. exact Hplain.
    + intros E; inversion E; subst. exact Hplain.
Qed.

Lemma scan_numbers_values : forall s skip, Forall plain_decimal (scan_numbers skip s).
Proof.
  induction s as [|c s IH]; intros skip; cbn [scan_numbers].
  - constructor.
  - destruct skip as [|k]; [|apply IH].
    destruct (match_number_at (String c s)) as [[v rest]|] eqn:E; [|apply IH].
    constructor; [now apply match_number_value in E | apply IH].
Qed.

Lemma numerals_convert : forall ms,
  Forall plain_decimal ms ->
  exists fs, map_outcome float_of_string ms = Ret fs
             /\ Forall2 (fun m f => float_of_string m = Ret f) ms fs.
Proof.
  induction ms as [|m ms IH]; intros H.
  - exists []. split; [reflexivity | constructor].
  - inversion H; subst.
    destruct (plain_decimal_numeric m H2) as [f Ef].
    destruct (IH H3) as [fs [Efs Hfs]].
    exists (f :: fs). split.
    + cbn [map_outcome]. rewrite Ef. cbn [bind]. rewrite Efs. reflexivity.
    + now constructor.
Qed.

Lemma no_digit_no_number : forall s skip,
  str_forallb (fun c => negb (isdigit_c c)) s = true -> scan_numbers skip s = [].
Proof.
  induction s as [|c s IH]; intros skip H; cbn [scan_numbers]; [reflexivity|].
  cbn [str_forallb] in H. apply andb_prop in H. destruct H as [Hc H].
  destruct skip as [|k]; [|now apply IH].
  unfold match_number_at. cbn [span_digits].
  apply negb_true_iff in Hc. rewrite Hc. cbn [nonempty]. now apply IH.
Qed.

(** [extract_numbers_en] returns whenever the rewriter of number words
    returns, and fails as the rewriter fails: every piece the pattern finds
    in the rewritten text is an unsigned decimal numeral, which [float]
    accepts.  The numbers returned are the floats of these numerals, one
    for each, so a sign the rewriter wrote is not read: "minus two" is
    rewritten to "-2" and gives 2.0. *)
Theorem extract_numbers_en_reads_numerals :
  (forall text short_scale ordinals,
     match convert_words_to_numbers text short_scale ordinals with
     | Ret text' =>
         exists fs,
           extract_numbers_en text short_scale ordinals = Ret fs
           /\ Forall plain_decimal (findall_numbers text')
           /\ Forall2 (fun m f => float_of_string m = Ret f)
                      (findall_numbers text') fs
     | Raise e => extract_numbers_en text short_scale ordinals = Raise e
     end)
  /\ convert_words_to_numbers "minus two" true false = Ret "-2"
  /\ extract_numbers_en "minus two" true false = Ret [2%float]
  /\ extractnumber_en "minus two" true false = Ret (PInt (-2)).
Proof.
  split; [|repeat split; vm_compute; reflexivity].
  intros text ss ord. unfold extract_numbers_en.
  destruct (convert_words_to_numbers text ss ord) as [text'|e]; [|reflexivity].
  cbn [bind].
  assert (Hv : Forall plain_decimal (findall_numbers text'))
    by apply scan_numbers_values.
  destruct (numerals_convert _ Hv) as [fs [E1 E2]].
  exists fs. repeat split; assumption.
Qed.



(** ** Normalisation *)

Lemma fold_normalize : forall r ws acc,
  fold_left (normalize_word r) ws acc
  = acc ++ spaced (map changed (filter (kept r) ws)).
Proof.
  induction ws as [|w ws IH]; intros acc; cbn [fold_left filter map spaced].
  - now rewrite append_nil_r.
  - rewrite IH. unfold normalize_word, kept.
    destruct (r && mem w ["the"; "a"; "an"]); cbn [negb]; [reflexivity|].
    cbn [map spaced]. fold (changed w). now rewrite !append_assoc.
Qed.

Lemma drop_spaced : forall l, drop 1 (spaced l) = join " " l.
Proof.
  assert (H : forall l e, e ++ spaced l = join " " (e :: l)).
  { induction l as [|x l IH]; intros e; cbn [spaced].
    - cbn. apply append_nil_r.
    - rewrite IH. reflexivity. }
  intros [|e l]; [reflexivity|]. cbn [spaced]. cbn [append drop]. apply H.
Qed.

Lemma normalize_en_words : forall text r,
  normalize_en text r = join " " (map changed (filter (kept r) (split text))).
Proof.
  intros text r. unfold normalize_en. rewrite fold_normalize. cbn [append].
  apply drop_spaced.
Qed.

Lemma split_from_app_space : forall a cur b,
  split_from cur (a ++ String " " b) = (split_from cur a ++ split b)%list.
Proof.
  induction a as [|c a IH]; intros cur b.
  - cbn [append split_from]. change (isspace_c " ") with true. cbv iota.
    destruct (nonempty cur); reflexivity.
  - cbn [append split_from]. destruct (isspace_c c).
    + destruct (nonempty cur); cbn [app]; now rewrite IH.
    + apply IH.
Qed.

Lemma split_join_concat : forall l, split (join " " l) = List.concat (map split l).
Proof.
  induction l as [|e l IH]; [reflexivity|].
  destruct l as [|x l].
  - cbn [join String.concat map List.concat]. now rewrite app_nil_r.
  - change (join " " (e :: x :: l)) with (e ++ String " " (join " " (x :: l))).
    unfold split at 1. rewrite split_from_app_space.
    cbn [map List.concat]. f_equal. exact IH.
Qed.

Lemma join_app : forall a b,
  a <> [] -> b <> [] ->
  join " " (a ++ b) = join " " a ++ " " ++ join " " b.
Proof.
  induction a as [|x a IH]; intros b Ha Hb; [contradiction|].
  destruct a as [|y a].
  - destruct b as [|z b]; [contradiction|]. reflexivity.
  - change (join " " ((x :: y :: a) ++ b)) with (x ++ " " ++ join " " ((y :: a) ++ b)).
    rewrite IH by (auto; discriminate).
    change (join " " (x :: y :: a)) with (x ++ " " ++ join " " (y :: a)).
    now rewrite !append_assoc.
Qed.

Lemma join_concat_settled : forall r l,
  forallb (settled r) l = true ->
  join " " (List.concat (map split l)) = join " " l.
Proof.
  induction l as [|e l IH]; intros H; [reflexivity|].
  cbn [forallb] in H. apply andb_prop in H. destruct H as [He H].
  unfold settled in He. apply andb_prop in He. destruct He as [He _].
  apply andb_prop in He. destruct He as [Hn Hj].
  apply String.eqb_eq in Hj.
  cbn [map List.concat].
  destruct l as [|x l].
  - cbn [map List.concat]. rewrite app_nil_r. exact Hj.
  - assert (Hx : List.concat (map split (x :: l)) <> []).
    { cbn [forallb] in H. apply andb_prop in H. destruct H as [Hx _].
      unfold settled in Hx. apply andb_prop in Hx. destruct Hx as [Hx _].
      apply andb_prop in Hx. destruct Hx as [Hx _].
      cbn [map List.concat]. destruct (split x); [discriminate Hx | discriminate]. }
    rewrite join_app; [| destruct (split e); [discriminate Hn | discriminate] | exact Hx].
    rewrite IH by exact H. rewrite Hj. reflexivity.
Qed.

Lemma settled_words_stay : forall r ws,
  forallb (fun u => String.eqb (changed u) u && kept r u) ws = true ->
  map changed (filter (kept r) ws) = ws.
Proof.
  induction ws as [|u ws IH]; intros H; [reflexivity|].
  cbn [forallb] in H. apply andb_prop in H. destruct H as [Hu H].
  apply andb_prop in Hu. destruct Hu as [Hc Hk]. apply String.eqb_eq in Hc.
  cbn [filter]. rewrite Hk. cbn [map]. now rewrite Hc, IH.
Qed.

Lemma concat_settled_words : forall r l,
  forallb (settled r) l = true ->
  forallb (fun u => String.eqb (changed u) u && kept r u)
          (List.concat (map split l)) = true.
Proof.
  induction l as [|e l IH]; intros H; [reflexivity|].
  cbn [forallb] in H. apply andb_prop in H. destruct H as [He H].
  cbn [map List.concat]. rewrite forallb_app, IH by exact H.
  unfold settled in He. apply andb_prop in He. destruct He as [_ He].
  now rewrite He.
Qed.

Lemma index_of_bound : forall s l i,
  index_of s l = Some i -> In (nth i l "") l /\ (i < List.length l)%nat.
Proof.
  induction l as [|x l IH]; intros i H; [discriminate|].
  cbn [index_of] in H. destruct (String.eqb x s).
  - inversion H; subst. cbn. split; [now left | lia].
  - destruct (index_of s l) as [j|]; [|discriminate]. inversion H; subst.
    destruct (IH j eq_refl) as [H1 H2]. cbn. split; [now right | lia].
Qed.

Lemma changed_settled : forall r w,
  is_word w = true -> kept r w = true -> settled r (changed w) = true.
Proof.
  intros r w Hw Hk.
  assert (Hexp : forallb (fun e => settled r
                    match index_of e textNumbers with
                    | Some i => str_of_Z (Z.of_nat i)
                    | None => e
                    end) expansion = true)
    by (destruct r; vm_compute; reflexivity).
  assert (Hnum : forallb (fun i => settled r (str_of_Z (Z.of_nat i)))
                         (seq 0 (List.length textNumbers)) = true)
    by (destruct r; vm_compute; reflexivity).
  unfold changed.
  destruct (index_of w contraction) as [i|] eqn:Ec.
  - apply index_of_bound in Ec. destruct Ec as [_ Hlt].
    rewrite forallb_forall in Hexp. refine (Hexp _ _).
    apply nth_In. exact Hlt.
  - destruct (index_of w textNumbers) as [j|] eqn:En.
    + apply index_of_bound in En. destruct En as [_ Hlt].
      rewrite forallb_forall in Hnum.
      refine (Hnum j _). apply in_seq. lia.
    + unfold settled.
      assert (Hs : split w = [w]).
      { apply (split_join [w]). cbn [forallb]. now rewrite Hw. }
      rewrite Hs. cbn [List.length Nat.eqb negb join String.concat forallb].
      rewrite String.eqb_refl. unfold changed. rewrite Ec, En.
      now rewrite String.eqb_refl, Hk.
Qed.

Lemma normalize_en_settled : forall text r,
  forallb (settled r) (map changed (filter (kept r) (split text))) = true.
Proof.
  intros text r. apply forallb_forall. intros e He.
  apply in_map_iff in He. destruct He as [w [<- Hw]].
  apply filter_In in Hw. destruct Hw as [Hin Hk].
  apply changed_settled; [|exact Hk].
  assert (H := split_words text). rewrite forallb_forall in H. now apply H.
Qed.

(** [normalize_en] is idempotent: the words it writes (the expansions of
    the contractions, the digits of the number names) are words it leaves
    alone.  Its result has single spaces between the words and no white
    space at either end; and when articles are to be removed, no word of
    the result is "the", "a" or "an". *)
Theorem normalize_en_idempotent : forall text remove_articles,
  normalize_en (normalize_en text remove_articles) remove_articles
  = normalize_en text remove_articles
  /\ normalised (normalize_en text remove_articles)
  /\ forallb (kept remove_articles) (split (normalize_en text remove_articles)) = true.
Proof.
  intros text r.
  assert (Hs := normalize_en_settled text r).
  assert (Hw := concat_settled_words r _ Hs).
  set (out := map changed (filter (kept r) (split text))) in *.
  assert (Hsplit : split (normalize_en text r) = List.concat (map split out)).
  { rewrite normalize_en_words. apply split_join_concat. }
  assert (Hjoin : join " " (List.concat (map split out)) = normalize_en text r).
  { rewrite normalize_en_words. now apply (join_concat_settled r). }
  split; [|split].
  - rewrite (normalize_en_words (normalize_en text r)), Hsplit.
    rewrite settled_words_stay by exact Hw. exact Hjoin.
  - unfold normalised. now rewrite Hsplit.
  - rewrite Hsplit. rewrite forallb_forall in *. intros u Hu.
    specialize (Hw u Hu). now apply andb_prop in Hw.
Qed.

(** ** The rewriter with one number *)

Lemma words_tokens_from : forall i ws, map word (tokens_from i ws) = ws.
Proof.
  intros i ws. unfold tokens_from. rewrite map_map. cbn [word].
  apply enumerate_from_snd.
Qed.

Lemma rewrite_inside : forall ws i r results,
  start_index r < i -> i <= end_index r ->
  end_index r < i + Z.of_nat (List.length ws) ->
  rewrite_tokens (tokens_from i ws) [r] results
  = (results ++ skipn (Z.to_nat (end_index r - i + 1)) ws)%list.
Proof.
  induction ws as [|w ws IH]; intros i r results Hs He Hn.
  - cbn in Hn. lia.
  - cbn [tokens_from enumerate_from map fst snd rewrite_tokens index word].
    replace (i <? start_index r) with false by (symmetry; apply Z.ltb_ge; lia).
    replace (i =? start_index r) with false by (symmetry; apply Z.eqb_neq; lia).
    destruct (i =? end_index r) eqn:E.
    + apply Z.eqb_eq in E. rewrite <- E.
      replace (Z.to_nat (i - i + 1)) with 1%nat by lia. cbn [skipn].
      change (map _ (enumerate_from (i + 1) ws)) with (tokens_from (i + 1) ws).
      now rewrite rewrite_tokens_nil, words_tokens_from.
    + apply Z.eqb_neq in E.
      change (map _ (enumerate_from (i + 1) ws)) with (tokens_from (i + 1) ws).
      rewrite IH by (cbn [List.length] in Hn; lia).
      replace (Z.to_nat (end_index r - i + 1))
        with (S (Z.to_nat (end_index r - (i + 1) + 1))) by lia.
      reflexivity.
Qed.

Lemma rewrite_one : forall ws i r results,
  i <= start_index r -> start_index r <= end_index r ->
  end_index r < i + Z.of_nat (List.length ws) ->
  rewrite_tokens (tokens_from i ws) [r] results
  = (results ++ firstn (Z.to_nat (start_index r - i)) ws
       ++ [str_of_pyval (value r)]
       ++ skipn (Z.to_nat (end_index r - i + 1)) ws)%list.
Proof.
  induction ws as [|w ws IH]; intros i r results Hs Hse Hn.
  - cbn in Hn. lia.
  - cbn [tokens_from enumerate_from map fst snd rewrite_tokens index word].
    change (map _ (enumerate_from (i + 1) ws)) with (tokens_from (i + 1) ws).
    destruct (i <? start_index r) eqn:E.
    + apply Z.ltb_lt in E.
      rewrite IH by (cbn [List.length] in Hn; lia).
      replace (Z.to_nat (start_index r - i))
        with (S (Z.to_nat (start_index r - (i + 1)))) by lia.
      replace (Z.to_nat (end_index r - i + 1))
        with (S (Z.to_nat (end_index r - (i + 1) + 1))) by lia.
      cbn [firstn skipn]. now rewrite <- app_assoc.
    + apply Z.ltb_ge in E. assert (Ei : i = start_index r) by lia.
      rewrite <- Ei. rewrite Z.eqb_refl.
      replace (Z.to_nat (i - i)) with O by lia. cbn [firstn app].
      destruct (i =? end_index r) eqn:Ee.
      * apply Z.eqb_eq in Ee. rewrite <- Ee.
        replace (Z.to_nat (i - i + 1)) with 1%nat by lia. cbn [skipn].
        now rewrite rewrite_tokens_nil, words_tokens_from, <- app_assoc.
      * apply Z.eqb_neq in Ee.
        rewrite rewrite_inside by (cbn [List.length] in Hn; lia).
        replace (Z.to_nat (end_index r - i + 1))
          with (S (Z.to_nat (end_index r - (i + 1) + 1))) by lia.
        cbn [skipn]. now rewrite <- app_assoc.
Qed.

(** When one number is found in the text, the rewriter puts the number, as
    [str] writes it, in the place of the words from its first to its last
    index, and keeps the words before and after as they are. *)
Theorem convert_one_number : forall text short_scale ordinals r,
  extract_numbers_with_text text short_scale ordinals = Ret [r] ->
  convert_words_to_numbers text short_scale ordinals
  = Ret (join " "
           (firstn (Z.to_nat (start_index r)) (split text)
            ++ [str_of_pyval (value r)]
            ++ skipn (Z.to_nat (end_index r + 1)) (split text))).
Proof.
  intros text ss ord r H.
  assert (Hf : Forall (span_within (List.length (split text))) [r]).
  { assert (H' := H).
    unfold extract_numbers_with_text, extract_numbers_with_text_in in H'.
    apply (loop_results extract_number_tokens tokens_sound) in H'.
    destruct H' as [found [E [Hf _]]]. cbn [app] in E. now subst found. }
  inversion Hf as [|x l [_ [H0 [Hse He]]] _]; subst.
  unfold convert_words_to_numbers. rewrite H. cbn [bind sort_by_start fold_right insert_by_start].
  change (_tokenize text) with (tokens_from 0 (split text)).
  rewrite rewrite_one by lia.
  cbn [app]. now rewrite !Z.sub_0_r.
Qed.

Lemma convert_one_number_witness :
  convert_words_to_numbers "i have the two and a half cups" true false
  = Ret "i have the 2.5 cups".
Proof.
  assert (E : exists r,
            extract_numbers_with_text "i have the two and a half cups" true false
            = Ret [r] /\ value r = PFloat 2.5 /\ start_index r = 3 /\ end_index r = 6).
  { eexists. split; [vm_compute; reflexivity|]. repeat split. }
  destruct E as [r [E [Hv [Hs He]]]].
  rewrite (convert_one_number _ _ _ _ E), Hv, Hs, He.
  vm_compute. reflexivity.
Defined.

(** ** "now" as the first word *)

(** When the first word of the cleaned text is "now" (with or without
    final s), the extractor returns at once: the reference instant with
    its microsecond set to 0, the time of day kept, and all the words
    after "now" as the remaining text, whatever dates or times they
    name. *)
Theorem now_first_returns_at_once : forall s dateNow default_time w ws,
  clean_string s = Ret (w :: ws) ->
  rstrip_s w = "now" ->
  extract_datetime_en s (Some dateNow) default_time
  = Ret (Some (zero_microsecond dateNow, join " " (split (join " " ws)))).
Proof.
  intros s dateNow dt w ws Hc Hw.
  assert (Hs : nonempty s = true).
  { destruct s; [discriminate Hc | reflexivity]. }
  unfold extract_datetime_en. rewrite Hs. cbn [negb].
  unfold sweeps. rewrite Hc. cbn [bind List.length date_sweep].
  unfold date_word.
  change (word_or_empty (words (initial_ctx (w :: ws))) 0) with w.
  assert (Hne : nonempty w = true).
  { destruct w; [discriminate Hw | reflexivity]. }
  rewrite Hne. cbn [negb]. rewrite Hw.
  unfold date_branch.
  change (String.eqb "now" "now" && negb (nonempty (datestr (initial_ctx (w :: ws)))))
    with true.
  cbv iota. cbn [bind]. reflexivity.
Qed.

Lemma now_first_returns_at_once_witness :
  extract_datetime_en "now or tomorrow at 5" (Some (mk_datetime 2017 6 27 14 3 7 99)) None
  = Ret (Some (mk_datetime 2017 6 27 14 3 7 0, "or tomorrow at 5")).
Proof.
  apply (now_first_returns_at_once "now or tomorrow at 5"
           (mk_datetime 2017 6 27 14 3 7 99) None "now" ["or"; "tomorrow"; "at"; "5"]);
    vm_compute; reflexivity.
Defined.

(** ** The words that are left *)

Lemma blanked_refl : forall ws, blanked ws ws.
Proof. induction ws; constructor; auto. Qed.

Lemma blanked_trans : forall a b c, blanked a b -> blanked b c -> blanked a c.
Proof.
  intros a b c H. revert c. induction H as [|x y l l' Hxy H IH]; intros c Hc.
  - inversion Hc. constructor.
  - inversion Hc; subst. constructor; [|now apply IH].
    destruct H2 as [-> | ->]; [exact Hxy | now right].
Qed.

Lemma blanked_set_nth : forall ws n, blanked ws (set_nth ws n "").
Proof.
  induction ws as [|w ws IH]; intros n; [constructor|].
  destruct n; cbn [set_nth]; constructor.
  - now right.
  - apply blanked_refl.
  - now left.
  - apply IH.
Qed.

Lemma set_py_blanked : forall ws i ws',
  set_py ws i "" = Ret ws' -> blanked ws ws'.
Proof.
  intros ws i ws' H. unfold set_py in H.
  destruct (_ && _); [|discriminate H]. inversion H. apply blanked_set_nth.
Qed.

Lemma blank_range_blanked : forall count ws start i ws',
  blank_range ws start i count = Ret ws' -> blanked ws ws'.
Proof.
  induction count as [|n IH]; intros ws start i ws' H; cbn [blank_range] in H.
  - inversion H. apply blanked_refl.
  - destruct (set_py ws (i + start) "") as [l|e] eqn:E; cbn [bind] in H; [|discriminate H].
    apply set_py_blanked in E. apply IH in H. now apply (blanked_trans _ l).
Qed.

Lemma blank_used_blanked : forall count ws idx i ws',
  blank_used ws idx i count = Ret ws' -> blanked ws ws'.
Proof.
  induction count as [|n IH]; intros ws idx i ws' H; cbn [blank_used] in H.
  - inversion H. apply blanked_refl.
  - destruct (_ <=? _); [inversion H; apply blanked_refl|].
    destruct (set_py ws (idx + i) "") as [l|e] eqn:E; cbn [bind] in H; [|discriminate H].
    apply set_py_blanked in E. apply IH in H. now apply (blanked_trans _ l).
Qed.

Lemma blank_ands_blanked : forall turns ws idx ws',
  blank_ands ws idx turns = Ret ws' -> blanked ws ws'.
Proof.
  induction turns as [|n IH]; intros ws idx ws' H; cbn [blank_ands] in H.
  - inversion H. apply blanked_refl.
  - destruct (get_py ws idx) as [w|e]; cbn [bind] in H; [|discriminate H].
    match type of H with bind ?m _ = _ =>
      destruct m as [l|e] eqn:E; cbn [bind] in H; [|discriminate H] end.
    apply IH in H. apply (blanked_trans _ l); [|exact H].
    bind_cases E; try (inversion E; apply blanked_refl).
    now apply set_py_blanked in E.
Qed.

Lemma month_branch_words : forall w wpp wp wn wnn idx c start used c' s' u',
  month_branch w wpp wp wn wnn idx c start used = Ret (c', s', u') ->
  words c' = words c.
Proof.
  intros w wpp wp wn wnn idx c start used c' s' u' H. unfold month_branch in H.
  bind_cases H; inversion H; reflexivity.
Qed.

Lemma date_branch_words : forall dateNow idx w c c' s' u',
  date_branch dateNow idx w c = Ret (inr (c', s', u')) -> words c' = words c.
Proof.
  intros dateNow idx w c c' s' u' H. unfold date_branch in H.
  destruct (String.eqb w "now" && negb (nonempty (datestr c))); [discriminate H|].
  repeat match type of H with
         | bind (month_branch _ _ _ _ _ _ _ _ _) _ = _ =>
             let E := fresh "E" in
             destruct (month_branch _ _ _ _ _ _ _ _ _) as [[[? ?] ?]|] eqn:E;
             cbn [bind] in H; [apply month_branch_words in E | discriminate H]
         | bind ?m _ = _ =>
             let E := fresh "E" in
             destruct m eqn:E; cbn [bind] in H; [|discriminate H]
         | (if ?b then _ else _) = _ => destruct b
         | (let '(_, _) := ?x in _) = _ => destruct x
         | match ?x with _ => _ end = _ => destruct x
         end; inversion H; subst; try reflexivity; try assumption.
  repeat match goal with |- context [if ?b then _ else _] => destruct b end;
    reflexivity.
Qed.

Lemma date_followup_words : forall dateNow idx w c start used c' s' u',
  date_followup dateNow idx w c start used = (c', s', u') -> words c' = words c.
Proof.
  intros dateNow idx w c start used c' s' u' H. unfold date_followup in H.
  repeat match type of H with
         | (if ?b then _ else _) = _ => destruct b
         | (let '(_, _) := ?x in _) = _ => destruct x
         end; inversion H; reflexivity.
Qed.

Lemma date_consume_blanked : forall c start used c',
  date_consume c start used = Ret c' -> blanked (words c) (words c').
Proof.
  intros c start used c' H. unfold date_consume in H.
  destruct (0 <? used); [|inversion H; apply blanked_refl].
  match type of H with bind ?m _ = _ =>
    destruct m as [this|e]; cbn [bind] in H; [|discriminate H] end.
  destruct (if this then _ else _) as [st us].
  destruct (blank_range (words c) st 0 (Z.to_nat us)) as [ws1|e] eqn:E1;
    cbn [bind] in H; [|discriminate H].
  apply blank_range_blanked in E1.
  match type of H with bind ?m _ = _ =>
    destruct m as [ws2|e] eqn:E2; cbn [bind] in H; [|discriminate H] end.
  inversion H; subst. cbn [words set_daySpecified set_found set_words].
  apply (blanked_trans _ ws1); [exact E1|].
  bind_cases E2; try (inversion E2; apply blanked_refl).
  now apply set_py_blanked in E2.
Qed.

Lemma date_word_blanked : forall dateNow idx c c',
  date_word dateNow idx c = Ret (inr c') -> blanked (words c) (words c').
Proof.
  intros dateNow idx c c' H. unfold date_word in H.
  destruct (negb (nonempty _)); [inversion H; apply blanked_refl|].
  destruct (date_branch dateNow idx _ c) as [[res | [[c1 s1] u1]] | e] eqn:E;
    cbn [bind] in H; [discriminate H | | discriminate H].
  apply date_branch_words in E.
  destruct (date_followup _ _ _ _ _ _) as [[c2 s2] u2] eqn:E2.
  apply date_followup_words in E2.
  destruct (date_consume c2 s2 u2) as [c3|e] eqn:E3; cbn [bind] in H; [|discriminate H].
  apply date_consume_blanked in E3. inversion H; subst.
  now rewrite <- E, <- E2.
Qed.

Lemma date_branch_rest : forall dateNow idx w c r,
  date_branch dateNow idx w c = Ret (inl r) -> left_of (words c) (snd r).
Proof.
  intros dateNow idx w c r H. unfold date_branch in H.
  destruct (String.eqb w "now" && negb (nonempty (datestr c))).
  - inversion H; subst. cbn [snd].
    exists (words c), (Z.to_nat (idx + 1)). split; [apply blanked_refl | reflexivity].
  - exfalso. bind_cases H; discriminate H.
Qed.

Lemma date_word_rest : forall dateNow idx c r,
  date_word dateNow idx c = Ret (inl r) -> left_of (words c) (snd r).
Proof.
  intros dateNow idx c r H. unfold date_word in H.
  destruct (negb (nonempty _)); [discriminate H|].
  destruct (date_branch dateNow idx _ c) as [[res | [[c' start] used]] | e] eqn:E;
    cbn [bind] in H; [| |discriminate H].
  - inversion H; subst. now apply date_branch_rest in E.
  - destruct (date_followup _ _ _ _ _ _) as [[c2 s2] u2].
    destruct (date_consume c2 s2 u2); cbn [bind] in H; discriminate H.
Qed.

Lemma left_of_blanked : forall ws0 ws1 rest,
  blanked ws0 ws1 -> left_of ws1 rest -> left_of ws0 rest.
Proof.
  intros ws0 ws1 rest H [ws [k [Hb E]]]. exists ws, k.
  split; [now apply (blanked_trans _ ws1) | exact E].
Qed.

Lemma date_sweep_words : forall turns dateNow idx c,
  match date_sweep dateNow idx turns c with
  | Ret (inl r) => left_of (words c) (snd r)
  | Ret (inr c') => blanked (words c) (words c')
  | Raise _ => True
  end.
Proof.
  induction turns as [|turns IH]; intros dateNow idx c; cbn [date_sweep].
  - apply blanked_refl.
  - destruct (date_word dateNow idx c) as [[res | c1] | e] eqn:E; cbn [bind]; [| |exact I].
    + now apply date_word_rest in E.
    + apply date_word_blanked in E.
      specialize (IH dateNow (idx + 1) c1).
      destruct (date_sweep dateNow (idx + 1) turns c1) as [[r | c'] | e']; [| |exact I].
      * now apply (left_of_blanked _ (words c1)).
      * now apply (blanked_trans _ (words c1)).
Qed.

Lemma colon_qualifier_words : forall c p c' p',
  colon_qualifier c p = Ret (c', p') -> words c' = words c.
Proof.
  intros c p c' p' H. unfold colon_qualifier in H.
  bind_cases H; inversion H; reflexivity.
Qed.

Lemma colon_time_words : forall idx w wn wnn c c' p',
  colon_time idx w wn wnn c = Ret (c', p') -> words c' = words c.
Proof.
  intros idx w wn wnn c c' p' H. unfold colon_time in H.
  destruct (colon_scan _ _ _ _) as [[hh mm] rem].
  repeat match type of H with
         | colon_qualifier _ _ = _ => apply colon_qualifier_words in H; exact H
         | bind ?m _ = _ =>
             let E := fresh "E" in
             destruct m eqn:E; cbn [bind] in H; [|discriminate H]
         | (if ?b then _ else _) = _ => destruct b
         end; try (inversion H; reflexivity).
Qed.

Lemma plain_time_words : forall idx w wp wn wnn c c' p',
  plain_time idx w wp wn wnn c = Ret (c', p') -> words c' = words c.
Proof.
  intros idx w wp wn wnn c c' p' H. unfold plain_time in H.
  bind_cases H; inversion H; reflexivity.
Qed.

Lemma digit_time_words : forall dateNow idx w wp wn wnn c c' p',
  digit_time dateNow idx w wp wn wnn c = Ret (c', p') -> words c' = words c.
Proof.
  intros dateNow idx w wp wn wnn c c' p' H. unfold digit_time in H.
  match type of H with bind ?m _ = _ =>
    destruct m as [[c1 p1]|e] eqn:E; cbn [bind] in H; [|discriminate H] end.
  assert (E1 : words c1 = words c).
  { destruct (contains ":" w);
      [now apply colon_time_words in E | now apply plain_time_words in E]. }
  unfold digit_resolve in H.
  destruct (checked_clock dateNow c1 p1) as [[[HH MM] dOff]|e]; cbn [bind] in H;
    [|discriminate H].
  unfold finish_clock in H.
  destruct (isTime _); inversion H; subst; exact E1.
Qed.

Ltac blank_steps H :=
  repeat match type of H with
         | bind (set_py ?l ?i "") _ = _ =>
             let E := fresh "E" in let x := fresh "ws" in
             destruct (set_py l i "") as [x|] eqn:E; cbn [bind] in H;
             [apply set_py_blanked in E | discriminate H]
         | bind ?m _ = _ =>
             let E := fresh "E" in
             destruct m eqn:E; cbn [bind] in H; [|discriminate H]
         | (if ?b then _ else _) = _ => destruct b
         | (let '(_, _) := ?x in _) = _ => destruct x
         | match ?x with _ => _ end = _ => destruct x
         end.

Lemma time_consume_blanked : forall idx wpp wp u c c',
  time_consume idx wpp wp u c = Ret c' -> blanked (words c) (words c').
Proof.
  intros idx wpp wp u c c' H. unfold time_consume in H.
  destruct (0 <? u); [|inversion H; apply blanked_refl].
  destruct (blank_used (words c) idx 0 (Z.to_nat u)) as [ws1|e] eqn:E1;
    cbn [bind] in H; [|discriminate H].
  apply blank_used_blanked in E1.
  match type of H with bind ?m _ = _ =>
    destruct m as [ws2|e] eqn:E2; cbn [bind] in H; [|discriminate H] end.
  assert (B2 : blanked ws1 ws2).
  { blank_steps E2; try (inversion E2; apply blanked_refl).
    now apply set_py_blanked in E2. }
  match type of H with bind ?m _ = _ =>
    destruct m as [[[c3 ws3] idx3]|e] eqn:E3; cbn [bind] in H; [|discriminate H] end.
  assert (B3 : blanked ws2 ws3).
  { blank_steps E3; inversion E3; subst; try assumption; apply blanked_refl. }
  match type of H with bind ?m _ = _ =>
    destruct m as [[c4 ws4]|e] eqn:E4; cbn [bind] in H; [|discriminate H] end.
  assert (B4 : blanked ws3 ws4).
  { blank_steps E4; inversion E4; subst; try assumption; apply blanked_refl. }
  match type of H with bind ?m _ = _ =>
    destruct m as [[c5 ws5]|e] eqn:E5; cbn [bind] in H; [|discriminate H] end.
  assert (B5 : blanked ws4 ws5).
  { blank_steps E5; inversion E5; subst; try assumption; apply blanked_refl. }
  inversion H; subst. cbn [words set_found set_words].
  apply (blanked_trans _ ws1); [exact E1|].
  apply (blanked_trans _ ws2); [exact B2|].
  apply (blanked_trans _ ws3); [exact B3|].
  apply (blanked_trans _ ws4); [exact B4 | exact B5].
Qed.

Lemma optional_blank : forall (b : bool) (ws : list string) i m a,
  (if b then w3 <- get_py ws i ;;
             (if mem w3 m then set_py ws i "" else Ret ws)
   else Ret ws) = Ret a ->
  blanked ws a.
Proof.
  intros b ws i m a H. destruct b; [|inversion H; apply blanked_refl].
  destruct (get_py ws i) as [w3|e]; cbn [bind] in H; [|discriminate H].
  destruct (mem w3 m); [now apply set_py_blanked in H | inversion H; apply blanked_refl].
Qed.

Lemma hour_phrase_blanked : forall idx wpp wp c c',
  hour_phrase idx wpp wp c = Ret c' -> blanked (words c) (words c').
Proof.
  intros idx wpp wp c c' H. unfold hour_phrase in H.
  match type of H with bind ?m _ = _ =>
    destruct m as [[c1 ws1]|e] eqn:E1; cbn [bind] in H; [|discriminate H] end.
  assert (B1 : blanked (words c) ws1).
  { blank_steps E1; inversion E1; subst; cbn [words set_minOffset set_hrOffset] in *;
      try apply blanked_refl; try assumption.
    match goal with E : _ = Ret ?a |- _ => apply optional_blank in E end.
    eapply blanked_trans; eassumption. }
  match type of H with bind ?m _ = _ =>
    destruct m as [[c2 ws2]|e] eqn:E2; cbn [bind] in H; [|discriminate H] end.
  assert (B2 : blanked ws1 ws2).
  { blank_steps E2; inversion E2; subst; try assumption; apply blanked_refl. }
  destruct (set_py ws2 (idx - 1) "") as [ws3|e] eqn:E3; cbn [bind] in H; [|discriminate H].
  apply set_py_blanked in E3. inversion H; subst.
  cbn [words invalidate_anchors set_minAbs set_hrAbs set_words].
  apply (blanked_trans _ ws1); [exact B1|].
  apply (blanked_trans _ ws2); [exact B2 | exact E3].
Qed.

Lemma time_word_blanked : forall dateNow idx c c',
  time_word dateNow idx c = Ret c' -> blanked (words c) (words c').
Proof.
  intros dateNow idx c c' H. unfold time_word in H.
  destruct (negb (nonempty _)); [inversion H; apply blanked_refl|].
  match type of H with bind ?m _ = _ =>
    destruct m as [[c1 u]|e] eqn:E; cbn [bind] in H; [|discriminate H] end.
  apply time_consume_blanked in H.
  apply (blanked_trans _ (words c1)); [|exact H]. clear H.
  repeat match type of E with
         | bind (hour_phrase ?a ?b ?d ?x) _ = _ =>
             let E' := fresh "E" in let y := fresh "c" in
             destruct (hour_phrase a b d x) as [y|] eqn:E'; cbn [bind] in E;
             [apply hour_phrase_blanked in E' | discriminate E]
         | bind (digit_time ?a ?b ?d ?e ?f ?g ?x) _ = _ =>
             let E' := fresh "E" in let y := fresh "c" in let q := fresh "p" in
             destruct (digit_time a b d e f g x) as [[y q]|] eqn:E'; cbn [bind] in E;
             [apply digit_time_words in E' | discriminate E]
         | bind (set_py ?l ?i "") _ = _ =>
             let E' := fresh "E" in let x := fresh "ws" in
             destruct (set_py l i "") as [x|] eqn:E'; cbn [bind] in E;
             [apply set_py_blanked in E' | discriminate E]
         | bind ?m _ = _ =>
             let E' := fresh "E" in
             destruct m eqn:E'; cbn [bind] in E; [|discriminate E]
         | (if ?b then _ else _) = _ => destruct b
         end;
    inversion E; subst;
    cbn [words set_hrAbs set_hrOffset set_minOffset set_secOffset set_words];
    try apply blanked_refl; try assumption.
  all: try (match goal with E' : words _ = words _ |- _ => rewrite E' end;
            apply blanked_refl).
  all: repeat match goal with
              |- context [if ?b then _ else _] => destruct b
              end; apply blanked_refl.
Qed.

Lemma time_sweep_blanked : forall turns dateNow idx c c',
  time_sweep dateNow idx turns c = Ret c' -> blanked (words c) (words c').
Proof.
  induction turns as [|turns IH]; intros dateNow idx c c' H; cbn [time_sweep] in H.
  - inversion H. apply blanked_refl.
  - destruct (time_word dateNow idx c) as [c1|e] eqn:E; cbn [bind] in H; [|discriminate H].
    apply time_word_blanked in E. apply IH in H.
    now apply (blanked_trans _ (words c1)).
Qed.

Lemma compose_result_rest : forall dateNow dt c r,
  compose_result dateNow dt c = Ret r -> left_of (words c) (snd r).
Proof.
  intros dateNow dt c r H. unfold compose_result in H.
  repeat match type of H with
         | bind (blank_ands _ _ _) _ = _ => fail 1
         | bind ?m _ = _ =>
             destruct m; cbn [bind] in H; [|discriminate H]
         end.
  destruct (blank_ands _ _ _) as [ws|e] eqn:E; cbn [bind] in H; [|discriminate H].
  apply blank_ands_blanked in E. inversion H; subst. cbn [snd].
  exists ws, O. split; [exact E | reflexivity].
Qed.

(** The extractor invents no text and changes no order: the remaining text
    is made of the words of the cleaned text, some of them blanked (and,
    when "now" ends the reading, the words up to it left out), joined by
    single spaces. *)
Theorem remainder_is_the_words_left : forall s dateNow default_time d rest,
  extract_datetime_en s (Some dateNow) default_time = Ret (Some (d, rest)) ->
  exists ws0, clean_string s = Ret ws0 /\ left_of ws0 rest.
Proof.
  intros s dateNow dt d rest H. unfold extract_datetime_en in H.
  destruct (negb (nonempty s)); [discriminate H|].
  unfold sweeps in H.
  destruct (clean_string s) as [ws0|e]; cbn [bind] in H; [|discriminate H].
  exists ws0. split; [reflexivity|].
  assert (Hd := date_sweep_words (List.length ws0) dateNow 0 (initial_ctx ws0)).
  destruct (date_sweep dateNow 0 (List.length ws0) (initial_ctx ws0))
    as [[r | c] | e]; cbn [bind] in H; [| |discriminate H].
  - inversion H; subst. exact Hd.
  - destruct (time_sweep dateNow 0 _ c) as [c1|e] eqn:Et; cbn [bind] in H;
      [|discriminate H].
    apply time_sweep_blanked in Et.
    cbn [function_truth negb] in H.
    destruct (compose_result dateNow dt c1) as [r|e] eqn:Ec; cbn [bind] in H;
      [|discriminate H].
    apply compose_result_rest in Ec. inversion H; subst.
    apply (left_of_blanked _ (words c)); [exact Hd|].
    now apply (left_of_blanked _ (words c1)).
Qed.

Lemma remainder_is_the_words_left_witness :
  clean_string "See you Tomorrow, at noon and bring 2 friends."
  = Ret ["see"; "you"; "tomorrow"; "at"; "noon"; "and"; "bring"; "2"; "friends"]
  /\ left_of ["see"; "you"; "tomorrow"; "at"; "noon"; "and"; "bring"; "2"; "friends"]
             "see you and bring 2 friends".
Proof.
  assert (E : extract_datetime_en "See you Tomorrow, at noon and bring 2 friends."
                (Some tuesday_14h) None
              = Ret (Some (mk_datetime 2017 6 28 12 0 0 0, "see you and bring 2 friends")))
    by (vm_compute; reflexivity).
  destruct (remainder_is_the_words_left _ _ _ _ _ E) as [ws0 [Hc Hl]].
  assert (Hc' : clean_string "See you Tomorrow, at noon and bring 2 friends."
                = Ret ["see"; "you"; "tomorrow"; "at"; "noon"; "and"; "bring"; "2"; "friends"])
    by (vm_compute; reflexivity).
  split; [exact Hc'|].
  rewrite Hc' in Hc. inversion Hc; subst. exact Hl.
Defined.

(** * Past its guard the date-time extractor returns no [None]

    The test before the result is built is on the function [date_found]
    itself and not on what it returns, so the [return None] under it is
    never reached. *)

Theorem extract_datetime_not_absent : forall s d t r,
  nonempty s = true ->
  extract_datetime_en s (Some d) t = Ret r ->
  r <> None.
Proof.
  intros s d t r Hs H. unfold extract_datetime_en in H.
  rewrite Hs in H. cbn [negb] in H.
  destruct (sweeps d s) as [[res | c] | e]; cbn [bind] in H.
  - inversion H. discriminate.
  - cbn [function_truth negb] in H.
    destruct (compose_result d t c) as [res | e]; cbn [bind] in H.
    + inversion H. discriminate.
    + discriminate H.
  - discriminate H.
Qed.

Lemma extract_datetime_not_absent_witness :
  Some (mk_datetime 2017 6 27 0 0 0 0, "hello world") <> None.
Proof.
  apply (extract_datetime_not_absent "hello world" tuesday_14h None);
    [reflexivity | vm_compute; reflexivity].
Defined.

(** * The claims *)

(** C1 (the code departs from its own documentation).  The docstring of
    [extract_datetime_en] promises [None] when no date or time related text
    was found, and the source defines [date_found] for that test; but the
    test reads [if not date_found:], which looks at the function object and
    never calls it.  On "hello world" both sweeps find nothing, [date_found]
    would answer false, and yet the extractor returns the reference day at
    midnight with the whole text as remainder. *)
Theorem C1_no_signal_still_yields_a_datetime :
  extract_datetime_en "hello world" (Some tuesday_14h) None
  = Ret (Some (mk_datetime 2017 6 27 0 0 0 0, "hello world"))
  /\ exists c, sweeps tuesday_14h "hello world" = Ret (inr c)
               /\ date_found c = false.
Proof.
  split.
  - vm_compute. reflexivity.
  - eexists. split; vm_compute; reflexivity.
Qed.



(** C3, as amended.  The empty text is answered by [None], not by a pair.
    For every other text on which the rewriting of number words completes,
    the result is a pair: the seconds are the sum of the contributions of
    the matches and are [None] exactly when no unit pattern matched at all,
    and the remainder is what is left of the rewritten text once the matches
    are taken out, stripped of surrounding white space. *)
Theorem C3_duration_pair : forall text text',
  nonempty text = true ->
  convert_words_to_numbers text true false = Ret text' ->
  extract_duration_en "" = Ret None
  /\ exists pieces total,
       map_outcome contribution (unit_matches time_unit_to_seconds_map text')
       = Ret pieces
       /\ py_sum pieces = Ret total
       /\ extract_duration_en text
          = Ret (Some (match pieces with [] => None | _ => Some total end,
                       strip (unit_residual time_unit_to_seconds_map text')))
       /\ (pieces = [] <-> unit_matches time_unit_to_seconds_map text' = []).
Proof.
  intros text text' Hne Hconv.
  split; [reflexivity|].
  destruct (contributions_return _
              (unit_matches_ok time_unit_to_seconds_map text' table_multipliers))
    as [pieces [Ep [Hfl Hlen]]].
  destruct (py_sum_floats pieces (PInt 0) Hfl (or_introl eq_refl)) as [total Et].
  exists pieces, total.
  split; [exact Ep|]. split; [exact Et|]. split.
  - unfold extract_duration_en. rewrite Hne. cbn [negb].
    rewrite Hconv. cbn [bind].
    rewrite duration_units_spec, Ep. cbn [bind app].
    unfold py_sum in Et. unfold py_sum. rewrite Et. cbn [bind].
    destruct pieces; reflexivity.
  - split; intros E.
    + rewrite E in Hlen. simpl in Hlen. symmetry in Hlen.
      now apply length_zero_iff_nil in Hlen.
    + rewrite E in Hlen. simpl in Hlen.
      now apply length_zero_iff_nil in Hlen.
Qed.

(** "0 seconds": one match, and the sum zero is a value, not [None]. *)
Lemma C3_duration_pair_witness :
  nonempty "0 seconds" = true
  /\ convert_words_to_numbers "0 seconds" true false = Ret "0 seconds"
  /\ extract_duration_en "0 seconds" = Ret (Some (Some (PFloat 0), "")).
Proof.
  assert (Hc : convert_words_to_numbers "0 seconds" true false = Ret "0 seconds")
    by (vm_compute; reflexivity).
  split; [reflexivity|]. split; [exact Hc|].
  destruct (C3_duration_pair "0 seconds" "0 seconds" eq_refl Hc)
    as [_ [pieces [total [Ep [Et [E _]]]]]].
  rewrite E.
  assert (Ep' : map_outcome contribution
                  (unit_matches time_unit_to_seconds_map "0 seconds")
                = Ret [PFloat 0]) by (vm_compute; reflexivity).
  rewrite Ep' in Ep. inversion Ep; subst pieces.
  assert (Et' : py_sum [PFloat 0] = Ret (PFloat 0)) by (vm_compute; reflexivity).
  rewrite Et' in Et. inversion Et; subst total.
  vm_compute. reflexivity.
Defined.

(** The claim as stated fails at the empty text: the result is [None], which
    is not a pair. *)
Lemma C3_counterexample : extract_duration_en "" = Ret None.
Proof. reflexivity. Qed.

(** C4.  "twenty two" is 22, "two hundred" is 200, "two and a half" is 2.5
    and "3/4" is 0.75. *)
Theorem C4_number_examples :
  extractnumber_en "twenty two" true false = Ret (PInt 22)
  /\ extractnumber_en "two hundred" true false = Ret (PInt 200)
  /\ extractnumber_en "two and a half" true false = Ret (PFloat 2.5)
  /\ extractnumber_en "3/4" true false = Ret (PFloat 0.75).
Proof. repeat split; vm_compute; reflexivity. Qed.



(** C6.  For a weekday name met by the date sweep while no from-flag is
    set, the day offset is the place of the name in the list Monday to
    Sunday plus one, minus the Sunday-based weekday number of the reference
    day, plus 7 when that is negative; a further 7 is added when the word
    before is "next" and 7 is taken away when it is "last". *)
Theorem C6_weekday_offset : forall dateNow idx c,
    let ws := words c in
    let w := rstrip_s (word_or_empty ws idx) in
    let wordPrev := word_or_empty ws (idx - 1) in
    let wordNext := word_or_empty ws (idx + 1) in
    let today := weekday_w dateNow in
    let d := pos_of w days in
    let offset := if (d + 1) - today <? 0 then (d + 1) - today + 7
                  else (d + 1) - today in
    mem w days = true ->
    fromFlag c = false ->
    mem wordNext year_multiples = false ->
    0 <= today < 7
    /\ exists c',
         date_word dateNow idx c = Ret (inr c')
         /\ dayOffset c' = if String.eqb wordPrev "next" then offset + 7
                           else if String.eqb wordPrev "last" then offset - 7
                           else offset.
Proof.
  intros dateNow idx c ws w wordPrev wordNext today d offset Hw Hf Hy.
  split; [apply weekday_w_range|].
  assert (Hne : nonempty (word_or_empty ws idx) = true).
  { unfold w in Hw. destruct (word_or_empty ws idx); [discriminate Hw | reflexivity]. }
  assert (Hidx := word_or_empty_in_range _ _ Hne).
  unfold date_word. fold ws. rewrite Hne. simpl. fold w.
  rewrite date_branch_weekday by assumption.
  unfold weekday_branch. fold ws wordPrev today d.
  destruct (String.eqb wordPrev "next") eqn:En;
    [| destruct (String.eqb wordPrev "last") eqn:El ].
  - assert (Hp : 0 <= idx - 1 < Z.of_nat (List.length ws)).
    { apply word_or_empty_in_range. fold wordPrev.
      apply String.eqb_eq in En. now rewrite En. }
    simpl. rewrite date_followup_weekday by assumption.
    destruct (date_consume_returns (set_dayOffset (offset + 7) c) (idx - 1) 2)
      as [c' [E [Hd _]]]; [lia | lia | simpl; fold ws; lia |].
    unfold offset in E. rewrite E. simpl. exists c'. split; [reflexivity | exact Hd].
  - assert (Hp : 0 <= idx - 1 < Z.of_nat (List.length ws)).
    { apply word_or_empty_in_range. fold wordPrev.
      apply String.eqb_eq in El. now rewrite El. }
    simpl. rewrite date_followup_weekday by assumption.
    destruct (date_consume_returns (set_dayOffset (offset - 7) c) (idx - 1) 2)
      as [c' [E [Hd _]]]; [lia | lia | simpl; fold ws; lia |].
    unfold offset in E. rewrite E. simpl. exists c'. split; [reflexivity | exact Hd].
  - simpl. rewrite date_followup_weekday by assumption.
    destruct (date_consume_returns (set_dayOffset offset c) idx 1)
      as [c' [E [Hd _]]]; [lia | lia | simpl; fold ws; lia |].
    unfold offset in E. rewrite E. simpl. exists c'. split; [reflexivity | exact Hd].
Qed.

(** "next friday" on a Tuesday: Friday is at place 4, Tuesday is weekday 2,
    so the offset is 3, and 10 with "next". *)
Lemma C6_weekday_offset_witness :
  mem (rstrip_s "friday") days = true
  /\ weekday_w tuesday_14h = 2
  /\ exists c', date_word tuesday_14h 1 (initial_ctx ["next"; "friday"]) = Ret (inr c')
                /\ dayOffset c' = 10.
Proof.
  split; [reflexivity|]. split; [reflexivity|].
  destruct (C6_weekday_offset tuesday_14h 1 (initial_ctx ["next"; "friday"])
              eq_refl eq_refl eq_refl) as [_ [c' [E Hd]]].
  exists c'. split; [exact E | exact Hd].
Defined.




(** C8.  "10 minute" gives 600.0 and nothing left; "set a timer for 5
    minutes" gives 300.0 and "set a timer for".  Each match contributes its
    number times the multiplier of its unit, the matches are taken out of
    the text, and what was not matched is the remainder. *)
Theorem C8_duration_examples :
  extract_duration_en "10 minute" = Ret (Some (Some (PFloat 600), ""))
  /\ extract_duration_en "set a timer for 5 minutes"
     = Ret (Some (Some (PFloat 300), "set a timer for"))
  /\ unit_matches time_unit_to_seconds_map "set a timer for 5 minutes" = [("5", 60)]
  /\ contribution ("5", 60) = Ret (PFloat 300)
  /\ unit_residual time_unit_to_seconds_map "set a timer for 5 minutes"
     = "set a timer for "
  /\ forall units text pieces,
       duration_units units text pieces
       = (ms <- map_outcome contribution (unit_matches units text) ;;
          Ret ((pieces ++ ms)%list, unit_residual units text)).
Proof.
  split; [vm_compute; reflexivity|].
  split; [vm_compute; reflexivity|].
  split; [vm_compute; reflexivity|].
  split; [vm_compute; reflexivity|].
  split; [vm_compute; reflexivity|].
  exact duration_units_spec.
Qed.

(** C9.  The empty text is answered by [None] whatever the reference
    instant, and an absent reference instant by [None] whatever the text. *)
Theorem C9_short_circuits :
  (forall dateNow default_time,
      extract_datetime_en "" dateNow default_time = Ret None)
  /\ (forall text default_time,
        extract_datetime_en text None default_time = Ret None).
Proof.
  split.
  - intros [d|] t; reflexivity.
  - intros text t. reflexivity.
Qed.

(** C10.  When the single-number extraction over a text yields 0, the loop
    of [extract_numbers_with_text] stops there: it returns the spans it had
    and no more, so at the first turn it returns none and the rewriting
    leaves every word of the text as it is. *)
Theorem C10_zero_stops_the_loop :
  forall text short_scale ordinals number s a b,
    extract_number_with_text_en text short_scale ordinals = Ret (number, s, a, b) ->
    number = PInt 0 \/ number = PFloat 0 ->
    (forall turns results,
        extract_numbers_loop extract_number_tokens (S turns) text
          short_scale ordinals results = Ret results)
    /\ extract_numbers_with_text text short_scale ordinals = Ret []
    /\ convert_words_to_numbers text short_scale ordinals
       = Ret (join " " (split text)).
Proof.
  intros text ss ord number s a b H Hz.
  assert (Hn : truthy number = false) by (destruct Hz; subst; reflexivity).
  split.
  - intros turns results.
    now apply loop_stops_on_falsy with (number := number) (s := s) (a := a) (b := b).
  - now apply convert_without_numbers with (number := number) (s := s) (a := a) (b := b).
Qed.

(** "zero apples two": the scan stops at "apples" with the value 0, and
    "two" is never replaced. *)
Lemma C10_zero_stops_witness :
  extract_number_with_text_en "zero apples two" true false
  = Ret (PInt 0, "zero", Some 0, Some 0)
  /\ extract_numbers_with_text "zero apples two" true false = Ret []
  /\ convert_words_to_numbers "zero apples two" true false = Ret "zero apples two".
Proof.
  assert (H : extract_number_with_text_en "zero apples two" true false
              = Ret (PInt 0, "zero", Some 0, Some 0)) by (vm_compute; reflexivity).
  split; [exact H|].
  destruct (C10_zero_stops_the_loop _ _ _ _ _ _ _ H (or_introl eq_refl))
    as [_ [H1 H2]].
  split; [exact H1 | exact H2].
Defined.
